(** * CortexPool: a shallow embedding of [src/cortex-pool.ts]

    The TypeScript class [CortexPool] keeps its data in an embedded SQL
    database (tables [entities], [facts], [contradictions], [pool], [topics],
    [reflections], [activation_history]) and a few in-memory fields.  The
    development below models

    - every table as the list of its rows in scan order (for [entities] and
      [facts] this is the order of their AUTOINCREMENT ids; no foreign-key
      or uniqueness constraint is enforced by the model);
    - a SQL statement as the list operation it denotes ([sql_update],
      [sql_delete], [sql_all], [sql_get]);
    - every method as a function that takes the instance and returns the
      new instance, reading [Date.now()] from a clock carried along;
    - JavaScript numbers that carry real quantities (importance, confidence,
      similarity, score, activation) by an abstract number type [num] with
      the operations the code uses; it is instantiated with exact rationals
      ([Q], executable) and with the reals ([R], where [Math.exp] is the
      real exponential).  Counters, ids and timestamps are integers ([Z]);
    - strings as sequences of 8-bit characters (ASCII text). *)

From Stdlib Require Import ZArith QArith Qminmax Reals Lra Lia.
From Stdlib Require Import List String Ascii Bool Permutation Sorted.
Import ListNotations.

Set Implicit Arguments.
Local Open Scope Z_scope.

(* ================================================================== *)
(** ** Numbers *)

(** The arithmetic the source performs on JavaScript numbers. *)
Class Number (num : Type) : Type := {
  ofQ  : Q -> num;                 (* a numeric literal, or an integer value *)
  nadd : num -> num -> num;
  nsub : num -> num -> num;
  nmul : num -> num -> num;
  ndiv : num -> num -> num;
  nltb : num -> num -> bool        (* a < b *)
}.

(** [Math.exp]. *)
Class Exponential (num : Type) : Type := Math_exp : num -> num.

Declare Scope num_scope.
Delimit Scope num_scope with num.
Notation "x + y" := (nadd x y) : num_scope.
Notation "x - y" := (nsub x y) : num_scope.
Notation "x * y" := (nmul x y) : num_scope.
Notation "x / y" := (ndiv x y) : num_scope.
Notation "x <? y" := (nltb x y) : num_scope.

Section NumberOps.
Context {num : Type} `{Number num}.

Definition lit (q : Q) : num := ofQ q.
Definition ofZ (z : Z) : num := ofQ (inject_Z z).
(* unary minus *)
Definition nneg (x : num) : num := (lit 0 - x)%num.
(* a >= b *)
Definition ngeb (a b : num) : bool := negb (a <? b)%num.
(* a > b *)
Definition ngtb (a b : num) : bool := (b <? a)%num.
Definition Math_max (a b : num) : num := if (a <? b)%num then b else a.
Definition Math_min (a b : num) : num := if (b <? a)%num then b else a.
(* Math.pow(x, n) for a natural exponent *)
Fixpoint Math_pow (x : num) (n : nat) : num :=
  match n with
  | O => lit 1
  | S n' => (x * Math_pow x n')%num
  end.
End NumberOps.
Arguments lit {num _} q%_Q.

(** The order laws that sorting by a numeric key relies on: [<] is a strict
    weak order. *)
Class NumberOrder (num : Type) `{Number num} : Prop := {
  nltb_asym : forall a b : num, (a <? b)%num = true -> (b <? a)%num = false;
  nltb_negtrans : forall a b c : num,
      (a <? b)%num = false -> (b <? c)%num = false -> (a <? c)%num = false
}.

(** Exact rationals. *)
#[export] Instance Number_Q : Number Q := {
  ofQ q := q;
  nadd := Qplus;
  nsub := Qminus;
  nmul := Qmult;
  ndiv := Qdiv;
  nltb a b := negb (Qle_bool b a)
}.

(** Real numbers. *)
Definition Rltb (a b : R) : bool := if Rlt_dec a b then true else false.

#[export] Instance Number_R : Number R := {
  ofQ := Q2R;
  nadd := Rplus;
  nsub := Rminus;
  nmul := Rmult;
  ndiv := Rdiv;
  nltb := Rltb
}.

#[export] Instance Exponential_R : Exponential R := exp.

(* ================================================================== *)
(** ** Strings *)

Section Strings.
Local Open Scope char_scope.
Local Open Scope string_scope.

Definition code (c : ascii) : N := N_of_ascii c.

(* String.prototype.toLowerCase on ASCII text *)
Definition lower_char (c : ascii) : ascii :=
  if ((65 <=? code c) && (code c <=? 90))%N
  then ascii_of_N (code c + 32) else c.

Fixpoint toLowerCase (s : string) : string :=
  match s with
  | EmptyString => EmptyString
  | String c s' => String (lower_char c) (toLowerCase s')
  end.

(* the characters matched by \s and removed by trim(): TAB, LF, VT, FF,
   CR and SPACE *)
Definition is_space (c : ascii) : bool :=
  (((9 <=? code c) && (code c <=? 13)) || (code c =? 32))%N.

Fixpoint trimStart (s : string) : string :=
  match s with
  | EmptyString => EmptyString
  | String c s' => if is_space c then trimStart s' else s
  end.

Fixpoint reverse (s : string) (acc : string) : string :=
  match s with
  | EmptyString => acc
  | String c s' => reverse s' (String c acc)
  end.

Definition trimEnd (s : string) : string :=
  reverse (trimStart (reverse s EmptyString)) EmptyString.

Definition trim (s : string) : string := trimEnd (trimStart s).

(* s.replace(/\s+/g, ' '): [in_run] tells that the previous character
   belonged to a whitespace run already replaced *)
Fixpoint collapse_spaces (in_run : bool) (s : string) : string :=
  match s with
  | EmptyString => EmptyString
  | String c s' =>
      if is_space c
      then if in_run then collapse_spaces true s'
           else String " " (collapse_spaces true s')
      else String c (collapse_spaces false s')
  end.

Definition normalizeName (name : string) : string :=
  collapse_spaces false (trim (toLowerCase name)).

Fixpoint startsWith (p s : string) : bool :=
  match p, s with
  | EmptyString, _ => true
  | String a p', String b s' => Ascii.eqb a b && startsWith p' s'
  | String _ _, EmptyString => false
  end.

(* String.prototype.includes *)
Fixpoint includes (s sub : string) : bool :=
  startsWith sub s
  || match s with
     | EmptyString => false
     | String _ s' => includes s' sub
     end.

(* Array.prototype.includes on an array of strings *)
Definition array_includes (l : list string) (x : string) : bool :=
  existsb (String.eqb x) l.

(* [...new Set(l)]: the distinct elements in order of first occurrence *)
Fixpoint dedup_from (seen l : list string) : list string :=
  match l with
  | [] => []
  | x :: l' =>
      if array_includes seen x then dedup_from seen l'
      else x :: dedup_from (x :: seen) l'
  end.
Definition dedup (l : list string) : list string := dedup_from [] l.

Fixpoint join (sep : string) (l : list string) : string :=
  match l with
  | [] => EmptyString
  | [x] => x
  | x :: l' => x ++ sep ++ join sep l'
  end.

(* s.substring(0, n) *)
Fixpoint take (n : nat) (s : string) : string :=
  match n, s with
  | S n', String c s' => String c (take n' s')
  | _, _ => EmptyString
  end.

(** *** JSON text of an array of strings, as [JSON.stringify] writes it *)

Definition dquote : ascii := ascii_of_N 34.
Definition backslash : ascii := ascii_of_N 92.

Definition hex_digit (n : N) : ascii :=
  if (n <? 10)%N then ascii_of_N (48 + n) else ascii_of_N (87 + n).

Definition json_escape_char (c : ascii) : string :=
  if (code c =? 34)%N then String backslash (String dquote EmptyString)
  else if (code c =? 92)%N then String backslash (String backslash EmptyString)
  else if (code c =? 8)%N then "\b"
  else if (code c =? 9)%N then "\t"
  else if (code c =? 10)%N then "\n"
  else if (code c =? 12)%N then "\f"
  else if (code c =? 13)%N then "\r"
  else if (code c <? 32)%N then
    "\u00" ++ String (hex_digit (code c / 16))
                 (String (hex_digit (code c mod 16)) EmptyString)
  else String c EmptyString.

Fixpoint json_escape (s : string) : string :=
  match s with
  | EmptyString => EmptyString
  | String c s' => json_escape_char c ++ json_escape s'
  end.

Definition json_string (s : string) : string :=
  String dquote (json_escape s ++ String dquote EmptyString).

(* JSON.stringify(aliases) for an array of strings *)
Definition JSON_stringify (l : list string) : string :=
  "[" ++ join "," (map json_string l) ++ "]".

(** *** The SQL operator [text LIKE pattern] (no ESCAPE clause): [%]
    matches any sequence of characters, [_] any single character, and
    letters match regardless of ASCII case. *)
Fixpoint sql_like (pattern text : string) : bool :=
  match pattern with
  | EmptyString =>
      match text with EmptyString => true | _ => false end
  | String p pattern' =>
      if (code p =? 37)%N then          (* % *)
        (fix skip (t : string) : bool :=
           sql_like pattern' t
           || match t with
              | EmptyString => false
              | String _ t' => skip t'
              end) text
      else
        match text with
        | EmptyString => false
        | String c text' =>
            ((code p =? 95)%N            (* _ *)
             || Ascii.eqb (lower_char p) (lower_char c))
            && sql_like pattern' text'
        end
  end.
End Strings.

(** *** Edit distance *)

(* one cell after another of row [i] of the matrix: [diag] is
   matrix[i-1][j-1], [left] is matrix[i][j-1], [above] holds
   matrix[i-1][j], matrix[i-1][j+1], ... *)
Fixpoint fill_row (c2 : ascii) (s1 : string) (diag left : nat)
         (above : list nat) : list nat :=
  match s1, above with
  | String c1 s1', up :: above' =>
      let v := if Ascii.eqb c2 c1 then diag
               else Nat.min (diag + 1) (Nat.min (left + 1) (up + 1)) in
      v :: fill_row c2 s1' up v above'
  | _, _ => []
  end.

Definition next_row (i : nat) (c2 : ascii) (s1 : string)
           (prev : list nat) : list nat :=
  match prev with
  | [] => [i]
  | d :: above => i :: fill_row c2 s1 d i above
  end.

(* rows 1 .. s2.length; the result is the last row *)
Fixpoint matrix_rows (i : nat) (s2 s1 : string) (prev : list nat) : list nat :=
  match s2 with
  | EmptyString => prev
  | String c2 s2' => matrix_rows (S i) s2' s1 (next_row i c2 s1 prev)
  end.

Definition levenshteinDistance (s1 s2 : string) : nat :=
  if Nat.eqb (String.length s1) 0 then String.length s2
  else if Nat.eqb (String.length s2) 0 then String.length s1
  else last (matrix_rows 1 s2 s1 (seq 0 (S (String.length s1)))) O.

Definition calculateSimilarity {num} `{Number num} (s1 s2 : string) : num :=
  let maxLen := Nat.max (String.length s1) (String.length s2) in
  if Nat.eqb maxLen 0 then lit 1.0
  else (lit 1.0 - ofZ (Z.of_nat (levenshteinDistance s1 s2))
                  / ofZ (Z.of_nat maxLen))%num.

(* ================================================================== *)
(** ** Data model *)

Inductive MemoryTier : Type := episodic | semantic | structural.

Inductive EntityType : Type :=
  person | project | concept | tool | preference | website | other.

Definition MemoryTier_eqb (a b : MemoryTier) : bool :=
  match a, b with
  | episodic, episodic | semantic, semantic | structural, structural => true
  | _, _ => false
  end.

(** A row of [entities]; [aliases] holds the parsed JSON array of the
    column (the column text is [JSON_stringify] of it). *)
Module Entity.
Record t (num : Type) : Type := mk {
  id : Z;
  name : string;
  canonicalName : string;
  type : EntityType;
  aliases : list string;
  confidence : num;
  createdAt : Z
}.
End Entity.

(** A row of [facts].  [predicate] is whatever string the caller passed. *)
Module Fact.
Record t (num : Type) : Type := mk {
  id : Z;
  subjectId : Z;
  predicate : string;
  objectId : option Z;
  content : string;
  tier : MemoryTier;
  importance : num;
  confidence : num;
  source : string;
  lastUsed : Z;
  useCount : Z;
  createdAt : Z;
  ttl : option Z
}.
End Fact.

Module PoolEntry.
Record t (num : Type) : Type := mk {
  factId : Z;
  relevanceScore : num;
  addedAt : Z
}.
End PoolEntry.

Module ActivationHistoryEntry.
Record t (num : Type) : Type := mk {
  entityId : Z;
  activation : num;
  timestamp : Z;
  source : string
}.
End ActivationHistoryEntry.

Module VectorSearchResult.
Record t (num : Type) : Type := mk {
  factId : Z;
  score : num
}.
End VectorSearchResult.

Module Contradiction.
Record t : Type := mk {
  fact1Id : Z;
  fact2Id : Z;
  detectedAt : Z
}.
End Contradiction.

Module Topic.
Record t (num : Type) : Type := mk {
  topic : string;
  canonicalTopic : string;
  weight : num;
  lastSeen : Z
}.
End Topic.

(** A row of [reflections]; [details] is the object whose JSON text the
    column holds. *)
Inductive ReflectionDetails : Type :=
| decay_details (pruned : Z)
| reflect_details (contradictions compressed : Z).

Module Reflection.
Record t : Type := mk {
  action : string;
  details : ReflectionDetails;
  createdAt : Z
}.
End Reflection.

Record TierConfig (num : Type) : Type := {
  decayRate : num;
  baseImportance : num;
  maxAge : option Z          (* None stands for Infinity *)
}.

Definition TIER_CONFIG {num} `{Number num} (tier : MemoryTier) : TierConfig num :=
  match tier with
  | episodic =>
      {| decayRate := lit 0.1; baseImportance := lit 0.3;
         maxAge := Some (24 * 60 * 60 * 1000) |}
  | semantic =>
      {| decayRate := lit 0.01; baseImportance := lit 0.6;
         maxAge := Some (365 * 24 * 60 * 60 * 1000) |}
  | structural =>
      {| decayRate := lit 0.001; baseImportance := lit 0.8; maxAge := None |}
  end.

(** The database: each table with its rows in scan order, and the
    AUTOINCREMENT counters of [entities] and [facts]. *)
Record Database (num : Type) : Type := mkDatabase {
  entities : list (Entity.t num);
  entities_seq : Z;
  facts : list (Fact.t num);
  facts_seq : Z;
  contradictions : list Contradiction.t;
  pool : list (PoolEntry.t num);
  topics : list (Topic.t num);
  reflections : list Reflection.t;
  activation_history : list (ActivationHistoryEntry.t num)
}.

(** [Date.now()]: the readings still to come, and how many were taken. *)
Record Clock : Type := mkClock {
  reading : nat -> Z;
  elapsed : nat
}.

(** An instance of the class (the co-reference cache is left out: no
    method modelled here touches it). *)
Record CortexPool (num : Type) : Type := mkCortexPool {
  db : Database num;
  poolSize : Z;
  currentTopics : list string;
  activationLevels : list (Z * num);     (* a Map, in insertion order *)
  activationHistory : list (ActivationHistoryEntry.t num);
  maxActivationHistory : Z;
  clock : Clock
}.

(** *** SQL statements over a table *)

Section SQL.
Variable Row : Type.

(* SELECT * FROM t WHERE p  (.all()) *)
Definition sql_all (p : Row -> bool) (t : list Row) : list Row := filter p t.
(* SELECT * FROM t WHERE p  (.get(): the first row, or undefined) *)
Definition sql_get (p : Row -> bool) (t : list Row) : option Row := find p t.
(* UPDATE t SET ... WHERE p *)
Definition sql_update (p : Row -> bool) (set : Row -> Row) (t : list Row)
  : list Row :=
  map (fun r => if p r then set r else r) t.
(* DELETE FROM t WHERE p *)
Definition sql_delete (p : Row -> bool) (t : list Row) : list Row :=
  filter (fun r => negb (p r)) t.
(* INSERT INTO t *)
Definition sql_insert (r : Row) (t : list Row) : list Row := t ++ [r].
End SQL.

(* the rowid an AUTOINCREMENT table gives its next row *)
Definition next_rowid (seq : Z) (ids : list Z) : Z :=
  fold_right Z.max seq ids + 1.

(** *** A JavaScript [Map] with integer keys, in insertion order *)

Section JSMap.
Variable V : Type.

Fixpoint map_get (k : Z) (m : list (Z * V)) : option V :=
  match m with
  | [] => None
  | (k', v) :: m' => if k' =? k then Some v else map_get k m'
  end.

Definition map_has (k : Z) (m : list (Z * V)) : bool :=
  match map_get k m with Some _ => true | None => false end.

Fixpoint map_set (k : Z) (v : V) (m : list (Z * V)) : list (Z * V) :=
  match m with
  | [] => [(k, v)]
  | (k', v') :: m' =>
      if k' =? k then (k, v) :: m' else (k', v') :: map_set k v m'
  end.

Definition map_delete (k : Z) (m : list (Z * V)) : list (Z * V) :=
  filter (fun kv => negb (fst kv =? k)) m.
End JSMap.

(** *** A stable sort, as [Array.prototype.sort] is: [before a b] tells that
    the comparator puts [a] strictly before [b] *)

Section Sort.
Variable A : Type.
Variable before : A -> A -> bool.

Fixpoint sort_insert (x : A) (l : list A) : list A :=
  match l with
  | [] => [x]
  | y :: l' => if before y x then y :: sort_insert x l' else x :: l
  end.

Fixpoint stable_sort (l : list A) : list A :=
  match l with
  | [] => []
  | x :: l' => sort_insert x (stable_sort l')
  end.
End Sort.

(* a.slice(0, n) *)
Definition slice_to (A : Type) (n : Z) (l : list A) : list A :=
  if n <? 0
  then firstn (Z.to_nat (Z.max (Z.of_nat (List.length l) + n) 0)) l
  else firstn (Z.to_nat n) l.

(* a.slice(-n) for n > 0 *)
Definition slice_last (A : Type) (n : Z) (l : list A) : list A :=
  skipn (List.length l - Z.to_nat n)%nat l.

(* truthiness of a number | null | undefined that holds an integer *)
Definition truthy (x : option Z) : bool :=
  match x with
  | Some v => negb (v =? 0)
  | None => false
  end.

(** *** Field updates *)

Section Updates.
Context {num : Type}.

Definition entity_set_aliases (a : list string) (e : Entity.t num) : Entity.t num :=
  Entity.mk (Entity.id e) (Entity.name e) (Entity.canonicalName e)
            (Entity.type e) a (Entity.confidence e) (Entity.createdAt e).

Definition entity_set_confidence (c : num) (e : Entity.t num) : Entity.t num :=
  Entity.mk (Entity.id e) (Entity.name e) (Entity.canonicalName e)
            (Entity.type e) (Entity.aliases e) c (Entity.createdAt e).

Definition fact_set_subjectId (v : Z) (f : Fact.t num) : Fact.t num :=
  Fact.mk (Fact.id f) v (Fact.predicate f) (Fact.objectId f)
          (Fact.content f) (Fact.tier f) (Fact.importance f)
          (Fact.confidence f) (Fact.source f) (Fact.lastUsed f)
          (Fact.useCount f) (Fact.createdAt f) (Fact.ttl f).

Definition fact_set_objectId (v : option Z) (f : Fact.t num) : Fact.t num :=
  Fact.mk (Fact.id f) (Fact.subjectId f) (Fact.predicate f) v
          (Fact.content f) (Fact.tier f) (Fact.importance f)
          (Fact.confidence f) (Fact.source f) (Fact.lastUsed f)
          (Fact.useCount f) (Fact.createdAt f) (Fact.ttl f).

Definition fact_set_content (v : string) (f : Fact.t num) : Fact.t num :=
  Fact.mk (Fact.id f) (Fact.subjectId f) (Fact.predicate f) (Fact.objectId f)
          v (Fact.tier f) (Fact.importance f)
          (Fact.confidence f) (Fact.source f) (Fact.lastUsed f)
          (Fact.useCount f) (Fact.createdAt f) (Fact.ttl f).

Definition fact_set_importance (v : num) (f : Fact.t num) : Fact.t num :=
  Fact.mk (Fact.id f) (Fact.subjectId f) (Fact.predicate f) (Fact.objectId f)
          (Fact.content f) (Fact.tier f) v
          (Fact.confidence f) (Fact.source f) (Fact.lastUsed f)
          (Fact.useCount f) (Fact.createdAt f) (Fact.ttl f).

Definition fact_set_confidence (v : num) (f : Fact.t num) : Fact.t num :=
  Fact.mk (Fact.id f) (Fact.subjectId f) (Fact.predicate f) (Fact.objectId f)
          (Fact.content f) (Fact.tier f) (Fact.importance f)
          v (Fact.source f) (Fact.lastUsed f)
          (Fact.useCount f) (Fact.createdAt f) (Fact.ttl f).

Definition fact_set_lastUsed (v : Z) (f : Fact.t num) : Fact.t num :=
  Fact.mk (Fact.id f) (Fact.subjectId f) (Fact.predicate f) (Fact.objectId f)
          (Fact.content f) (Fact.tier f) (Fact.importance f)
          (Fact.confidence f) (Fact.source f) v
          (Fact.useCount f) (Fact.createdAt f) (Fact.ttl f).

Definition fact_set_useCount (v : Z) (f : Fact.t num) : Fact.t num :=
  Fact.mk (Fact.id f) (Fact.subjectId f) (Fact.predicate f) (Fact.objectId f)
          (Fact.content f) (Fact.tier f) (Fact.importance f)
          (Fact.confidence f) (Fact.source f) (Fact.lastUsed f)
          v (Fact.createdAt f) (Fact.ttl f).

Definition db_set_entities (v : list (Entity.t num)) (d : Database num) :=
  mkDatabase v (entities_seq d) (facts d) (facts_seq d) (contradictions d)
             (pool d) (topics d) (reflections d) (activation_history d).

Definition db_set_entities_seq (v : Z) (d : Database num) :=
  mkDatabase (entities d) v (facts d) (facts_seq d) (contradictions d)
             (pool d) (topics d) (reflections d) (activation_history d).

Definition db_set_facts (v : list (Fact.t num)) (d : Database num) :=
  mkDatabase (entities d) (entities_seq d) v (facts_seq d) (contradictions d)
             (pool d) (topics d) (reflections d) (activation_history d).

Definition db_set_facts_seq (v : Z) (d : Database num) :=
  mkDatabase (entities d) (entities_seq d) (facts d) v (contradictions d)
             (pool d) (topics d) (reflections d) (activation_history d).

Definition db_set_contradictions (v : list Contradiction.t) (d : Database num) :=
  mkDatabase (entities d) (entities_seq d) (facts d) (facts_seq d) v
             (pool d) (topics d) (reflections d) (activation_history d).

Definition db_set_pool (v : list (PoolEntry.t num)) (d : Database num) :=
  mkDatabase (entities d) (entities_seq d) (facts d) (facts_seq d)
             (contradictions d) v (topics d) (reflections d)
             (activation_history d).

Definition db_set_topics (v : list (Topic.t num)) (d : Database num) :=
  mkDatabase (entities d) (entities_seq d) (facts d) (facts_seq d)
             (contradictions d) (pool d) v (reflections d)
             (activation_history d).

Definition db_set_reflections (v : list Reflection.t) (d : Database num) :=
  mkDatabase (entities d) (entities_seq d) (facts d) (facts_seq d)
             (contradictions d) (pool d) (topics d) v (activation_history d).

Definition db_set_activation_history
           (v : list (ActivationHistoryEntry.t num)) (d : Database num) :=
  mkDatabase (entities d) (entities_seq d) (facts d) (facts_seq d)
             (contradictions d) (pool d) (topics d) (reflections d) v.

Definition set_db (v : Database num) (this : CortexPool num) :=
  mkCortexPool v (poolSize this) (currentTopics this) (activationLevels this)
               (activationHistory this) (maxActivationHistory this)
               (clock this).

Definition set_currentTopics (v : list string) (this : CortexPool num) :=
  mkCortexPool (db this) (poolSize this) v (activationLevels this)
               (activationHistory this) (maxActivationHistory this)
               (clock this).

Definition set_activationLevels (v : list (Z * num)) (this : CortexPool num) :=
  mkCortexPool (db this) (poolSize this) (currentTopics this) v
               (activationHistory this) (maxActivationHistory this)
               (clock this).

Definition set_activationHistory (v : list (ActivationHistoryEntry.t num))
           (this : CortexPool num) :=
  mkCortexPool (db this) (poolSize this) (currentTopics this)
               (activationLevels this) v (maxActivationHistory this)
               (clock this).

Definition set_clock (v : Clock) (this : CortexPool num) :=
  mkCortexPool (db this) (poolSize this) (currentTopics this)
               (activationLevels this) (activationHistory this)
               (maxActivationHistory this) v.

(* a statement that rewrites one table *)
Definition on_entities (f : list (Entity.t num) -> list (Entity.t num))
           (this : CortexPool num) :=
  set_db (db_set_entities (f (entities (db this))) (db this)) this.

Definition on_facts (f : list (Fact.t num) -> list (Fact.t num))
           (this : CortexPool num) :=
  set_db (db_set_facts (f (facts (db this))) (db this)) this.

(* the rows of the topics table, and the field this.poolSize *)
Definition topics_table (this : CortexPool num) : list (Topic.t num) :=
  topics (db this).
Definition this_poolSize (this : CortexPool num) : Z := poolSize this.

(* Date.now() *)
Definition Date_now (this : CortexPool num) : Z * CortexPool num :=
  let c := clock this in
  (reading c (elapsed c), set_clock (mkClock (reading c) (S (elapsed c))) this).
End Updates.

(* ================================================================== *)
(** ** The methods of [CortexPool] *)

(* a parameter with a default value *)
Definition or_default (A : Type) (d : A) (o : option A) : A :=
  match o with
  | Some v => v
  | None => d
  end.

Module AddFactParams.
Record t (num : Type) : Type := mk {
  subject : string;
  predicate : string;
  object : option string;          (* None: undefined or null *)
  content : string;
  tier : option MemoryTier;
  confidence : option num;
  source : option string;
  ttl : option Z
}.
End AddFactParams.

Module RetrieveOptions.
Record t : Type := mk {
  useVectors : option bool;
  poolSize : option Z
}.
End RetrieveOptions.

(** What [retrieve] returns for a fact: the fact with its subject, its
    object and its score. *)
Module Retrieved.
Record t (num : Type) : Type := mk {
  fact : Fact.t num;
  subject : Entity.t num;
  object : option (Entity.t num);
  score : num
}.
End Retrieved.

(** How a call ends. *)
Inductive Outcome (A : Type) : Type :=
| Returned (a : A)
| Thrown (message : string).
Arguments Thrown {A} message.

Section Methods.
Context {num : Type} `{Number num}.

Local Abbreviation Entity := (Entity.t num).
Local Abbreviation Fact := (Fact.t num).
Local Abbreviation This := (CortexPool num).

(** *** Fuzzy matching *)

Definition maxSimilarity (normalizedQuery : string) (entity : Entity) : num :=
  let maxSimilarity := lit 0 in
  let maxSimilarity :=
    Math_max maxSimilarity
             (calculateSimilarity normalizedQuery (Entity.canonicalName entity)) in
  fold_left
    (fun maxSimilarity alias =>
       Math_max maxSimilarity
                (calculateSimilarity normalizedQuery (normalizeName alias)))
    (Entity.aliases entity) maxSimilarity.

(* the comparator (a, b) => b.similarity - a.similarity is negative *)
Definition by_similarity_desc (a b : Entity * num) : bool :=
  (snd b <? snd a)%num.

Definition findFuzzyMatches (query : string) (threshold : option num)
           (this : This) : list Entity :=
  let threshold := or_default (lit 0.7) threshold in
  let normalizedQuery := normalizeName query in
  let entities := entities (db this) in
  let matches :=
    flat_map
      (fun entity =>
         let maxSimilarity := maxSimilarity normalizedQuery entity in
         if ngeb maxSimilarity threshold then [(entity, maxSimilarity)] else [])
      entities in
  map fst (stable_sort by_similarity_desc matches).

(** *** Core entity operations *)

Definition addEntity (name : string) (type : option EntityType)
           (confidence : option num) (this : This) : Z * This :=
  let type := or_default other type in
  let confidence := or_default (lit 0.5) confidence in
  let canonicalName := normalizeName name in
  match sql_get (fun e => String.eqb (Entity.canonicalName e) canonicalName)
                (entities (db this)) with
  | Some existing =>
      let aliases := Entity.aliases existing in
      let this :=
        if array_includes aliases name then this
        else on_entities
               (sql_update (fun e => Entity.id e =? Entity.id existing)
                           (entity_set_aliases (aliases ++ [name]))) this in
      let newConfidence :=
        ((Entity.confidence existing + confidence) / lit 2)%num in
      let this :=
        on_entities
          (sql_update (fun e => Entity.id e =? Entity.id existing)
                      (entity_set_confidence newConfidence)) this in
      (Entity.id existing, this)
  | None =>
      let (now, this) := Date_now this in
      let rowid :=
        next_rowid (entities_seq (db this)) (map (@Entity.id num) (entities (db this))) in
      let row := Entity.mk rowid name canonicalName type [name] confidence now in
      (rowid,
       set_db (db_set_entities_seq rowid
                 (db_set_entities (sql_insert row (entities (db this))) (db this)))
              this)
  end.

Definition resolveEntity (query : string) (this : This) : option Entity :=
  let normalized := normalizeName query in
  match sql_get (fun e => String.eqb (Entity.canonicalName e) normalized)
                (entities (db this)) with
  | Some byCanonical => Some byCanonical
  | None =>
      match sql_get
              (fun e => sql_like ("%" ++ query ++ "%")%string
                                 (JSON_stringify (Entity.aliases e)))
              (entities (db this)) with
      | Some byAlias => Some byAlias
      | None =>
          match findFuzzyMatches query (Some (lit 0.8)) this with
          | first :: _ => Some first
          | [] => None
          end
      end
  end.

(* hydrateEntity(row): parses the aliases column, and throws a TypeError
   when row is undefined *)
Definition hydrateEntity (row : option Entity) : Outcome Entity :=
  match row with
  | Some row => Returned row
  | None => Thrown "TypeError: Cannot read properties of undefined"
  end.

Definition typeMap : list (string * EntityType) :=
  [ ("knows", person); ("created", project); ("fork-of", project);
    ("prefers", preference); ("uses", tool); ("learned", person);
    ("teachers", person); ("runs-on", concept); ("model", concept);
    ("github", website); ("caregiver", person); ("autistic", person);
    ("used-for", concept); ("created-by", person); ("is", concept);
    ("has", concept); ("affiliated-with", person); ("related-to", concept)
  ]%string.

(* typeMap[predicate] || 'other', for a predicate that names no property
   inherited from Object.prototype *)
Definition inferType (predicate : string) : EntityType :=
  match find (fun kv => String.eqb (fst kv) predicate) typeMap with
  | Some kv => snd kv
  | None => other
  end.

Definition getFact (id : Z) (this : This) : option Fact :=
  sql_get (fun f => Fact.id f =? id) (facts (db this)).

(* this.db.prepare('SELECT * FROM entities WHERE id = ?').get(id) *)
Definition getEntity (id : Z) (this : This) : option Entity :=
  sql_get (fun e => Entity.id e =? id) (entities (db this)).

(** *** Facts, with the TTL of episodic memories *)

Definition SEVEN_DAYS : Z := 7 * 24 * 60 * 60 * 1000.

Definition addFact (params : AddFactParams.t num) (this : This) : Z * This :=
  let subject := AddFactParams.subject params in
  let predicate := AddFactParams.predicate params in
  let object := AddFactParams.object params in
  let content := AddFactParams.content params in
  let tier := or_default semantic (AddFactParams.tier params) in
  let confidence := or_default (lit 0.7) (AddFactParams.confidence params) in
  let source := or_default "conversation"%string (AddFactParams.source params) in
  let ttl := AddFactParams.ttl params in
  let (subjectId, this) :=
    addEntity subject (Some (inferType predicate)) (Some confidence) this in
  let (objectId, this) :=
    match object with
    | Some o =>
        if Nat.eqb (String.length o) 0 then (None, this)
        else let (i, this) := addEntity o (Some other) (Some confidence) this in
             (Some i, this)
    | None => (None, this)
    end in
  let effectiveTtl :=
    if MemoryTier_eqb tier episodic && negb (truthy ttl)
    then Some SEVEN_DAYS else ttl in
  let (lastUsed, this) := Date_now this in
  let (createdAt, this) := Date_now this in
  let rowid :=
    next_rowid (facts_seq (db this)) (map (@Fact.id num) (facts (db this))) in
  let row :=
    Fact.mk rowid subjectId predicate objectId content tier
            (baseImportance (TIER_CONFIG tier)) confidence source
            lastUsed 0 createdAt
            (if truthy effectiveTtl then effectiveTtl else None) in
  (rowid,
   set_db (db_set_facts_seq rowid
             (db_set_facts (sql_insert row (facts (db this))) (db this)))
          this).

Definition bulkAdd (facts : list (AddFactParams.t num)) (this : This) : This :=
  fold_left (fun this fact => snd (addFact fact this)) facts this.


(** *** Usage tracking *)

Definition useFact (factId : Z) (this : This) : This :=
  match getFact factId this with
  | None => this
  | Some fact =>
      let newImportance := Math_min (lit 1.0) (Fact.importance fact + lit 0.1)%num in
      let (now, this) := Date_now this in
      on_facts
        (sql_update
           (fun f => Fact.id f =? factId)
           (fun f =>
              fact_set_useCount (Fact.useCount f + 1)
                (fact_set_lastUsed now (fact_set_importance newImportance f))))
        this
  end.
(** *** Topics and activation *)

Definition upsert_topic (topic : string) (now : Z)
           (table : list (Topic.t num)) : list (Topic.t num) :=
  if existsb (fun r => String.eqb (Topic.topic r) topic) table
  then sql_update (fun r => String.eqb (Topic.topic r) topic)
                  (fun r => Topic.mk (Topic.topic r) (Topic.canonicalTopic r)
                                     (Topic.weight r * lit 0.9 + lit 1.0)%num now)
                  table
  else sql_insert (Topic.mk topic (normalizeName topic) (lit 1.0) now) table.

Definition setTopics (topics : list string) (this : This) : This :=
  let this := set_currentTopics topics this in
  let this := set_activationLevels [] this in
  let (now, this) := Date_now this in
  fold_left
    (fun this topic =>
       let this :=
         set_db (db_set_topics (upsert_topic topic now (topics_table this))
                               (db this)) this in
       match resolveEntity topic this with
       | Some entity =>
           set_activationLevels
             (map_set (Entity.id entity) (lit 1.0) (activationLevels this)) this
       | None => this
       end)
    topics this.

(* the body of the loop over the entries of activationLevels, for one
   entry, at layer d *)
Definition spread_from (d : nat) (decay : num) (this : This)
           (newLevels : list (Z * num)) (entry : Z * num) : list (Z * num) :=
  let (entityId, activation) := entry in
  if (activation <? lit 0.01)%num then newLevels
  else
    let edgeAttenuation := Math_pow decay (d + 1) in
    let related :=
      sql_all (fun f => (Fact.subjectId f =? entityId)
                        || match Fact.objectId f with
                           | Some o => o =? entityId
                           | None => false
                           end)
              (facts (db this)) in
    fold_left
      (fun newLevels row =>
         let neighborId :=
           if Fact.subjectId row =? entityId then Fact.objectId row
           else Some (Fact.subjectId row) in
         match neighborId with
         | Some neighbor =>
             if negb (neighbor =? 0) && negb (neighbor =? entityId) then
               let distanceWeight :=
                 if String.eqb (Fact.predicate row) "related-to"
                 then lit 0.7 else lit 1.0 in
               let attenuatedActivation :=
                 (activation * edgeAttenuation * distanceWeight)%num in
               let current := or_default (lit 0) (map_get neighbor newLevels) in
               map_set neighbor (Math_max current attenuatedActivation) newLevels
             else newLevels
         | None => newLevels
         end)
      related newLevels.

Definition spread_layer (decay : num) (this : This) (d : nat) : This :=
  let newLevels :=
    fold_left (spread_from d decay this) (activationLevels this) [] in
  fold_left
    (fun this (entry : Z * num) =>
       let (id, level) := entry in
       let current := or_default (lit 0) (map_get id (activationLevels this)) in
       set_activationLevels
         (map_set id (Math_max current level) (activationLevels this)) this)
    newLevels this.

Definition applyActivationDecay (now : Z) (this : This) : This :=
  let decayRate : num := lit 0.05 in
  fold_left
    (fun this (entry : Z * num) =>
       let (entityId, activation) := entry in
       let recentActivations :=
         filter (fun e => (ActivationHistoryEntry.entityId e =? entityId)
                          && (now - ActivationHistoryEntry.timestamp e
                              <? 60 * 60 * 1000))
                (activationHistory this) in
       if Nat.eqb (List.length recentActivations) 0 then
         let decayed := (activation * (lit 1 - decayRate))%num in
         if (decayed <? lit 0.01)%num
         then set_activationLevels (map_delete entityId (activationLevels this)) this
         else set_activationLevels
                (map_set entityId decayed (activationLevels this)) this
       else this)
    (activationLevels this) this.

Definition recordActivationHistory (this : This) : This :=
  let (now, this) := Date_now this in
  let this :=
    set_activationHistory
      (activationHistory this
       ++ map (fun entry : Z * num =>
                 ActivationHistoryEntry.mk (fst entry) (snd entry) now "spread")
              (activationLevels this))
      this in
  let this :=
    if maxActivationHistory this <? Z.of_nat (List.length (activationHistory this))
    then set_activationHistory
           (slice_last (maxActivationHistory this) (activationHistory this)) this
    else this in
  set_db (db_set_activation_history
            (activation_history (db this)
             ++ slice_last 100 (activationHistory this))
            (db this))
         this.

Definition spreadActivation (depth : nat) (decay : num) (this : This) : This :=
  let (now, this) := Date_now this in
  let this := fold_left (spread_layer decay) (seq 0 depth) this in
  let this := applyActivationDecay now this in
  recordActivationHistory this.

(** *** Relevance *)

Definition typeWeights (type : EntityType) : num :=
  match type with
  | person => lit 0.15
  | project => lit 0.15
  | preference => lit 0.2
  | tool => lit 0.1
  | concept => lit 0.05
  | _ => lit 0
  end.

Definition calculateRelevance (fact : Fact) (this : This) : num * This :=
  let score := (Fact.importance fact * Fact.confidence fact)%num in
  match getEntity (Fact.subjectId fact) this with
  | None => (score, this)
  | Some subject =>
      let score :=
        fold_left
          (fun score topic =>
             let normTopic := normalizeName topic in
             let score :=
               if includes (Entity.canonicalName subject) normTopic
                  || includes normTopic (Entity.canonicalName subject)
               then (score + lit 0.4)%num else score in
             if existsb (fun alias => includes (normalizeName alias) normTopic)
                        (Entity.aliases subject)
             then (score + lit 0.3)%num else score)
          (currentTopics this) score in
      let activation :=
        or_default (lit 0) (map_get (Fact.subjectId fact) (activationLevels this)) in
      let score := (score + activation * lit 0.3)%num in
      let score := (score + typeWeights (Entity.type subject))%num in
      let (now, this) := Date_now this in
      let hoursSinceUse :=
        (ofZ (now - Fact.lastUsed fact) / ofZ (1000 * 60 * 60))%num in
      let score :=
        (score + Math_max (lit 0) (lit 0.2 - hoursSinceUse * lit 0.01))%num in
      (Math_min (lit 1.0) score, this)
  end.

(** *** Retrieval *)

(* facts.map(fact => ({ fact, score: this.calculateRelevance(fact) })) *)
Fixpoint score_all (facts : list Fact) (this : This)
  : list (Fact * num) * This :=
  match facts with
  | [] => ([], this)
  | fact :: rest =>
      let (score, this) := calculateRelevance fact this in
      let (scored, this) := score_all rest this in
      ((fact, score) :: scored, this)
  end.

(* the comparator (a, b) => b.score - a.score is negative *)
Definition by_score_desc (A : Type) (a b : A * num) : bool :=
  (snd b <? snd a)%num.

(* the loop over scored.slice(0, poolSize) *)
Fixpoint fill_pool (now : Z) (selected : list (Fact * num))
         (results : list (Retrieved.t num)) (this : This)
  : Outcome (list (Retrieved.t num)) * This :=
  match selected with
  | [] => (Returned results, this)
  | (fact, score) :: rest =>
      let this :=
        set_db (db_set_pool
                  (sql_insert (PoolEntry.mk (Fact.id fact) score now)
                              (pool (db this)))
                  (db this)) this in
      let subject := getEntity (Fact.subjectId fact) this in
      let object :=
        match Fact.objectId fact with
        | Some o => if negb (o =? 0) then getEntity o this else None
        | None => None
        end in
      match hydrateEntity subject with
      | Thrown message => (Thrown message, this)
      | Returned subject =>
          fill_pool now rest
                    (results ++ [Retrieved.mk fact subject object score]) this
      end
  end.

Definition retrieve (topics : list string) (options : RetrieveOptions.t)
           (this : This) : Outcome (list (Retrieved.t num)) * This :=
  let poolSize :=
    or_default (this_poolSize this) (RetrieveOptions.poolSize options) in
  let this := setTopics topics this in
  (* spreadActivation is declared async but holds no await: its body has
     run to its end when the call returns *)
  let this := spreadActivation 2 (lit 0.5) this in
  let facts := facts (db this) in
  let (scored, this) := score_all facts this in
  let scored := stable_sort (@by_score_desc Fact) scored in
  let this := set_db (db_set_pool [] (db this)) this in
  let (now, this) := Date_now this in
  fill_pool now (slice_to poolSize scored) [] this.

(** *** Hybrid retrieval; [searchByVector] is the vector backend *)

Definition VectorBackend : Type :=
  string -> Z -> Outcome (list (VectorSearchResult.t num)).

(* the method as the class defines it *)
Definition searchByVector : VectorBackend := fun _ _ => Returned [].

Definition retrieved_set_score (score : num) (r : Retrieved.t num) :=
  Retrieved.mk (Retrieved.fact r) (Retrieved.subject r) (Retrieved.object r) score.

(* the loop over the vector hits; None when hydrateEntity throws *)
Fixpoint add_vector_hits (hits : list (Z * num)) (this : This)
         (mergedResults : list (Z * Retrieved.t num))
  : option (list (Z * Retrieved.t num)) :=
  match hits with
  | [] => Some mergedResults
  | (factId, vectorScore) :: rest =>
      if map_has factId mergedResults then add_vector_hits rest this mergedResults
      else
        match getFact factId this with
        | None => add_vector_hits rest this mergedResults
        | Some fact =>
            let subject := getEntity (Fact.subjectId fact) this in
            let object :=
              match Fact.objectId fact with
              | Some o => if negb (o =? 0) then getEntity o this else None
              | None => None
              end in
            match hydrateEntity subject with
            | Thrown _ => None
            | Returned subject =>
                add_vector_hits rest this
                  (map_set factId
                           (Retrieved.mk fact subject object
                                         (vectorScore * lit 0.3)%num)
                           mergedResults)
            end
        end
  end.

Definition hybridRetrieval (backend : VectorBackend) (topics : list string)
           (poolSize : Z) (this : This)
  : Outcome (list (Retrieved.t num)) * This :=
  match retrieve topics (RetrieveOptions.mk (Some false) (Some poolSize)) this with
  | (Thrown message, this) => (Thrown message, this)
  | (Returned graphResults, this) =>
      let queryText := join " " topics in
      match backend queryText poolSize with
      | Thrown _ => (Returned graphResults, this)
      | Returned vectorResults =>
          if Nat.eqb (List.length vectorResults) 0 then (Returned graphResults, this)
          else
            let vectorFactIds :=
              fold_left
                (fun m r => map_set (VectorSearchResult.factId r)
                                    (VectorSearchResult.score r) m)
                vectorResults [] in
            let mergedResults :=
              fold_left
                (fun m result =>
                   let id := Fact.id (Retrieved.fact result) in
                   let vectorScore := or_default (lit 0) (map_get id vectorFactIds) in
                   let combinedScore :=
                     (Retrieved.score result * lit 0.7 + vectorScore * lit 0.3)%num in
                   map_set id (retrieved_set_score combinedScore result) m)
                graphResults [] in
            match add_vector_hits vectorFactIds this mergedResults with
            | None => (Returned graphResults, this)
            | Some mergedResults =>
                (Returned
                   (slice_to poolSize
                      (stable_sort
                         (fun a b => (Retrieved.score b <? Retrieved.score a)%num)
                         (map snd mergedResults))),
                 this)
            end
      end
  end.
End Methods.

(** ** Maintenance: decay, contradictions, reflection *)

(* a row of the self-join of detectContradictions *)
Module FactPair.
Record t : Type := mk {
  f1id : Z;
  f1content : string;
  f2id : Z;
  f2content : string
}.
End FactPair.

Module ReflectResult.
Record t : Type := mk {
  contradictions : Z;
  entities : Z;
  compressed : Z
}.
End ReflectResult.

Section Maintenance.
Context {num : Type} `{Number num}.

Local Abbreviation Entity := (Entity.t num).
Local Abbreviation Fact := (Fact.t num).
Local Abbreviation This := (CortexPool num).

Definition insert_reflection (action : string) (details : ReflectionDetails)
           (createdAt : Z) (this : This) : This :=
  set_db (db_set_reflections
            (sql_insert (Reflection.mk action details createdAt)
                        (reflections (db this)))
            (db this)) this.

(** *** Time decay *)

Definition decayed_importance `{Exponential num} (now : Z) (fact : Fact) : num :=
  let config := TIER_CONFIG (Fact.tier fact) in
  let hoursSinceUse := (ofZ (now - Fact.lastUsed fact) / ofZ (1000 * 60 * 60))%num in
  let decay := Math_exp (nneg (decayRate config) * hoursSinceUse)%num in
  (baseImportance config + (Fact.importance fact - baseImportance config) * decay)%num.

Definition applyDecay `{Exponential num} (this : This) : This :=
  let (now, this) := Date_now this in
  let facts := facts (db this) in
  let this :=
    fold_left
      (fun this fact =>
         let newImportance := decayed_importance now fact in
         if (newImportance <? lit 0.1)%num
         then on_facts (sql_delete (fun f => Fact.id f =? Fact.id fact)) this
         else on_facts (sql_update (fun f => Fact.id f =? Fact.id fact)
                                   (fact_set_importance newImportance)) this)
      facts this in
  insert_reflection "decay" (decay_details (Z.of_nat (List.length facts))) now this.

(** *** Contradiction detection *)

(* SELECT ... FROM facts f1, facts f2 WHERE f1.subjectId = f2.subjectId
   AND f1.predicate = f2.predicate AND f1.id < f2.id *)
Definition candidate_pair (f1 f2 : Fact) : list FactPair.t :=
  if (Fact.subjectId f1 =? Fact.subjectId f2)
     && String.eqb (Fact.predicate f1) (Fact.predicate f2)
     && (Fact.id f1 <? Fact.id f2)
  then [FactPair.mk (Fact.id f1) (Fact.content f1) (Fact.id f2) (Fact.content f2)]
  else [].

Definition contradiction_candidates (facts : list Fact) : list FactPair.t :=
  flat_map (fun f1 => flat_map (candidate_pair f1) facts) facts.

(* the two ids of a candidate row *)
Definition id_pair (row : FactPair.t) : Z * Z :=
  (FactPair.f1id row, FactPair.f2id row).

(* row.f1content !== row.f2content *)
Definition differing (row : FactPair.t) : bool :=
  negb (String.eqb (FactPair.f1content row) (FactPair.f2content row)).

Definition detectContradictions (this : This) : Z * This :=
  let facts := contradiction_candidates (facts (db this)) in
  let (now, this) := Date_now this in
  let this :=
    fold_left
      (fun this row =>
         if differing row
         then set_db (db_set_contradictions
                        (sql_insert
                           (Contradiction.mk (FactPair.f1id row) (FactPair.f2id row) now)
                           (contradictions (db this)))
                        (db this)) this
         else this)
      facts this in
  (Z.of_nat (List.length facts), this).

(** *** Memory compression *)

(* the body of the inner loop of mergeSimilarFacts for the pair (f1, f2) *)
Definition merge_pair (f1 : Fact) (acc : Z * This) (f2 : Fact) : Z * This :=
  let (merged, this) := acc in
  if negb (Fact.subjectId f1 =? Fact.subjectId f2)
     || negb (String.eqb (Fact.predicate f1) (Fact.predicate f2))
  then (merged, this)
  else
    let similarity : num := calculateSimilarity (Fact.content f1) (Fact.content f2) in
    if ngtb similarity (lit 0.85) then
      let newConfidence :=
        Math_min (lit 1.0) (Fact.confidence f1 + Fact.confidence f2)%num in
      let newImportance := Math_max (Fact.importance f1) (Fact.importance f2) in
      let newUseCount := Fact.useCount f1 + Fact.useCount f2 in
      let this :=
        on_facts
          (sql_update
             (fun f => Fact.id f =? Fact.id f1)
             (fun f =>
                fact_set_lastUsed (Z.max (Fact.lastUsed f1) (Fact.lastUsed f2))
                  (fact_set_useCount newUseCount
                     (fact_set_importance newImportance
                        (fact_set_confidence newConfidence f)))))
          this in
      let this := on_facts (sql_delete (fun f => Fact.id f =? Fact.id f2)) this in
      (merged + 1, this)
    else (merged, this).

(* for (i ...) for (j = i + 1 ...) over the rows read at the start *)
Fixpoint merge_loop (facts : list Fact) (acc : Z * This) : Z * This :=
  match facts with
  | [] => acc
  | f1 :: rest => merge_loop rest (fold_left (merge_pair f1) rest acc)
  end.

Definition mergeSimilarFacts (this : This) : Z * This :=
  let facts := sql_all (fun f => MemoryTier_eqb (Fact.tier f) semantic)
                       (facts (db this)) in
  merge_loop facts (0, this).

Definition same_edge (subjectId : Z) (predicate : string) (objectId : Z)
           (f : Fact) : bool :=
  (Fact.subjectId f =? subjectId)
  && String.eqb (Fact.predicate f) predicate
  && match Fact.objectId f with
     | Some o => o =? objectId
     | None => false
     end.

(* GROUP BY subjectId, predicate, objectId HAVING cnt > 1 over the facts
   with an object; the groups are listed in order of first appearance *)
Fixpoint edge_groups (seen : list (Z * string * Z)) (all rows : list Fact)
  : list (Z * string * Z) :=
  match rows with
  | [] => []
  | f :: rows' =>
      match Fact.objectId f with
      | None => edge_groups seen all rows'
      | Some o =>
          let key := (Fact.subjectId f, Fact.predicate f, o) in
          if existsb (fun k => same_edge (fst (fst k)) (snd (fst k)) (snd k) f) seen
          then edge_groups seen all rows'
          else if (1 <? List.length (filter (same_edge (Fact.subjectId f) (Fact.predicate f) o) all))%nat
               then key :: edge_groups (key :: seen) all rows'
               else edge_groups (key :: seen) all rows'
      end
  end.

(* ORDER BY importance DESC, useCount DESC *)
Definition by_importance_useCount_desc (a b : Fact) : bool :=
  (Fact.importance b <? Fact.importance a)%num
  || (negb (Fact.importance a <? Fact.importance b)%num
      && (Fact.useCount b <? Fact.useCount a)).

Definition pruneRedundantEdges (this : This) : Z * This :=
  let groups := edge_groups [] (facts (db this)) (facts (db this)) in
  fold_left
    (fun (acc : Z * This) (row : Z * string * Z) =>
       let (pruned, this) := acc in
       let duplicates :=
         stable_sort by_importance_useCount_desc
           (sql_all (same_edge (fst (fst row)) (snd (fst row)) (snd row))
                    (facts (db this))) in
       fold_left
         (fun (acc : Z * This) duplicate =>
            let (pruned, this) := acc in
            (pruned + 1,
             on_facts (sql_delete (fun f => Fact.id f =? Fact.id duplicate)) this))
         (tl duplicates) (pruned, this))
    groups (0, this).

Definition summarizeOldFacts (this : This) : Z * This :=
  let (now, this) := Date_now this in
  let oldFacts :=
    stable_sort
      (fun a b : Fact => Fact.createdAt a <? Fact.createdAt b)
      (sql_all (fun f => MemoryTier_eqb (Fact.tier f) semantic
                         && ngtb (Fact.importance f) (lit 0.3)
                         && (3 <? Fact.useCount f)
                         && (Fact.createdAt f <? now - 90 * 24 * 60 * 60 * 1000))
               (facts (db this))) in
  fold_left
    (fun (acc : Z * This) fact =>
       let (summarized, this) := acc in
       if (String.length (Fact.content fact) <? 50)%nat then (summarized, this)
       else
         let summary :=
           ("[Summarized: " ++ take 100 (Fact.content fact) ++ "...]")%string in
         (summarized + 1,
          on_facts (sql_update (fun f => Fact.id f =? Fact.id fact)
                               (fact_set_content summary)) this))
    oldFacts (0, this).

Definition compressMemory (this : This) : Z * This :=
  let compressed := 0 in
  let (n, this) := mergeSimilarFacts this in
  let compressed := compressed + n in
  let (n, this) := pruneRedundantEdges this in
  let compressed := compressed + n in
  let (n, this) := summarizeOldFacts this in
  let compressed := compressed + n in
  (compressed, this).

(** *** The reflection loop *)

(* entity.objectId, read on a row of the entities table: the table has no
   such column, so the property is undefined *)
Definition entity_row_objectId (entity : Entity) : option Z := None.

(* the body of the loop of reflect() over the entity rows read at its
   start; canonicalMap is the Map from canonical names to rows *)
Definition consolidate_entity (acc : list (string * Entity) * This)
           (entity : Entity) : list (string * Entity) * This :=
  let (canonicalMap, this) := acc in
  let canonical := Entity.canonicalName entity in
  match find (fun kv => String.eqb (fst kv) canonical) canonicalMap with
  | Some (_, existing) =>
      let existingAliases := Entity.aliases existing in
      let newAliases := Entity.aliases entity in
      let mergedAliases := dedup (existingAliases ++ newAliases) in
      let this :=
        on_facts (sql_update (fun f => Fact.subjectId f =? Entity.id entity)
                             (fact_set_subjectId (Entity.id existing))) this in
      let this :=
        if truthy (entity_row_objectId entity) then
          on_facts (sql_update
                      (fun f => match Fact.objectId f with
                                | Some o => o =? Entity.id entity
                                | None => false
                                end)
                      (fact_set_objectId (Some (Entity.id existing)))) this
        else this in
      let this :=
        on_entities (sql_delete (fun e => Entity.id e =? Entity.id entity)) this in
      let this :=
        on_entities
          (sql_update
             (fun e => Entity.id e =? Entity.id existing)
             (fun e =>
                entity_set_confidence
                  ((Entity.confidence existing + Entity.confidence entity) / lit 2)%num
                  (entity_set_aliases mergedAliases e)))
          this in
      (canonicalMap, this)
  | None => (canonicalMap ++ [(canonical, entity)], this)
  end.

Definition consolidateEntities (entities : list Entity) (this : This) : This :=
  snd (fold_left consolidate_entity entities ([], this)).

Definition refreshPool (this : This) : Outcome unit * This :=
  if (0 <? List.length (currentTopics this))%nat then
    match retrieve (currentTopics this) (RetrieveOptions.mk None None) this with
    | (Returned _, this) => (Returned tt, this)
    | (Thrown message, this) => (Thrown message, this)
    end
  else (Returned tt, this).

Definition reflect `{Exponential num} (this : This)
  : Outcome ReflectResult.t * This :=
  let (now, this) := Date_now this in
  let this := applyDecay this in
  let (contradictions, this) := detectContradictions this in
  let entities := entities (db this) in
  let this := consolidateEntities entities this in
  let (compressed, this) := compressMemory this in
  match refreshPool this with
  | (Thrown message, this) => (Thrown message, this)
  | (Returned _, this) =>
      let this :=
        insert_reflection "reflect" (reflect_details contradictions compressed)
                          now this in
      (Returned (ReflectResult.mk contradictions
                                  (Z.of_nat (List.length entities)) compressed),
       this)
  end.
End Maintenance.

(* ================================================================== *)
(** ** Vocabulary of the properties *)

Section Vocabulary.
Context {num : Type} `{Number num}.

(* the test under which mergeSimilarFacts merges the pair (f1, f2) *)
Definition similar (f1 f2 : Fact.t num) : bool :=
  (Fact.subjectId f1 =? Fact.subjectId f2)
  && String.eqb (Fact.predicate f1) (Fact.predicate f2)
  && ngtb (calculateSimilarity (Fact.content f1) (Fact.content f2) : num)
          (lit 0.85).

(* the UPDATE of mergeSimilarFacts for the pair (f1, f2), on a row f *)
Definition merged_into (f1 f2 f : Fact.t num) : Fact.t num :=
  fact_set_lastUsed (Z.max (Fact.lastUsed f1) (Fact.lastUsed f2))
    (fact_set_useCount (Fact.useCount f1 + Fact.useCount f2)
       (fact_set_importance (Math_max (Fact.importance f1) (Fact.importance f2))
          (fact_set_confidence
             (Math_min (lit 1.0) (Fact.confidence f1 + Fact.confidence f2)%num)
             f))).

(* the statements mergeSimilarFacts runs for the pair (f1, f2), on the
   facts table *)
Definition merge_row (f1 : Fact.t num) (t : list (Fact.t num)) (f2 : Fact.t num)
  : list (Fact.t num) :=
  if similar f1 f2
  then sql_delete (fun f => Fact.id f =? Fact.id f2)
                  (sql_update (fun f => Fact.id f =? Fact.id f1)
                              (merged_into f1 f2) t)
  else t.


Fixpoint merge_rows (facts : list (Fact.t num)) (t : list (Fact.t num))
  : list (Fact.t num) :=
  match facts with
  | [] => t
  | f1 :: rest => merge_rows rest (fold_left (merge_row f1) rest t)
  end.

(* the statement applyDecay runs for one fact, on the facts table *)
Definition decay_row `{Exponential num} (now : Z) (t : list (Fact.t num))
           (fact : Fact.t num) : list (Fact.t num) :=
  if (decayed_importance now fact <? lit 0.1)%num
  then sql_delete (fun f => Fact.id f =? Fact.id fact) t
  else sql_update (fun f => Fact.id f =? Fact.id fact)
                  (fact_set_importance (decayed_importance now fact)) t.

(* the three tests of resolveEntity on a row of the entities table *)
Definition exact_match (query : string) (e : Entity.t num) : bool :=
  String.eqb (Entity.canonicalName e) (normalizeName query).

Definition alias_match (query : string) (e : Entity.t num) : bool :=
  sql_like ("%" ++ query ++ "%")%string (JSON_stringify (Entity.aliases e)).

Definition fuzzy_match (query : string) (e : Entity.t num) : bool :=
  ngeb (maxSimilarity (normalizeName query) e) (lit 0.8).

(* the query occurs, as it is written, in the stored text of the aliases *)
Definition substring_match (query : string) (e : Entity.t num) : bool :=
  includes (JSON_stringify (Entity.aliases e)) query.

(* an entity paired with its similarity to the query *)
Definition with_similarity (normalizedQuery : string) (e : Entity.t num)
  : Entity.t num * num :=
  (e, maxSimilarity normalizedQuery e).

(* how resolveEntity settles a query: the entity it returns passes the
   exact test and is the row of least id that does; or no row passes the
   exact test, and it is the row of least id that passes the alias test; or
   no row passes either, it passes the fuzzy test, no row that passes it is
   more similar to the query, and every row of lower id that passes it is
   less similar; it returns null when no row passes any of the tests *)
Definition resolved_in_order (query : string) (this : CortexPool num) : Prop :=
  let rows := entities (db this) in
  let sim := maxSimilarity (normalizeName query) in
  match resolveEntity query this with
  | Some e =>
      In e rows
      /\ ((exact_match query e = true
           /\ forall e', In e' rows -> Entity.id e' < Entity.id e ->
                         exact_match query e' = false)
          \/ ((forall e', In e' rows -> exact_match query e' = false)
              /\ alias_match query e = true
              /\ forall e', In e' rows -> Entity.id e' < Entity.id e ->
                            alias_match query e' = false)
          \/ ((forall e', In e' rows ->
                          exact_match query e' = false
                          /\ alias_match query e' = false)
              /\ fuzzy_match query e = true
              /\ (forall e', In e' rows -> fuzzy_match query e' = true ->
                             (sim e <? sim e')%num = false)
              /\ (forall e', In e' rows -> fuzzy_match query e' = true ->
                             Entity.id e' < Entity.id e ->
                             (sim e' <? sim e)%num = true)))
  | None =>
      forall e', In e' rows ->
                 exact_match query e' = false
                 /\ alias_match query e' = false
                 /\ fuzzy_match query e' = false
  end.

(* the scores retrieve computes: the facts with their relevance, in table
   order, as they stand before the sort *)
Definition scored_facts (topics : list string) (this : CortexPool num)
  : list (Fact.t num * num) :=
  let this := setTopics topics this in
  let this := spreadActivation 2 (lit 0.5) this in
  fst (score_all (facts (db this)) this).

(* the row retrieve writes to the pool for a scored fact *)
Definition pool_row (now : Z) (scored : Fact.t num * num) : PoolEntry.t num :=
  PoolEntry.mk (Fact.id (fst scored)) (snd scored) now.

(* descending order of score: no later element has a greater score *)
Definition score_desc (A : Type) (a b : A * num) : Prop :=
  (snd a <? snd b)%num = false.


(* the rows of the facts table are in the order of their ids *)
Definition facts_in_id_order (this : CortexPool num) : Prop :=
  StronglySorted (fun a b : Fact.t num => Fact.id a < Fact.id b) (facts (db this)).

(* the rows of the entities table are in the order of their ids *)
Definition entities_in_id_order (this : CortexPool num) : Prop :=
  StronglySorted (fun a b : Entity.t num => Entity.id a < Entity.id b)
                 (entities (db this)).
End Vocabulary.

(* ================================================================== *)
(** ** Sample instances *)

(* new CortexPool(dbPath) on a path that holds no database yet *)
Definition new_CortexPool (num : Type) (clock : Clock) : CortexPool num :=
  mkCortexPool (mkDatabase [] 0 [] 0 [] [] [] [] []) 15 [] [] [] 1000 clock.

Definition sample_clock : Clock :=
  mkClock (fun n => 1700000000000 + Z.of_nat n) 0.

Definition fresh : CortexPool Q := new_CortexPool Q sample_clock.

Definition sample_params (subject predicate : string) (object : option string)
           (content : string) (tier : option MemoryTier) (ttl : option Z)
  : AddFactParams.t Q :=
  AddFactParams.mk subject predicate object content tier None None ttl.

(* one episodic fact about William *)
Definition seeded : CortexPool Q :=
  snd (addFact (sample_params "William" "created" (Some "OpenLiam"%string)
                              "William created OpenLiam" (Some episodic) None)
               fresh).

(* an episodic fact passed with an explicit ttl of 0 *)
Definition zero_ttl_params : AddFactParams.t Q :=
  sample_params "William" "mentioned" None "William said hello"
                (Some episodic) (Some 0).

(* over the reals: the two identical facts of the scenario in which one
   fact is added twice, an hour before the clock's readings *)
Definition twins : CortexPool R :=
  mkCortexPool
    (mkDatabase
       [Entity.mk 1 "William" "william" preference ["William"%string] (Q2R 0.7) 1000;
        Entity.mk 2 "tabs" "tabs" other ["tabs"%string] (Q2R 0.7) 1000]
       2
       [Fact.mk 1 1 "prefers" (Some 2) "prefers tabs over spaces" semantic
                (Q2R 0.6) (Q2R 0.7) "conversation" 1000 0 1000 None;
        Fact.mk 2 1 "prefers" (Some 2) "prefers tabs over spaces" semantic
                (Q2R 0.6) (Q2R 0.7) "conversation" 1000 0 1000 None]
       2 [] [] [] [] [])
    15 [] [] [] 1000 (mkClock (fun _ => 3601000) 0).









(* a vector backend whose searchByVector throws *)
Definition failing_backend : @VectorBackend Q :=
  fun _ _ => Thrown "vector index unavailable".

(* ================================================================== *)
(* ================================================================== *)
(** ** Read-only queries: merge suggestions and the activation history *)

Module EntityMergeSuggestion.
Record t (num : Type) : Type := mk {
  entity1Id : Z;
  entity2Id : Z;
  similarity : num;
  reason : string
}.
End EntityMergeSuggestion.

Section Queries.
Context {num : Type} `{Number num}.

(* the value of maxSimilarity of suggestEntityMerges for the pair
   (entity1, entity2), after the two loops over the aliases *)
Definition pair_similarity (entity1 entity2 : Entity.t num) : num :=
  let maxSimilarity : num :=
    calculateSimilarity (Entity.canonicalName entity1)
                        (Entity.canonicalName entity2) in
  fold_left
    (fun maxSimilarity alias1 =>
       fold_left
         (fun maxSimilarity alias2 =>
            Math_max maxSimilarity
                     (calculateSimilarity (normalizeName alias1)
                                          (normalizeName alias2)))
         (Entity.aliases entity2) maxSimilarity)
    (Entity.aliases entity1) maxSimilarity.

(* the reason given for a suggested pair *)
Definition merge_reason (entity1 entity2 : Entity.t num)
           (this : CortexPool num) : string :=
  let reason := "High name similarity"%string in
  let facts1 :=
    sql_all (fun f => Fact.subjectId f =? Entity.id entity1) (facts (db this)) in
  let facts2 :=
    sql_all (fun f => Fact.subjectId f =? Entity.id entity2) (facts (db this)) in
  let predicates1 := dedup (map (@Fact.predicate num) facts1) in
  let predicates2 := dedup (map (@Fact.predicate num) facts2) in
  let commonPredicates := filter (array_includes predicates2) predicates1 in
  if (0 <? List.length commonPredicates)%nat
  then ("Shared relationships: " ++ join ", " commonPredicates)%string
  else reason.

(* the body of the inner loop, for the pair (entity1, entity2) *)
Definition suggest_pair (similarityThreshold : num) (this : CortexPool num)
           (entity1 entity2 : Entity.t num)
  : list (EntityMergeSuggestion.t num) :=
  let maxSimilarity := pair_similarity entity1 entity2 in
  if ngeb maxSimilarity similarityThreshold
  then [EntityMergeSuggestion.mk (Entity.id entity1) (Entity.id entity2)
                                 maxSimilarity
                                 (merge_reason entity1 entity2 this)]
  else [].

(* for (i ...) for (j = i + 1 ...) over the entity rows *)
Fixpoint suggest_loop (similarityThreshold : num) (this : CortexPool num)
         (entities : list (Entity.t num))
  : list (EntityMergeSuggestion.t num) :=
  match entities with
  | [] => []
  | entity1 :: rest =>
      flat_map (suggest_pair similarityThreshold this entity1) rest
      ++ suggest_loop similarityThreshold this rest
  end.

(* the comparator (a, b) => b.similarity - a.similarity is negative *)
Definition by_suggested_similarity_desc (a b : EntityMergeSuggestion.t num)
  : bool :=
  (EntityMergeSuggestion.similarity b <? EntityMergeSuggestion.similarity a)%num.

Definition suggestEntityMerges (similarityThreshold : option num)
           (this : CortexPool num) : list (EntityMergeSuggestion.t num) :=
  let similarityThreshold := or_default (lit 0.8) similarityThreshold in
  let entities := entities (db this) in
  stable_sort by_suggested_similarity_desc
              (suggest_loop similarityThreshold this entities).

Definition getActivationHistory (entityId : Z) (since : option Z)
           (this : CortexPool num) : list (ActivationHistoryEntry.t num) :=
  let since := or_default 0 since in
  filter (fun e => (ActivationHistoryEntry.entityId e =? entityId)
                   && (since <? ActivationHistoryEntry.timestamp e))
         (activationHistory this).
End Queries.

(** *** What the schema declares, and the model does not enforce *)

Section Integrity.
Context {num : Type} `{Number num}.

(* UNIQUE(canonicalName) *)
Definition canonical_names_unique (this : CortexPool num) : Prop :=
  NoDup (map (@Entity.canonicalName num) (entities (db this))).

(* FOREIGN KEY (subjectId) and FOREIGN KEY (objectId) REFERENCES
   entities(id) *)
Definition facts_reference_entities (this : CortexPool num) : Prop :=
  forall f, In f (facts (db this)) ->
    getEntity (Fact.subjectId f) this <> None
    /\ forall o, Fact.objectId f = Some o -> getEntity o this <> None.

(* the two tables in the order of their ids, and the two constraints *)
Definition store_consistent (this : CortexPool num) : Prop :=
  entities_in_id_order this /\ facts_in_id_order this
  /\ canonical_names_unique this /\ facts_reference_entities this.
End Integrity.

(** *** Vocabulary of the further properties *)

Section NormalForms.
Local Open Scope string_scope.

(* trimEnd by recursion from the left: a character is dropped when it is a
   space and nothing is left of what follows it *)
Fixpoint without_trailing_spaces (s : string) : string :=
  match s with
  | EmptyString => EmptyString
  | String c s' =>
      match without_trailing_spaces s' with
      | EmptyString => if is_space c then EmptyString else String c EmptyString
      | r => String c r
      end
  end.

(* the string is empty or begins with a character that is no space *)
Definition first_nonspace (s : string) : bool :=
  match s with
  | EmptyString => true
  | String c _ => negb (is_space c)
  end.

(* the strings trim() leaves as they are *)
Definition trimmed (s : string) : Prop :=
  first_nonspace s = true /\ without_trailing_spaces s = s.

(* whitespace occurs only as single SPACE characters; [after_space] tells
   that the previous character was one *)
Fixpoint single_spaced (after_space : bool) (s : string) : bool :=
  match s with
  | EmptyString => true
  | String c s' =>
      if is_space c
      then Ascii.eqb c " " && negb after_space && single_spaced true s'
      else single_spaced false s'
  end.

(* every cell of a row is at most the larger of its two indices: [i] is the
   row index, [j] the column index of the first cell of [l] *)
Definition cells_bounded (i j : nat) (l : list nat) : Prop :=
  forall k x, nth_error l k = Some x -> (x <= Nat.max i (j + k))%nat.
End NormalForms.

Section Stages.
Context {num : Type} `{Number num}.

(* the two calls of addEntity made by addFact *)
Definition addFact_subject (params : AddFactParams.t num) (this : CortexPool num)
  : Z * CortexPool num :=
  addEntity (AddFactParams.subject params)
            (Some (inferType (AddFactParams.predicate params)))
            (Some (or_default (lit 0.7) (AddFactParams.confidence params))) this.

Definition addFact_object (params : AddFactParams.t num) (this : CortexPool num)
  : option Z * CortexPool num :=
  match AddFactParams.object params with
  | Some o =>
      if Nat.eqb (String.length o) 0 then (None, snd (addFact_subject params this))
      else (Some (fst (addEntity o (Some other)
                                 (Some (or_default (lit 0.7)
                                                   (AddFactParams.confidence params)))
                                 (snd (addFact_subject params this)))),
            snd (addEntity o (Some other)
                           (Some (or_default (lit 0.7)
                                             (AddFactParams.confidence params)))
                           (snd (addFact_subject params this))))
  | None => (None, snd (addFact_subject params this))
  end.

(* the body of the loop of setTopics *)
Definition setTopics_step (now : Z) (this : CortexPool num) (topic : string)
  : CortexPool num :=
  let this :=
    set_db (db_set_topics (upsert_topic topic now (topics_table this))
                          (db this)) this in
  match resolveEntity topic this with
  | Some entity =>
      set_activationLevels
        (map_set (Entity.id entity) (lit 1.0) (activationLevels this)) this
  | None => this
  end.

(* a row of the topics table for [topic], seen at [now] *)
Definition seen_at (now : Z) (topic : string) (table : list (Topic.t num)) : Prop :=
  exists r, In r table /\ Topic.topic r = topic /\ Topic.lastSeen r = now.

(* the entity has an entry in the in-memory history less than an hour
   before [now] *)
Definition recently_active (now entityId : Z) (this : CortexPool num) : bool :=
  negb (Nat.eqb
          (List.length
             (filter (fun e => (ActivationHistoryEntry.entityId e =? entityId)
                               && (now - ActivationHistoryEntry.timestamp e
                                   <? 60 * 60 * 1000))
                     (activationHistory this)))
          0).

(* the level applyActivationDecay leaves for an entity that was not
   recently active: none when the decayed level is below 0.01 *)
Definition decayed_level (activation : num) : option num :=
  let decayed := (activation * (lit 1 - lit 0.05))%num in
  if (decayed <? lit 0.01)%num then None else Some decayed.

(* the body of the loop of applyActivationDecay *)
Definition decay_step (now : Z) (this : CortexPool num) (entry : Z * num)
  : CortexPool num :=
  let (entityId, activation) := entry in
  if recently_active now entityId this then this
  else match decayed_level activation with
       | None => set_activationLevels (map_delete entityId (activationLevels this)) this
       | Some decayed =>
           set_activationLevels (map_set entityId decayed (activationLevels this)) this
       end.

(* the object of a retrieved fact, as retrieve looks it up *)
Definition object_of (fact : Fact.t num) (this : CortexPool num)
  : option (Entity.t num) :=
  match Fact.objectId fact with
  | Some o => if negb (o =? 0) then getEntity o this else None
  | None => None
  end.

(* a retrieved fact with its score, as the scored list holds it *)
Definition scored_of (r : Retrieved.t num) : Fact.t num * num :=
  (Retrieved.fact r, Retrieved.score r).

(* the comparator (a, b) => b.score - a.score of hybridRetrieval *)
Definition by_retrieved_score_desc (a b : Retrieved.t num) : bool :=
  (Retrieved.score b <? Retrieved.score a)%num.




(* [b] differs from [a] at most in the facts table and in the clock *)
Definition facts_only (a b : CortexPool num) : Prop :=
  exists t c, b = set_clock c (on_facts (fun _ => t) a).

(* the statements pruneRedundantEdges runs for one group, on the facts
   table *)
Definition prune_table (t : list (Fact.t num)) (row : Z * string * Z)
  : list (Fact.t num) :=
  let duplicates :=
    stable_sort by_importance_useCount_desc
                (sql_all (same_edge (fst (fst row)) (snd (fst row)) (snd row)) t) in
  filter (fun f => negb (existsb (fun duplicate => Fact.id f =? Fact.id duplicate)
                                 (tl duplicates)))
         t.

(* the facts summarizeOldFacts selects at time [now] *)
Definition old_fact (now : Z) (f : Fact.t num) : bool :=
  MemoryTier_eqb (Fact.tier f) semantic
  && ngtb (Fact.importance f) (lit 0.3)
  && (3 <? Fact.useCount f)
  && (Fact.createdAt f <? now - 90 * 24 * 60 * 60 * 1000).

(* of these, the facts it rewrites *)
Definition summarized (now : Z) (f : Fact.t num) : bool :=
  old_fact now f && negb (String.length (Fact.content f) <? 50)%nat.

(* the summary written for a fact *)
Definition summary_of (f : Fact.t num) : string :=
  ("[Summarized: " ++ take 100 (Fact.content f) ++ "...]")%string.

(* the statement summarizeOldFacts runs for one selected fact, on the facts
   table *)
Definition summarize_row (t : list (Fact.t num)) (fact : Fact.t num)
  : list (Fact.t num) :=
  if (String.length (Fact.content fact) <? 50)%nat then t
  else sql_update (fun f => Fact.id f =? Fact.id fact)
                  (fact_set_content (summary_of fact)) t.

(* every subject of a fact of [t'] is the subject of a fact of [t] *)
Definition subjects_within (t' t : list (Fact.t num)) : Prop :=
  forall f', In f' t' -> exists f, In f t /\ Fact.subjectId f' = Fact.subjectId f.

(* the store as it stands when the consolidation of reflect begins, and as
   the consolidation leaves it *)
Definition before_consolidation `{Exponential num} (this : CortexPool num)
  : CortexPool num :=
  snd (detectContradictions (applyDecay (snd (Date_now this)))).

Definition after_consolidation `{Exponential num} (this : CortexPool num)
  : CortexPool num :=
  consolidateEntities (entities (db (before_consolidation this)))
                      (before_consolidation this).
End Stages.

(** *** Further sample instances *)

(* a store of three facts about William: a semantic fact; an episodic fact
   with a ttl of 5 seconds, created long before the clock's readings; and a
   semantic fact of 56 characters, used 5 times and created long before *)
Definition aged_preference : Fact.t Q :=
  Fact.mk 1 1 "prefers" None "prefers tabs over spaces" semantic
          0.6%Q 0.7%Q "conversation" 1000 0 1000 None.

Definition aged_greeting : Fact.t Q :=
  Fact.mk 2 1 "mentioned" None "said hello" episodic
          0.3%Q 0.7%Q "conversation" 2000 0 2000 (Some 5000).

Definition aged_caregiver : Fact.t Q :=
  Fact.mk 3 1 "caregiver" None
          "William is a caregiver for his mother, who has dementia."
          semantic 0.6%Q 0.9%Q "conversation" 3000 5 3000 None.

Definition aged_facts : list (Fact.t Q) :=
  [aged_preference; aged_greeting; aged_caregiver].

Definition aged : CortexPool Q :=
  mkCortexPool
    (mkDatabase
       [Entity.mk 1 "William" "william" person ["William"%string] 0.7%Q 1000]
       1 aged_facts 3 [] [] [] [] [])
    15 [] [] [] 1000 sample_clock.

(* the seeded store with the topic William set *)
Definition attentive : CortexPool Q := setTopics ["William"%string] seeded.

(* ================================================================== *)
(** * Properties *)

Unset Implicit Arguments.

(** ** The model at work *)

Example normalizeName_collapses :
  normalizeName "  Hello   World "%string = "hello world"%string.
Proof. reflexivity. Qed.

Example levenshtein_kitten_sitting :
  levenshteinDistance "kitten" "sitting" = 3%nat.
Proof. reflexivity. Qed.

Example similarity_of_a_typo :
  Qeq (calculateSimilarity "openlim" "openliam") (7 # 8).
Proof. reflexivity. Qed.

Example JSON_stringify_aliases :
  String.length (JSON_stringify ["William"%string; "Bill"%string]) = 18%nat
  /\ sql_like "%bill%" (JSON_stringify ["William"%string; "Bill"%string]) = true
  /\ sql_like "%w_ll%" (JSON_stringify ["William"%string; "Bill"%string]) = true
  /\ sql_like "%tabs%" (JSON_stringify ["William"%string; "Bill"%string]) = false.
Proof. repeat split; reflexivity. Qed.

Example addEntity_twice :
  map (@Entity.aliases Q)
      (entities (db (snd (addEntity "william" None None
                                    (snd (addEntity "William" None None fresh))))))
  = [["William"%string; "william"%string]].
Proof. reflexivity. Qed.

Example retrieve_seeded :
  option_map (map (fun r : Retrieved.t Q => Fact.id (Retrieved.fact r)))
             (match fst (retrieve ["OpenLiam"%string]
                                  (RetrieveOptions.mk None None) seeded) with
              | Returned results => Some results
              | Thrown _ => None
              end)
  = Some [1].
Proof. vm_compute. reflexivity. Qed.

(** ** Lookups in a table after an UPDATE or a DELETE by id *)

Section Lookup.
Variable Row : Type.
Variable key : Row -> Z.

Abbreviation has_key k := (fun r : Row => key r =? k).

Lemma find_update_same (k : Z) (set : Row -> Row) (t : list Row) :
  (forall r, key (set r) = key r) ->
  sql_get (has_key k) (sql_update (has_key k) set t)
  = option_map set (sql_get (has_key k) t).
Proof.
  intros Hset. unfold sql_get, sql_update.
  induction t as [|r t IH]; simpl; [reflexivity|].
  destruct (key r =? k) eqn:E.
  - rewrite Hset, E. reflexivity.
  - rewrite E. exact IH.
Qed.

Lemma find_update_other (k k' : Z) (set : Row -> Row) (t : list Row) :
  (forall r, key (set r) = key r) -> k <> k' ->
  sql_get (has_key k) (sql_update (has_key k') set t) = sql_get (has_key k) t.
Proof.
  intros Hset Hne. unfold sql_get, sql_update.
  induction t as [|r t IH]; simpl; [reflexivity|].
  destruct (key r =? k') eqn:E'.
  - rewrite Hset. apply Z.eqb_eq in E'.
    assert ((key r =? k) = false) as -> by (apply Z.eqb_neq; congruence).
    exact IH.
  - destruct (key r =? k); [reflexivity | exact IH].
Qed.


Lemma find_delete_other (k k' : Z) (t : list Row) :
  k <> k' ->
  sql_get (has_key k) (sql_delete (has_key k') t) = sql_get (has_key k) t.
Proof.
  intros Hne. unfold sql_get, sql_delete.
  induction t as [|r t IH]; simpl; [reflexivity|].
  destruct (key r =? k') eqn:E'; simpl.
  - apply Z.eqb_eq in E'.
    assert ((key r =? k) = false) as -> by (apply Z.eqb_neq; congruence).
    exact IH.
  - destruct (key r =? k); [reflexivity | exact IH].
Qed.

Lemma find_absent (k : Z) (t : list Row) :
  ~ In k (map key t) -> sql_get (has_key k) t = None.
Proof.
  unfold sql_get. induction t as [|r t IH]; simpl; intros Hn; [reflexivity|].
  destruct (key r =? k) eqn:E.
  - apply Z.eqb_eq in E. tauto.
  - apply IH. tauto.
Qed.

Lemma find_present (k : Z) (r : Row) (t : list Row) :
  sql_get (has_key k) t = Some r -> In r t /\ key r = k.
Proof.
  unfold sql_get. intros Hf. apply find_some in Hf.
  destruct Hf as [Hin Hk]. apply Z.eqb_eq in Hk. tauto.
Qed.

(* in a table without repeated keys, a row is what its key finds *)
Lemma find_unique (r : Row) (t : list Row) :
  NoDup (map key t) -> In r t -> sql_get (has_key (key r)) t = Some r.
Proof.
  unfold sql_get. induction t as [|x t IH]; simpl; intros Hnd Hin; [tauto|].
  inversion Hnd as [|? ? Hx Hnd']; subst.
  destruct Hin as [->|Hin].
  - rewrite Z.eqb_refl. reflexivity.
  - destruct (key x =? key r) eqn:E.
    + apply Z.eqb_eq in E. exfalso. apply Hx. rewrite E. now apply in_map.
    + now apply IH.
Qed.

Lemma next_rowid_fresh (seq : Z) (ids : list Z) :
  forall i, In i ids -> i < next_rowid seq ids.
Proof.
  unfold next_rowid. induction ids as [|j ids IH]; simpl; intros i Hin; [tauto|].
  destruct Hin as [->|Hin]; [lia|]. specialize (IH i Hin). lia.
Qed.

(* the row an INSERT appends under a fresh rowid is the one that rowid finds *)
Lemma find_inserted (seq : Z) (r : Row) (t : list Row) :
  key r = next_rowid seq (map key t) ->
  sql_get (has_key (key r)) (sql_insert r t) = Some r.
Proof.
  intros Hk. unfold sql_get, sql_insert.
  assert (Hfresh : ~ In (key r) (map key t)).
  { intros Hin. apply (next_rowid_fresh seq) in Hin. lia. }
  clear Hk. induction t as [|x t IH]; simpl.
  - now rewrite Z.eqb_refl.
  - simpl in Hfresh. destruct (key x =? key r) eqn:E.
    + apply Z.eqb_eq in E. tauto.
    + apply IH. tauto.
Qed.
End Lookup.

(** ** Usage tracking and facts with a TTL *)

Section FactStore.
Context {num : Type} `{Number num}.

Lemma getFact_absent (factId : Z) (this : CortexPool num) :
  ~ In factId (map (@Fact.id num) (facts (db this))) ->
  getFact factId this = None.
Proof. intros Hn. unfold getFact. now apply find_absent. Qed.

(** What [addFact] stores: the new row is the one its returned id finds, and
    its tier and ttl are derived from the parameters as the code writes. *)
Lemma addFact_stored (params : AddFactParams.t num) (this : CortexPool num) :
  exists fact,
    getFact (fst (addFact params this)) (snd (addFact params this)) = Some fact
    /\ Fact.content fact = AddFactParams.content params
    /\ Fact.tier fact = or_default semantic (AddFactParams.tier params)
    /\ Fact.ttl fact =
       (let effectiveTtl :=
          if MemoryTier_eqb (or_default semantic (AddFactParams.tier params)) episodic
             && negb (truthy (AddFactParams.ttl params))
          then Some SEVEN_DAYS else AddFactParams.ttl params in
        if truthy effectiveTtl then effectiveTtl else None).
Proof.
  unfold addFact.
  destruct (addEntity _ _ _ this) as [subjectId this1].
  match goal with
  | |- context [let (objectId, this) := ?e in _] => destruct e as [objectId this2]
  end.
  unfold Date_now; simpl.
  eexists. split; [|split; [|split]].
  - unfold getFact; simpl.
    match goal with
    | |- sql_get _ (sql_insert ?r ?t) = _ =>
        apply (find_inserted _ (@Fact.id num) (facts_seq (db this2)) r t)
    end.
    reflexivity.
  - reflexivity.
  - reflexivity.
  - reflexivity.
Qed.
End FactStore.

(** C10.  [useFact] with the id of no stored fact returns (the model of
    [useFact] has no way to throw) and leaves the whole instance, hence
    every entity and every fact, as it was. *)
Theorem useFact_unknown_id_noop
        (num : Type) (N : Number num) (factId : Z) (this : CortexPool num) :
  ~ In factId (map (@Fact.id num) (facts (db this))) ->
  useFact factId this = this
  /\ entities (db (useFact factId this)) = entities (db this)
  /\ facts (db (useFact factId this)) = facts (db this).
Proof.
  intros Hn. unfold useFact. rewrite (getFact_absent _ _ Hn). auto.
Qed.

(** C6 (as amended).  With tier episodic, the fact [addFact] stores has ttl
    604800000 when no ttl is supplied, and the supplied ttl when one other
    than 0 is supplied. *)
Theorem addFact_episodic_ttl
        (num : Type) (N : Number num)
        (params : AddFactParams.t num) (this : CortexPool num) :
  AddFactParams.tier params = Some episodic ->
  exists fact,
    getFact (fst (addFact params this)) (snd (addFact params this)) = Some fact
    /\ (AddFactParams.ttl params = None -> Fact.ttl fact = Some 604800000)
    /\ (forall ttl, AddFactParams.ttl params = Some ttl -> ttl <> 0 ->
                    Fact.ttl fact = Some ttl).
Proof.
  intros Htier.
  destruct (addFact_stored params this) as (fact & Hget & _ & _ & Httl).
  exists fact. split; [exact Hget|].
  rewrite Htier in Httl. simpl in Httl. split.
  - intros Hnone. rewrite Hnone in Httl. exact Httl.
  - intros ttl Hsome Hnz. rewrite Hsome in Httl. simpl in Httl.
    apply Z.eqb_neq in Hnz. rewrite Hnz in Httl. simpl in Httl.
    rewrite Hnz in Httl. exact Httl.
Qed.

(** C9 (as amended).  An explicit ttl of 0 is taken as not supplied: with
    tier episodic the stored ttl is the 7-day default, and with any other
    tier (semantic, structural, or none given) it is null. *)
Theorem addFact_ttl_zero
        (num : Type) (N : Number num)
        (params : AddFactParams.t num) (this : CortexPool num) :
  AddFactParams.ttl params = Some 0 ->
  exists fact,
    getFact (fst (addFact params this)) (snd (addFact params this)) = Some fact
    /\ (AddFactParams.tier params = Some episodic ->
        Fact.ttl fact = Some 604800000)
    /\ (AddFactParams.tier params <> Some episodic -> Fact.ttl fact = None).
Proof.
  intros Hzero.
  destruct (addFact_stored params this) as (fact & Hget & _ & _ & Httl).
  exists fact. split; [exact Hget|].
  rewrite Hzero in Httl. simpl in Httl. split.
  - intros Htier. rewrite Htier in Httl. exact Httl.
  - intros Htier.
    destruct (AddFactParams.tier params) as [[| |]|]; simpl in Httl;
      try exact Httl.
    congruence.
Qed.

Lemma useFact_unknown_id_noop_witness :
  useFact 7 seeded = seeded
  /\ entities (db (useFact 7 seeded)) = entities (db seeded)
  /\ facts (db (useFact 7 seeded)) = facts (db seeded).
Proof.
  apply (@useFact_unknown_id_noop Q Number_Q 7 seeded).
  vm_compute. intuition discriminate.
Defined.

Lemma addFact_episodic_ttl_witness :
  exists fact,
    getFact (fst (addFact (sample_params "William" "mentioned" None "hello"
                                         (Some episodic) (Some 5000)) fresh))
            (snd (addFact (sample_params "William" "mentioned" None "hello"
                                         (Some episodic) (Some 5000)) fresh))
    = Some fact
    /\ Fact.ttl fact = Some 5000.
Proof.
  destruct (@addFact_episodic_ttl Q Number_Q
              (sample_params "William" "mentioned" None "hello"
                             (Some episodic) (Some 5000)) fresh eq_refl)
    as (fact & Hget & _ & Hsome).
  exists fact. split; [exact Hget|].
  apply Hsome; [reflexivity | discriminate].
Defined.

(** C6, the claim as stated fails: an explicit ttl of 0 is supplied with
    tier episodic, and the stored ttl is 604800000, not the supplied 0. *)
Lemma addFact_explicit_zero_ttl_not_stored :
  exists fact,
    getFact (fst (addFact zero_ttl_params fresh))
            (snd (addFact zero_ttl_params fresh)) = Some fact
    /\ AddFactParams.ttl zero_ttl_params = Some 0
    /\ Fact.ttl fact = Some 604800000
    /\ Fact.ttl fact <> AddFactParams.ttl zero_ttl_params.
Proof.
  eexists. split; [vm_compute; reflexivity|].
  split; [reflexivity|]. split; [reflexivity|]. discriminate.
Qed.

Lemma addFact_ttl_zero_witness :
  exists fact,
    getFact (fst (addFact zero_ttl_params fresh))
            (snd (addFact zero_ttl_params fresh)) = Some fact
    /\ Fact.ttl fact = Some 604800000.
Proof.
  destruct (@addFact_ttl_zero Q Number_Q zero_ttl_params fresh eq_refl)
    as (fact & Hget & Hep & _).
  exists fact. split; [exact Hget|]. apply Hep. reflexivity.
Defined.

(** C9, the claim as stated fails: it says that for any tier an explicit ttl
    of 0 is stored as null, and with tier episodic the stored ttl is not
    null. *)
Lemma addFact_zero_ttl_episodic_not_null :
  exists fact,
    getFact (fst (addFact zero_ttl_params fresh))
            (snd (addFact zero_ttl_params fresh)) = Some fact
    /\ AddFactParams.tier zero_ttl_params = Some episodic
    /\ AddFactParams.ttl zero_ttl_params = Some 0
    /\ Fact.ttl fact <> None.
Proof.
  eexists. split; [vm_compute; reflexivity|].
  split; [reflexivity|]. split; [reflexivity|]. discriminate.
Qed.

(** ** Contradiction detection *)

Section Contradictions.
Context {num : Type} `{Number num}.

Lemma insert_contradictions_fold (now : Z) (rows : list FactPair.t) :
  forall this : CortexPool num,
    fold_left
      (fun this row =>
         if differing row
         then set_db (db_set_contradictions
                        (sql_insert
                           (Contradiction.mk (FactPair.f1id row) (FactPair.f2id row) now)
                           (contradictions (db this)))
                        (db this)) this
         else this)
      rows this
    = set_db (db_set_contradictions
                (contradictions (db this)
                 ++ map (fun row => Contradiction.mk (FactPair.f1id row)
                                                     (FactPair.f2id row) now)
                        (filter differing rows))
                (db this)) this.
Proof.
  induction rows as [|row rows IH]; intros this; simpl.
  - destruct this as [[] ? ? ? ? ? ?]; simpl. now rewrite app_nil_r.
  - rewrite IH.
    destruct (differing row); simpl; [|reflexivity].
    unfold sql_insert, set_db, db_set_contradictions; simpl.
    now rewrite <- app_assoc.
Qed.

(** What one run of [detectContradictions] does: it returns the number of
    candidate pairs, appends one row for each candidate pair whose contents
    differ, and leaves the facts and the entities alone. *)
Lemma detectContradictions_effect (this : CortexPool num) :
  let rows := contradiction_candidates (facts (db this)) in
  let now := reading (clock this) (elapsed (clock this)) in
  fst (detectContradictions this) = Z.of_nat (List.length rows)
  /\ contradictions (db (snd (detectContradictions this)))
     = contradictions (db this)
       ++ map (fun row => Contradiction.mk (FactPair.f1id row) (FactPair.f2id row) now)
              (filter differing rows)
  /\ facts (db (snd (detectContradictions this))) = facts (db this)
  /\ entities (db (snd (detectContradictions this))) = entities (db this).
Proof.
  unfold detectContradictions, Date_now. simpl.
  rewrite insert_contradictions_fold. simpl. auto.
Qed.

(** The candidate pairs are the ordered pairs of facts that share subject
    and predicate. *)
Lemma contradiction_candidates_In (facts : list (Fact.t num)) (row : FactPair.t) :
  In row (contradiction_candidates facts) <->
  exists f1 f2,
    In f1 facts /\ In f2 facts
    /\ Fact.subjectId f1 = Fact.subjectId f2
    /\ Fact.predicate f1 = Fact.predicate f2
    /\ Fact.id f1 < Fact.id f2
    /\ row = FactPair.mk (Fact.id f1) (Fact.content f1)
                         (Fact.id f2) (Fact.content f2).
Proof.
  unfold contradiction_candidates. rewrite in_flat_map. split.
  - intros (f1 & Hf1 & Hin). rewrite in_flat_map in Hin.
    destruct Hin as (f2 & Hf2 & Hin). unfold candidate_pair in Hin.
    destruct (Fact.subjectId f1 =? Fact.subjectId f2) eqn:Es; simpl in Hin; [|tauto].
    destruct (String.eqb (Fact.predicate f1) (Fact.predicate f2)) eqn:Ep;
      simpl in Hin; [|tauto].
    destruct (Fact.id f1 <? Fact.id f2) eqn:Ei; simpl in Hin; [|tauto].
    destruct Hin as [<-|[]].
    exists f1, f2. apply Z.eqb_eq in Es. apply String.eqb_eq in Ep.
    apply Z.ltb_lt in Ei. tauto.
  - intros (f1 & f2 & Hf1 & Hf2 & Es & Ep & Ei & ->).
    exists f1. split; [exact Hf1|]. rewrite in_flat_map.
    exists f2. split; [exact Hf2|]. unfold candidate_pair.
    apply Z.eqb_eq in Es. apply String.eqb_eq in Ep. apply Z.ltb_lt in Ei.
    rewrite Es, Ep, Ei. simpl. auto.
Qed.

Lemma candidate_pair_ids (f1 : Fact.t num) (l : list (Fact.t num)) :
  NoDup (map (@Fact.id num) l) ->
  NoDup (map id_pair (flat_map (candidate_pair f1) l))
  /\ forall p, In p (map id_pair (flat_map (candidate_pair f1) l)) ->
               fst p = Fact.id f1 /\ In (snd p) (map (@Fact.id num) l).
Proof.
  induction l as [|f2 l IH]; simpl; intros Hl.
  - split; [constructor | tauto].
  - inversion Hl as [|? ? Hx Hl']; subst. destruct (IH Hl') as [IH1 IH2].
    unfold candidate_pair at 1 3.
    destruct ((Fact.subjectId f1 =? Fact.subjectId f2)
              && String.eqb (Fact.predicate f1) (Fact.predicate f2)
              && (Fact.id f1 <? Fact.id f2)); simpl.
    + split.
      * constructor; [|exact IH1]. intros Hin. apply IH2 in Hin. simpl in Hin. tauto.
      * intros p [<-|Hin]; simpl; [tauto|]. apply IH2 in Hin. tauto.
    + split; [exact IH1|]. intros p Hin. apply IH2 in Hin. tauto.
Qed.

Lemma candidate_rows_ids (all l : list (Fact.t num)) :
  NoDup (map (@Fact.id num) all) -> NoDup (map (@Fact.id num) l) ->
  NoDup (map id_pair (flat_map (fun f1 => flat_map (candidate_pair f1) all) l))
  /\ forall p,
      In p (map id_pair (flat_map (fun f1 => flat_map (candidate_pair f1) all) l)) ->
      In (fst p) (map (@Fact.id num) l).
Proof.
  intros Hall. induction l as [|f1 l IH]; simpl; intros Hl.
  - split; [constructor | tauto].
  - inversion Hl as [|? ? Hx Hl']; subst. destruct (IH Hl') as [IH1 IH2].
    destruct (candidate_pair_ids f1 all Hall) as [I1 I2].
    rewrite map_app. split.
    + apply NoDup_app; [exact I1 | exact IH1 |].
      intros p Hp1 Hp2. apply I2 in Hp1. apply IH2 in Hp2.
      destruct Hp1 as [Hp1 _]. rewrite Hp1 in Hp2. exact (Hx Hp2).
    + intros p Hin. apply in_app_or in Hin. destruct Hin as [Hin|Hin].
      * apply I2 in Hin. left. symmetry. tauto.
      * apply IH2 in Hin. right. exact Hin.
Qed.

(** With unique fact ids, no ordered pair of ids occurs twice among the
    candidate pairs: each pair gets at most one row. *)
Lemma contradiction_candidates_NoDup (facts : list (Fact.t num)) :
  NoDup (map (@Fact.id num) facts) ->
  NoDup (map id_pair (contradiction_candidates facts)).
Proof.
  intros Hnd. now apply candidate_rows_ids.
Qed.
End Contradictions.

(** ** Evaluating the model over the reals *)

Lemma Rltb_true (a b : R) : (a < b)%R -> Rltb a b = true.
Proof. intros Hlt. unfold Rltb. destruct (Rlt_dec a b); tauto. Qed.

Lemma Rltb_false (a b : R) : (~ a < b)%R -> Rltb a b = false.
Proof. intros Hge. unfold Rltb. destruct (Rlt_dec a b); tauto. Qed.

Ltac rsolve := unfold Math_exp, Exponential_R, Q2R; simpl; lra.
Ltac rstep :=
  match goal with
  | |- context [Rltb ?a ?b] =>
      first [ rewrite (Rltb_true a b) by rsolve
            | rewrite (Rltb_false a b) by rsolve ]
  end.
Ltac reval :=
  repeat (cbn -[Rltb Q2R exp Rplus Rminus Rmult Rdiv IZR Math_exp];
          unfold Math_max, Math_min; try rstep).

(** ** Duplicate-entity consolidation *)

Section Consolidation.
Context {num : Type} `{Number num}.

Lemma objectId_sql_update_subjectId (p : Fact.t num -> bool) (v : Z)
      (t : list (Fact.t num)) :
  map (@Fact.objectId num) (sql_update p (fact_set_subjectId v) t)
  = map (@Fact.objectId num) t.
Proof.
  unfold sql_update. rewrite map_map. apply map_ext.
  intros f. now destruct (p f).
Qed.

Lemma consolidate_entity_keeps_objectIds
      (acc : list (string * Entity.t num) * CortexPool num) (entity : Entity.t num) :
  map (@Fact.objectId num) (facts (db (snd (consolidate_entity acc entity))))
  = map (@Fact.objectId num) (facts (db (snd acc))).
Proof.
  destruct acc as [canonicalMap this]. unfold consolidate_entity.
  destruct (find _ canonicalMap) as [[k existing]|]; simpl; [|reflexivity].
  apply objectId_sql_update_subjectId.
Qed.

(** The consolidation loop never rewrites the objectId of a fact, whatever
    the entities are. *)
Lemma consolidateEntities_keeps_objectIds
      (entities : list (Entity.t num)) (this : CortexPool num) :
  map (@Fact.objectId num) (facts (db (consolidateEntities entities this)))
  = map (@Fact.objectId num) (facts (db this)).
Proof.
  unfold consolidateEntities.
  change this with (snd (@nil (string * Entity.t num), this)) at 2.
  generalize (@nil (string * Entity.t num), this).
  induction entities as [|entity entities IH]; intros acc; simpl; [reflexivity|].
  rewrite IH. apply consolidate_entity_keeps_objectIds.
Qed.
End Consolidation.


(** ** Time decay *)

Section Decay.
Context {num : Type} `{Number num} `{Exponential num}.

Lemma decay_fold_facts (now : Z) (l : list (Fact.t num)) :
  forall s : CortexPool num,
    facts (db (fold_left
                 (fun this fact =>
                    let newImportance := decayed_importance now fact in
                    if (newImportance <? lit 0.1)%num
                    then on_facts (sql_delete (fun f => Fact.id f =? Fact.id fact)) this
                    else on_facts (sql_update (fun f => Fact.id f =? Fact.id fact)
                                              (fact_set_importance newImportance)) this)
                 l s))
    = fold_left (decay_row now) l (facts (db s)).
Proof.
  induction l as [|fact l IH]; intros s; simpl; [reflexivity|].
  rewrite IH. f_equal. unfold decay_row.
  destruct (decayed_importance now fact <? lit 0.1)%num; reflexivity.
Qed.

Lemma applyDecay_facts (this : CortexPool num) :
  facts (db (applyDecay this))
  = fold_left (decay_row (reading (clock this) (elapsed (clock this))))
              (facts (db this)) (facts (db this)).
Proof.
  unfold applyDecay, Date_now. simpl. now rewrite decay_fold_facts.
Qed.



End Decay.








(** ** Tables in the order of their keys *)

Section SortedByKey.
Variable Row : Type.
Variable key : Row -> Z.

Abbreviation key_lt := (fun a b : Row => key a < key b).

Lemma sorted_filter (p : Row -> bool) (l : list Row) :
  StronglySorted key_lt l -> StronglySorted key_lt (filter p l).
Proof.
  induction 1 as [|a l Hs IH Hall]; simpl; [constructor|].
  destruct (p a); [|exact IH].
  constructor; [exact IH|].
  rewrite Forall_forall in *. intros x Hx. apply filter_In in Hx. apply Hall. tauto.
Qed.

Lemma sorted_NoDup (l : list Row) :
  StronglySorted key_lt l -> NoDup (map key l).
Proof.
  induction 1 as [|a l Hs IH Hall]; simpl; constructor; [|exact IH].
  intros Hin. apply in_map_iff in Hin. destruct Hin as (x & Hk & Hx).
  rewrite Forall_forall in Hall. specialize (Hall x Hx). simpl in Hall. lia.
Qed.

Lemma sorted_after (l1 l3 : list Row) (y : Row) :
  StronglySorted key_lt (l1 ++ y :: l3) -> forall c, In c l3 -> key y < key c.
Proof.
  induction l1 as [|a l1 IH]; simpl; intros Hs c Hc.
  - apply StronglySorted_inv in Hs. destruct Hs as [_ Hall].
    rewrite Forall_forall in Hall. now apply Hall.
  - apply StronglySorted_inv in Hs. destruct Hs as [Hs _]. now apply IH.
Qed.

End SortedByKey.

(** ** Similar-fact merging *)

Section Merging.
Context {num : Type} `{Number num}.

Local Abbreviation get k t := (sql_get (fun f : Fact.t num => Fact.id f =? k) t).

Lemma merge_pair_facts (f1 f2 : Fact.t num) (acc : Z * CortexPool num) :
  facts (db (snd (merge_pair f1 acc f2)))
  = merge_row f1 (facts (db (snd acc))) f2.
Proof.
  destruct acc as [n this]. unfold merge_pair, merge_row, similar.
  destruct (Fact.subjectId f1 =? Fact.subjectId f2); simpl; [|reflexivity].
  destruct (String.eqb (Fact.predicate f1) (Fact.predicate f2)); simpl;
    [|reflexivity].
  destruct (ngtb (calculateSimilarity (Fact.content f1) (Fact.content f2)) (lit 0.85));
    reflexivity.
Qed.

Lemma merge_fold_facts (f1 : Fact.t num) (rest : list (Fact.t num)) :
  forall acc : Z * CortexPool num,
    facts (db (snd (fold_left (merge_pair f1) rest acc)))
    = fold_left (merge_row f1) rest (facts (db (snd acc))).
Proof.
  induction rest as [|f2 rest IH]; intros acc; simpl; [reflexivity|].
  rewrite IH, merge_pair_facts. reflexivity.
Qed.

Lemma merge_loop_facts (l : list (Fact.t num)) :
  forall acc : Z * CortexPool num,
    facts (db (snd (merge_loop l acc))) = merge_rows l (facts (db (snd acc))).
Proof.
  induction l as [|f1 rest IH]; intros acc; simpl; [reflexivity|].
  rewrite IH, merge_fold_facts. reflexivity.
Qed.

Lemma mergeSimilarFacts_facts (this : CortexPool num) :
  facts (db (snd (mergeSimilarFacts this)))
  = merge_rows (sql_all (fun f => MemoryTier_eqb (Fact.tier f) semantic)
                        (facts (db this)))
               (facts (db this)).
Proof. unfold mergeSimilarFacts. now rewrite merge_loop_facts. Qed.

(** *** One pair, seen through the lookups by id *)



Lemma merge_row_frame (k : Z) (f1 f2 : Fact.t num) (t : list (Fact.t num)) :
  k <> Fact.id f1 -> (similar f1 f2 = true -> k <> Fact.id f2) ->
  get k (merge_row f1 t f2) = get k t.
Proof.
  intros Hne1 Hne2. unfold merge_row. destruct (similar f1 f2); [|reflexivity].
  rewrite (find_delete_other _ (@Fact.id num)) by auto.
  apply (find_update_other _ (@Fact.id num)); [reflexivity | exact Hne1].
Qed.


(** *** The loops *)



Lemma merge_fold_frame (k : Z) (f1 : Fact.t num) (l : list (Fact.t num)) :
  k <> Fact.id f1 ->
  (forall b, In b l -> similar f1 b = true -> k <> Fact.id b) ->
  forall t, get k (fold_left (merge_row f1) l t) = get k t.
Proof.
  intros Hne1. induction l as [|b l IH]; intros Hl t; simpl; [reflexivity|].
  rewrite IH by (intros; apply Hl; simpl; auto).
  apply merge_row_frame; [exact Hne1|]. apply Hl. simpl. auto.
Qed.

Lemma merge_rows_frame (k : Z) (l : list (Fact.t num)) :
  ~ In k (map (@Fact.id num) l) ->
  forall t, get k (merge_rows l t) = get k t.
Proof.
  induction l as [|c l IH]; intros Hk t; simpl; [reflexivity|].
  simpl in Hk. rewrite IH by tauto.
  apply merge_fold_frame; [intros ->; tauto|].
  intros b Hb _ ->. apply Hk. right. now apply in_map.
Qed.




End Merging.




(** ** The stable sort *)

Section SortFacts.
Variable A : Type.
Variable before : A -> A -> bool.
Hypothesis before_asym : forall a b, before a b = true -> before b a = false.
Hypothesis before_negtrans :
  forall a b c, before a b = false -> before b c = false -> before a c = false.

Lemma before_irrefl (a : A) : before a a = false.
Proof.
  destruct (before a a) eqn:E; [|reflexivity].
  pose proof (before_asym a a E). congruence.
Qed.

Lemma sort_insert_perm (x : A) (l : list A) :
  Permutation (sort_insert before x l) (x :: l).
Proof.
  induction l as [|y l IH]; simpl; [reflexivity|].
  destruct (before y x); [|reflexivity].
  rewrite IH. apply perm_swap.
Qed.

Lemma stable_sort_perm (l : list A) : Permutation (stable_sort before l) l.
Proof.
  induction l as [|x l IH]; simpl; [reflexivity|].
  rewrite sort_insert_perm. now constructor.
Qed.

Lemma stable_sort_length (l : list A) :
  List.length (stable_sort before l) = List.length l.
Proof. apply Permutation_length, stable_sort_perm. Qed.

(* descending order: no element is strictly before one that precedes it *)
Abbreviation not_after := (fun a b : A => before b a = false).

Lemma sort_insert_sorted (x : A) (l : list A) :
  StronglySorted not_after l -> StronglySorted not_after (sort_insert before x l).
Proof.
  induction 1 as [|y l Hs IH Hall]; simpl.
  - repeat constructor.
  - destruct (before y x) eqn:E.
    + constructor; [exact IH|].
      rewrite Forall_forall in *. intros z Hz.
      apply (Permutation_in _ (sort_insert_perm x l)) in Hz.
      destruct Hz as [<-|Hz]; [now apply before_asym | now apply Hall].
    + constructor; [now constructor|].
      constructor; [exact E|].
      rewrite Forall_forall in *. intros z Hz.
      apply (before_negtrans z y x); [now apply Hall | exact E].
Qed.

Lemma stable_sort_sorted (l : list A) :
  StronglySorted not_after (stable_sort before l).
Proof.
  induction l as [|x l IH]; simpl; [constructor|].
  now apply sort_insert_sorted.
Qed.

(** The first element of the sorted list: nothing is strictly before it,
    and it is strictly before everything that precedes it in the list that
    was sorted. *)
Lemma stable_sort_head (l : list A) (x : A) (rest : list A) :
  stable_sort before l = x :: rest ->
  (forall y, In y l -> before y x = false)
  /\ exists l1 l2, l = l1 ++ x :: l2 /\ forall y, In y l1 -> before x y = true.
Proof.
  revert x rest. induction l as [|a l IH]; intros x rest Hsort; simpl in Hsort.
  - discriminate.
  - destruct (stable_sort before l) as [|y s] eqn:Es.
    + simpl in Hsort. injection Hsort as <- <-.
      assert (l = []) as ->.
      { pose proof (stable_sort_length l) as Hlen. rewrite Es in Hlen.
        destruct l; [reflexivity | discriminate]. }
      split.
      * intros y [<-|[]]. apply before_irrefl.
      * exists [], []. split; [reflexivity | intros ? []].
    + destruct (IH y s eq_refl) as (Hmax & l1 & l2 & -> & Hfirst).
      simpl in Hsort. destruct (before y a) eqn:E.
      * injection Hsort as <- <-. split.
        -- intros z [<-|Hz]; [now apply before_asym | now apply Hmax].
        -- exists (a :: l1), l2. split; [reflexivity|].
           intros z [<-|Hz]; [exact E | now apply Hfirst].
      * injection Hsort as <- <-. split.
        -- intros z [<-|Hz]; [apply before_irrefl|].
           apply (before_negtrans z y a); [now apply Hmax | exact E].
        -- exists [], (l1 ++ y :: l2). split; [reflexivity | intros ? []].
Qed.
End SortFacts.

(** The rationals and the reals are ordered as sorting needs. *)
Lemma NumberOrder_Q : @NumberOrder Q Number_Q.
Proof.
  split; simpl.
  - intros a b Hab. apply negb_true_iff in Hab. apply negb_false_iff.
    apply Qle_bool_iff.
    destruct (Qlt_le_dec a b) as [Hlt|Hle].
    + now apply Qlt_le_weak.
    + apply Qle_bool_iff in Hle. congruence.
  - intros a b c Hab Hbc.
    apply negb_false_iff in Hab. apply negb_false_iff in Hbc.
    apply negb_false_iff. apply Qle_bool_iff.
    apply Qle_bool_iff in Hab. apply Qle_bool_iff in Hbc.
    now apply (Qle_trans _ b).
Qed.

Lemma NumberOrder_R : @NumberOrder R Number_R.
Proof.
  split; simpl; unfold Rltb.
  - intros a b. destruct (Rlt_dec a b), (Rlt_dec b a); try reflexivity; try discriminate.
    lra.
  - intros a b c.
    destruct (Rlt_dec a b), (Rlt_dec b c), (Rlt_dec a c);
      try reflexivity; try discriminate. lra.
Qed.

(** ** Entity resolution *)

Section FirstMatch.
Variable Row : Type.
Variable key : Row -> Z.

(* in a table in key order, .get() returns the matching row of least key *)
Lemma sql_get_first (p : Row -> bool) (l : list Row) (x : Row) :
  StronglySorted (fun a b => key a < key b) l ->
  sql_get p l = Some x ->
  In x l /\ p x = true /\ forall y, In y l -> key y < key x -> p y = false.
Proof.
  unfold sql_get. induction 1 as [|a l Hs IH Hall]; simpl; [discriminate|].
  rewrite Forall_forall in Hall.
  destruct (p a) eqn:E.
  - intros [= <-]. split; [now left|]. split; [exact E|].
    intros y [<-|Hy] Hlt; [lia|]. specialize (Hall y Hy). simpl in Hall. lia.
  - intros Hf. destruct (IH Hf) as (Hin & Hp & Hmin).
    split; [now right|]. split; [exact Hp|].
    intros y [<-|Hy] Hlt; [exact E | now apply Hmin].
Qed.

Lemma sql_get_none (p : Row -> bool) (l : list Row) :
  sql_get p l = None -> forall y, In y l -> p y = false.
Proof. unfold sql_get. intros Hf y Hy. now apply (find_none p l Hf). Qed.
End FirstMatch.

Section Resolution.
Context {num : Type} `{Number num} {O : NumberOrder (num := num)}.

Lemma by_similarity_desc_asym (a b : Entity.t num * num) :
  by_similarity_desc a b = true -> by_similarity_desc b a = false.
Proof. unfold by_similarity_desc. apply nltb_asym. Qed.

Lemma by_similarity_desc_negtrans (a b c : Entity.t num * num) :
  by_similarity_desc a b = false -> by_similarity_desc b c = false ->
  by_similarity_desc a c = false.
Proof.
  unfold by_similarity_desc. intros Hab Hbc.
  now apply (nltb_negtrans (snd c) (snd b) (snd a)).
Qed.

Lemma fuzzy_candidates_filter (q : string) (threshold : num)
      (es : list (Entity.t num)) :
  flat_map
    (fun entity =>
       if ngeb (maxSimilarity q entity) threshold
       then [(entity, maxSimilarity q entity)] else [])
    es
  = map (with_similarity q)
        (filter (fun e => ngeb (maxSimilarity q e) threshold) es).
Proof.
  induction es as [|e es IH]; simpl; [reflexivity|].
  destruct (ngeb (maxSimilarity q e) threshold); simpl; now rewrite IH.
Qed.

Lemma with_similarity_sorted (q : string) (es : list (Entity.t num)) :
  StronglySorted (fun a b => Entity.id a < Entity.id b) es ->
  StronglySorted (fun a b : Entity.t num * num =>
                    Entity.id (fst a) < Entity.id (fst b))
                 (map (with_similarity q) es).
Proof.
  induction 1 as [|e es Hs IH Hall]; simpl; constructor; [exact IH|].
  rewrite Forall_forall in *. intros z Hz. apply in_map_iff in Hz.
  destruct Hz as (e' & <- & He'). simpl. now apply Hall.
Qed.

(** The first fuzzy match: an entity at or above the threshold, with no
    candidate more similar to the query, and more similar than every
    candidate of lower id. *)
Lemma findFuzzyMatches_first (query : string) (threshold : num)
      (this : CortexPool num) (first : Entity.t num) (others : list (Entity.t num)) :
  entities_in_id_order this ->
  findFuzzyMatches query (Some threshold) this = first :: others ->
  let sim := maxSimilarity (normalizeName query) in
  In first (entities (db this))
  /\ ngeb (sim first) threshold = true
  /\ (forall e, In e (entities (db this)) -> ngeb (sim e) threshold = true ->
                (sim first <? sim e)%num = false)
  /\ (forall e, In e (entities (db this)) -> ngeb (sim e) threshold = true ->
                Entity.id e < Entity.id first -> (sim e <? sim first)%num = true).
Proof.
  intros Hsorted. unfold findFuzzyMatches. simpl or_default. cbv zeta.
  rewrite fuzzy_candidates_filter.
  set (q := normalizeName query).
  set (cands := filter (fun e => ngeb (maxSimilarity q e) threshold)
                       (entities (db this))).
  destruct (stable_sort by_similarity_desc (map (with_similarity q) cands))
    as [|[e s] rest] eqn:Hsort; simpl; [discriminate|].
  intros [= <- <-].
  destruct (stable_sort_head _ _ by_similarity_desc_asym by_similarity_desc_negtrans
                             _ _ _ Hsort)
    as (Hmax & m1 & m2 & Hsplit & Hfirst).
  assert (Hcand : forall e', In e' (entities (db this)) ->
                             ngeb (maxSimilarity q e') threshold = true ->
                             In (with_similarity q e') (map (with_similarity q) cands)).
  { intros e' He' Hf. apply in_map. apply filter_In. tauto. }
  assert (Hhead : In (e, s) (map (with_similarity q) cands)).
  { rewrite Hsplit. apply in_or_app. right. now left. }
  apply in_map_iff in Hhead. destruct Hhead as (e0 & [= -> <-] & He0).
  apply filter_In in He0. destruct He0 as [Hin Hfuzzy].
  split; [exact Hin|]. split; [exact Hfuzzy|]. split.
  - intros e' He' Hf. apply (Hmax _ (Hcand e' He' Hf)).
  - intros e' He' Hf Hlt.
    pose proof (Hcand e' He' Hf) as Hpos. rewrite Hsplit in Hpos.
    assert (Hids : StronglySorted
                     (fun a b : Entity.t num * num =>
                        Entity.id (fst a) < Entity.id (fst b))
                     (m1 ++ (e, maxSimilarity q e) :: m2)).
    { rewrite <- Hsplit. apply with_similarity_sorted.
      apply (sorted_filter _ (@Entity.id num)). exact Hsorted. }
    apply in_app_or in Hpos. destruct Hpos as [Hpos|[Hpos|Hpos]].
    + apply (Hfirst _ Hpos).
    + injection Hpos as ->. lia.
    + pose proof (sorted_after _ (fun z : Entity.t num * num => Entity.id (fst z))
                               m1 m2 _ Hids _ Hpos) as Hgt.
      simpl in Hgt. lia.
Qed.

Lemma findFuzzyMatches_none (query : string) (threshold : num)
      (this : CortexPool num) :
  findFuzzyMatches query (Some threshold) this = [] ->
  forall e, In e (entities (db this)) ->
            ngeb (maxSimilarity (normalizeName query) e) threshold = false.
Proof.
  unfold findFuzzyMatches. simpl or_default. cbv zeta.
  rewrite fuzzy_candidates_filter.
  intros Hnil e He.
  destruct (ngeb (maxSimilarity (normalizeName query) e) threshold) eqn:E;
    [|reflexivity].
  exfalso.
  apply map_eq_nil in Hnil.
  pose proof (stable_sort_length _ by_similarity_desc
                (map (with_similarity (normalizeName query))
                     (filter (fun e => ngeb (maxSimilarity (normalizeName query) e)
                                            threshold)
                             (entities (db this))))) as Hlen.
  rewrite Hnil in Hlen. simpl in Hlen. symmetry in Hlen.
  apply length_zero_iff_nil in Hlen. apply map_eq_nil in Hlen.
  assert (Hin : In e (filter (fun e => ngeb (maxSimilarity (normalizeName query) e)
                                            threshold)
                             (entities (db this)))) by (apply filter_In; tauto).
  rewrite Hlen in Hin. destruct Hin.
Qed.
End Resolution.

(** *** A plain substring match is a LIKE match *)

(* the pattern %p matches the text when p matches it or %p matches its tail *)
Lemma sql_like_percent_unfold (p text : string) :
  sql_like (String "%" p) text
  = sql_like p text
    || match text with
       | EmptyString => false
       | String _ text' => sql_like (String "%" p) text'
       end.
Proof. destruct text; reflexivity. Qed.

Lemma sql_like_percent_any (text : string) : sql_like "%" text = true.
Proof.
  induction text as [|c text IH]; [reflexivity|].
  rewrite sql_like_percent_unfold. rewrite IH. apply orb_true_r.
Qed.

Lemma sql_like_skip (p : string) (c : ascii) (text : string) :
  sql_like (String "%" p) text = true ->
  sql_like (String "%" p) (String c text) = true.
Proof.
  intros Hm. rewrite sql_like_percent_unfold. rewrite Hm. apply orb_true_r.
Qed.

Lemma sql_like_prefix (query text : string) :
  startsWith query text = true -> sql_like (query ++ "%") text = true.
Proof.
  revert text. induction query as [|p query IH]; intros text Hpre.
  - apply sql_like_percent_any.
  - destruct text as [|c text]; simpl in Hpre; [discriminate|].
    apply andb_true_iff in Hpre. destruct Hpre as [Hc Hrest].
    apply Ascii.eqb_eq in Hc. subst c.
    specialize (IH text Hrest).
    change (String p query ++ "%")%string with (String p (query ++ "%")).
    destruct (code p =? 37)%N eqn:E37.
    + (* the character is the wildcard itself: it matches one character *)
      assert (p = "%"%char) as ->.
      { apply N.eqb_eq in E37. unfold code in E37.
        rewrite <- (ascii_N_embedding p). rewrite E37. reflexivity. }
      apply sql_like_skip.
      destruct (query ++ "%")%string eqn:Eq.
      * destruct query; discriminate.
      * rewrite sql_like_percent_unfold. rewrite IH. reflexivity.
    + cbn [sql_like]. rewrite E37. rewrite IH.
      rewrite Ascii.eqb_refl. rewrite orb_true_r. reflexivity.
Qed.

Lemma includes_sql_like (query text : string) :
  includes text query = true -> sql_like ("%" ++ query ++ "%") text = true.
Proof.
  change ("%" ++ query ++ "%")%string with (String "%" (query ++ "%")).
  induction text as [|c text IH].
  - intros Hpre. cbn [includes] in Hpre. rewrite orb_false_r in Hpre.
    rewrite sql_like_percent_unfold.
    rewrite (sql_like_prefix query "" Hpre). reflexivity.
  - intros Hinc. cbn [includes] in Hinc. apply orb_true_iff in Hinc.
    destruct Hinc as [Hpre|Hinc].
    + rewrite sql_like_percent_unfold.
      rewrite (sql_like_prefix query (String c text) Hpre). reflexivity.
    + apply sql_like_skip. apply IH. exact Hinc.
Qed.

(** C5 (as amended).  The rows of the entities table are in id order.  For
    every query, [resolveEntity] returns at most one entity, determined by
    trying in order: the exact match of the normalized query with
    canonicalName; then the match of the stored alias text with the SQL
    pattern made of the query between two percent signs (LIKE: ASCII case is
    ignored and the characters percent and underscore of the query are
    wildcards), which holds in particular when the query occurs in that
    text; then the fuzzy match at threshold 0.8, taking the most similar
    entity and among equally similar ones the one of lowest id; it returns
    null only when all three steps fail. *)
Theorem resolveEntity_in_order
        (num : Type) (N : Number num) (O : @NumberOrder num N)
        (query : string) (this : CortexPool num) :
  entities_in_id_order this ->
  resolved_in_order query this
  /\ forall e : Entity.t num,
      substring_match query e = true -> alias_match query e = true.
Proof.
  intros Hsorted. split; [|intros e; apply includes_sql_like].
  unfold resolved_in_order, resolveEntity. cbv zeta.
  destruct (sql_get (fun e => String.eqb (Entity.canonicalName e) (normalizeName query))
                    (entities (db this))) as [byCanonical|] eqn:Hexact.
  - cbv beta iota.
    destruct (sql_get_first _ (@Entity.id num) _ _ _ Hsorted Hexact)
      as (Hin & Hp & Hmin).
    split; [exact Hin|]. left. split; [exact Hp | exact Hmin].
  - pose proof (sql_get_none _ _ _ Hexact) as Hno_exact.
    destruct (sql_get (fun e => sql_like ("%" ++ query ++ "%")
                                         (JSON_stringify (Entity.aliases e)))
                      (entities (db this))) as [byAlias|] eqn:Halias.
    + cbv beta iota.
      destruct (sql_get_first _ (@Entity.id num) _ _ _ Hsorted Halias)
        as (Hin & Hp & Hmin).
      split; [exact Hin|]. right. left.
      split; [exact Hno_exact|]. split; [exact Hp | exact Hmin].
    + pose proof (sql_get_none _ _ _ Halias) as Hno_alias.
      destruct (findFuzzyMatches query (Some (lit 0.8)) this)
        as [|first others] eqn:Hfuzzy.
      * cbv beta iota.
        intros e' He'. split; [now apply Hno_exact|]. split; [now apply Hno_alias|].
        now apply (findFuzzyMatches_none query (lit 0.8) this Hfuzzy).
      * cbv beta iota.
        destruct (findFuzzyMatches_first query (lit 0.8) this first others
                                         Hsorted Hfuzzy)
          as (Hin & Hf & Hmax & Hlow).
        split; [exact Hin|]. right. right.
        split; [intros e' He'; split; [now apply Hno_exact | now apply Hno_alias]|].
        split; [exact Hf|]. split; [exact Hmax | exact Hlow].
Qed.

Lemma resolveEntity_in_order_witness :
  resolved_in_order "OpenLim" seeded
  /\ forall e : Entity.t Q,
      substring_match "OpenLim" e = true -> alias_match "OpenLim" e = true.
Proof.
  apply (resolveEntity_in_order Q Number_Q NumberOrder_Q "OpenLim" seeded).
  unfold entities_in_id_order. vm_compute.
  repeat constructor.
Defined.

(** C5, the claim as stated fails.  On the query w_ll: no entity has it as
    canonical name, it occurs in no alias and not in the stored alias text
    (whether or not case is ignored), and no entity is similar to it at
    threshold 0.8, so the three steps of the claim give null;
    [resolveEntity] returns the entity William, whose alias text matches
    the pattern with the underscore as a wildcard.  On the query WILL: the
    three steps of the claim give null as well, and [resolveEntity] returns
    William, LIKE ignoring case. *)
Lemma resolveEntity_like_is_not_substring :
  option_map (@Entity.name Q) (resolveEntity "w_ll" seeded) = Some "William"%string
  /\ forallb
       (fun e : Entity.t Q =>
          negb (exact_match "w_ll" e)
          && negb (substring_match "w_ll" e)
          && negb (includes (toLowerCase (JSON_stringify (Entity.aliases e)))
                            (toLowerCase "w_ll"))
          && negb (existsb (fun alias => includes alias "w_ll") (Entity.aliases e))
          && negb (fuzzy_match "w_ll" e))
       (entities (db seeded)) = true
  /\ option_map (@Entity.name Q) (resolveEntity "WILL" seeded) = Some "William"%string
  /\ forallb
       (fun e : Entity.t Q =>
          negb (exact_match "WILL" e)
          && negb (substring_match "WILL" e)
          && negb (existsb (fun alias => includes alias "WILL") (Entity.aliases e))
          && negb (fuzzy_match "WILL" e))
       (entities (db seeded)) = true.
Proof. vm_compute. repeat split; reflexivity. Qed.

(** ** Retrieval *)

Section Frames.
Context {num : Type} `{Number num}.

Lemma fold_left_frame (S X V : Type) (view : S -> V) (step : S -> X -> S)
      (l : list X) :
  (forall s x, view (step s x) = view s) ->
  forall s, view (fold_left step l s) = view s.
Proof.
  intros Hstep. induction l as [|x l IH]; intros s; simpl; [reflexivity|].
  now rewrite IH, Hstep.
Qed.

Lemma setTopics_facts (topics : list string) (this : CortexPool num) :
  facts (db (setTopics topics this)) = facts (db this).
Proof.
  unfold setTopics, Date_now. simpl.
  rewrite (fold_left_frame _ _ _ (fun s : CortexPool num => facts (db s)));
    [reflexivity|].
  intros s topic. simpl. now destruct (resolveEntity topic _).
Qed.

Lemma spread_layer_db (decay : num) (this : CortexPool num) (d : nat) :
  db (spread_layer decay this d) = db this.
Proof.
  unfold spread_layer.
  apply (fold_left_frame _ _ _ (fun s : CortexPool num => db s)).
  intros s [id level]. reflexivity.
Qed.

Lemma applyActivationDecay_db (now : Z) (this : CortexPool num) :
  db (applyActivationDecay now this) = db this.
Proof.
  unfold applyActivationDecay.
  apply (fold_left_frame _ _ _ (fun s : CortexPool num => db s)).
  intros s [entityId activation].
  destruct (Nat.eqb _ 0); [|reflexivity].
  now destruct (_ <? _)%num.
Qed.

Lemma spreadActivation_facts (depth : nat) (decay : num) (this : CortexPool num) :
  facts (db (spreadActivation depth decay this)) = facts (db this).
Proof.
  unfold spreadActivation, recordActivationHistory, Date_now. simpl.
  match goal with
  | |- context [if ?c then _ else _] => destruct c
  end; simpl; rewrite applyActivationDecay_db;
    rewrite (fold_left_frame _ _ _ (fun s : CortexPool num => db s));
    try reflexivity; intros s d; apply spread_layer_db.
Qed.

Lemma calculateRelevance_db (fact : Fact.t num) (this : CortexPool num) :
  db (snd (calculateRelevance fact this)) = db this.
Proof.
  unfold calculateRelevance. now destruct (getEntity _ this).
Qed.

Lemma score_all_facts (l : list (Fact.t num)) :
  forall this : CortexPool num,
    map fst (fst (score_all l this)) = l
    /\ db (snd (score_all l this)) = db this.
Proof.
  induction l as [|fact l IH]; intros this; simpl; [auto|].
  pose proof (calculateRelevance_db fact this) as Hdb.
  destruct (calculateRelevance fact this) as [score this1]. simpl in Hdb.
  destruct (IH this1) as [Hfst Hsnd].
  destruct (score_all l this1) as [scored this2]. simpl in *.
  split; [now rewrite Hfst | now rewrite Hsnd].
Qed.


(** What the loop that fills the pool writes: the rows of a prefix of the
    selected facts, all of them when it runs to its end. *)
Lemma fill_pool_rows (now : Z) (selected : list (Fact.t num * num)) :
  forall (results : list (Retrieved.t num)) (this : CortexPool num),
  exists n,
    (n <= List.length selected)%nat
    /\ pool (db (snd (fill_pool now selected results this)))
       = pool (db this) ++ map (pool_row now) (firstn n selected)
    /\ (forall r, fst (fill_pool now selected results this) = Returned r ->
                  n = List.length selected).
Proof.
  induction selected as [|[fact score] rest IH]; intros results this; simpl.
  - exists O. split; [lia|]. split; [now rewrite app_nil_r | auto].
  - destruct (hydrateEntity _) as [subject|message].
    + match goal with
      | |- context [fill_pool now rest ?r ?s] => destruct (IH r s) as (n & Hn & Hpool & Hret)
      end.
      exists (S n). split; [lia|]. split.
      * rewrite Hpool. simpl. unfold sql_insert. now rewrite <- app_assoc.
      * intros r Hr. f_equal. now apply (Hret r).
    + exists 1%nat. split; [lia|]. split; [reflexivity | discriminate].
Qed.
End Frames.

Section Ranking.
Variable A : Type.
Variable rel : A -> A -> Prop.

Lemma sorted_firstn (n : nat) (l : list A) :
  StronglySorted rel l -> StronglySorted rel (firstn n l).
Proof.
  intros Hs. revert n. induction Hs as [|a l Hs IH Hall]; intros [|n]; simpl;
    try constructor.
  - apply IH.
  - rewrite Forall_forall in *. intros x Hx. apply Hall.
    rewrite <- (firstn_skipn n l). apply in_or_app. now left.
Qed.


End Ranking.

Section PoolBound.
Context {num : Type} `{Number num} {O : NumberOrder (num := num)}.

Lemma by_score_desc_asym (a b : Fact.t num * num) :
  by_score_desc a b = true -> by_score_desc b a = false.
Proof. unfold by_score_desc. apply nltb_asym. Qed.

Lemma by_score_desc_negtrans (a b c : Fact.t num * num) :
  by_score_desc a b = false -> by_score_desc b c = false ->
  by_score_desc a c = false.
Proof.
  unfold by_score_desc. intros Hab Hbc.
  now apply (nltb_negtrans (snd c) (snd b) (snd a)).
Qed.

Lemma slice_to_firstn (A : Type) (k : Z) (l : list A) :
  0 <= k -> slice_to k l = firstn (Z.to_nat k) l.
Proof.
  intros Hk. unfold slice_to.
  assert ((k <? 0) = false) as -> by (apply Z.ltb_ge; lia). reflexivity.
Qed.

End PoolBound.




(** [retrieve] reads nothing of its options but poolSize. *)
Lemma retrieve_reads_poolSize_only
      (num : Type) (N : Number num) (topics : list string)
      (options options' : RetrieveOptions.t) (this : CortexPool num) :
  RetrieveOptions.poolSize options = RetrieveOptions.poolSize options' ->
  retrieve topics options this = retrieve topics options' this.
Proof. intros Hsame. unfold retrieve. now rewrite Hsame. Qed.

(** C8.  [retrieve] never reads the useVectors option and never calls the
    vector backend: with useVectors true it returns what it returns without
    it.  [hybridRetrieval], the only caller of [searchByVector], returns the
    graph-only results when the backend throws. *)
Theorem retrieve_with_failing_vector_backend
        (num : Type) (N : Number num)
        (backend : @VectorBackend num) (message : string)
        (topics : list string) (poolSize : Z) (this : CortexPool num) :
  backend (join " " topics) poolSize = Thrown message ->
  retrieve topics (RetrieveOptions.mk (Some true) (Some poolSize)) this
  = retrieve topics (RetrieveOptions.mk (Some false) (Some poolSize)) this
  /\ retrieve topics (RetrieveOptions.mk (Some true) None) this
     = retrieve topics (RetrieveOptions.mk (Some false) None) this
  /\ hybridRetrieval backend topics poolSize this
     = retrieve topics (RetrieveOptions.mk (Some false) (Some poolSize)) this.
Proof.
  intros Hthrow.
  split; [now apply retrieve_reads_poolSize_only|].
  split; [now apply retrieve_reads_poolSize_only|].
  unfold hybridRetrieval.
  generalize (retrieve topics (RetrieveOptions.mk (Some false) (Some poolSize)) this).
  intros [[graphResults|failure] this1]; [|reflexivity].
  now rewrite Hthrow.
Qed.

Lemma retrieve_with_failing_vector_backend_witness :
  retrieve ["OpenLiam"%string] (RetrieveOptions.mk (Some true) (Some 5)) seeded
  = retrieve ["OpenLiam"%string] (RetrieveOptions.mk (Some false) (Some 5)) seeded
  /\ retrieve ["OpenLiam"%string] (RetrieveOptions.mk (Some true) None) seeded
     = retrieve ["OpenLiam"%string] (RetrieveOptions.mk (Some false) None) seeded
  /\ hybridRetrieval failing_backend ["OpenLiam"%string] 5 seeded
     = retrieve ["OpenLiam"%string] (RetrieveOptions.mk (Some false) (Some 5)) seeded.
Proof.
  apply (retrieve_with_failing_vector_backend
           Q Number_Q failing_backend "vector index unavailable"
           ["OpenLiam"%string] 5 seeded).
  reflexivity.
Defined.

(** ** The maintenance pass on two stores *)

(** The count [reflect] returns is the number of candidate pairs of the
    store as [applyDecay] leaves it, whatever their contents. *)
Lemma reflect_contradictions_count
      (num : Type) (N : Number num) (E : Exponential num)
      (this : CortexPool num) (result : ReflectResult.t) :
  fst (reflect this) = Returned result ->
  ReflectResult.contradictions result
  = Z.of_nat (List.length
                (contradiction_candidates
                   (facts (db (applyDecay (snd (Date_now this))))))).
Proof.
  unfold reflect.
  destruct (Date_now this) as [now this0]. cbn [snd].
  generalize (applyDecay this0) as this1. intros this1.
  pose proof (detectContradictions_effect this1) as (Hcount & _).
  destruct (detectContradictions this1) as [contradictions this2].
  cbn [fst] in Hcount.
  generalize (consolidateEntities (entities (db this2)) this2) as this3.
  intros this3.
  destruct (compressMemory this3) as [compressed this4].
  destruct (refreshPool this4) as [[u|message] this5]; cbn [fst].
  - intros [= <-]. exact Hcount.
  - discriminate.
Qed.

(** C3, at the failing input.  The store holds one fact twice (same
    subject, predicate and content).  [reflect] returns the contradictions
    count 1, and no row was recorded in the contradictions table: the count
    is the number of candidate pairs, not of the pairs whose contents
    differ. *)
Theorem reflect_counts_pairs_with_equal_content :
  fst (reflect twins) = Returned (ReflectResult.mk 1 2 1)
  /\ contradictions (db (snd (reflect twins))) = [].
Proof.
  unfold reflect, compressMemory, mergeSimilarFacts, pruneRedundantEdges,
    summarizeOldFacts, refreshPool, twins.
  reval. split; reflexivity.
Qed.


(* ================================================================== *)
(** * Further properties *)

(** ** Names and their normal form *)

Section NormalForm.
Local Open Scope string_scope.

Lemma lower_char_idempotent (c : ascii) : lower_char (lower_char c) = lower_char c.
Proof. destruct c as [[] [] [] [] [] [] [] []]; reflexivity. Qed.

Lemma is_space_lower_char (c : ascii) : is_space (lower_char c) = is_space c.
Proof. destruct c as [[] [] [] [] [] [] [] []]; reflexivity. Qed.

Lemma toLowerCase_idempotent (s : string) :
  toLowerCase (toLowerCase s) = toLowerCase s.
Proof.
  induction s as [|c s IH]; simpl; [reflexivity|].
  now rewrite lower_char_idempotent, IH.
Qed.

Lemma toLowerCase_trimStart (s : string) :
  toLowerCase (trimStart s) = trimStart (toLowerCase s).
Proof.
  induction s as [|c s IH]; simpl; [reflexivity|].
  rewrite is_space_lower_char. destruct (is_space c); [exact IH | reflexivity].
Qed.

Lemma toLowerCase_reverse (s acc : string) :
  toLowerCase (reverse s acc) = reverse (toLowerCase s) (toLowerCase acc).
Proof.
  revert acc. induction s as [|c s IH]; intros acc; simpl; [reflexivity|].
  now rewrite IH.
Qed.

Lemma toLowerCase_trim (s : string) :
  toLowerCase (trim s) = trim (toLowerCase s).
Proof.
  unfold trim, trimEnd.
  now rewrite toLowerCase_reverse, toLowerCase_trimStart, toLowerCase_reverse,
    toLowerCase_trimStart.
Qed.

Lemma toLowerCase_collapse_spaces (in_run : bool) (s : string) :
  toLowerCase (collapse_spaces in_run s) = collapse_spaces in_run (toLowerCase s).
Proof.
  revert in_run. induction s as [|c s IH]; intros in_run; simpl; [reflexivity|].
  rewrite is_space_lower_char.
  destruct (is_space c); [destruct in_run|]; simpl; now rewrite IH.
Qed.

Lemma string_append_assoc (a b c : string) : (a ++ b) ++ c = a ++ (b ++ c).
Proof. induction a as [|x a IH]; simpl; [reflexivity | now rewrite IH]. Qed.

Lemma reverse_append (s acc : string) : reverse s acc = reverse s "" ++ acc.
Proof.
  revert acc. induction s as [|c s IH]; intros acc; simpl; [reflexivity|].
  rewrite IH, (IH (String c "")). now rewrite string_append_assoc.
Qed.

Lemma reverse_snoc (s : string) (c : ascii) (acc : string) :
  reverse (s ++ String c "") acc = String c (reverse s acc).
Proof.
  revert acc. induction s as [|a s IH]; intros acc; simpl; [reflexivity|].
  now rewrite IH.
Qed.

Lemma reverse_empty (s : string) : reverse s "" = "" -> s = "".
Proof.
  destruct s as [|c s]; [reflexivity|]. simpl. rewrite reverse_append.
  destruct (reverse s ""); discriminate.
Qed.

Lemma trimStart_append (a b : string) :
  trimStart (a ++ b)
  = match trimStart a with
    | EmptyString => trimStart b
    | r => r ++ b
    end.
Proof.
  induction a as [|c a IH]; simpl; [now destruct (trimStart b)|].
  destruct (is_space c); [exact IH | reflexivity].
Qed.

Lemma trimEnd_from_the_left (s : string) : trimEnd s = without_trailing_spaces s.
Proof.
  unfold trimEnd. induction s as [|c s IH]; simpl; [reflexivity|].
  rewrite (reverse_append s (String c "")), trimStart_append. rewrite <- IH.
  destruct (trimStart (reverse s "")) as [|a r] eqn:E.
  - simpl. destruct (is_space c); reflexivity.
  - rewrite reverse_snoc.
    destruct (reverse (String a r) "") eqn:E2; [|reflexivity].
    apply reverse_empty in E2. discriminate.
Qed.

Lemma first_nonspace_trimStart (s : string) : first_nonspace (trimStart s) = true.
Proof.
  induction s as [|c s IH]; simpl; [reflexivity|].
  destruct (is_space c) eqn:E; [exact IH|]. simpl. now rewrite E.
Qed.

Lemma trimStart_first_nonspace (s : string) :
  first_nonspace s = true -> trimStart s = s.
Proof.
  destruct s as [|c s]; simpl; [reflexivity|].
  now destruct (is_space c).
Qed.

Lemma first_nonspace_without_trailing (s : string) :
  first_nonspace s = true -> first_nonspace (without_trailing_spaces s) = true.
Proof.
  destruct s as [|c s]; simpl; [reflexivity|]. intros Hc.
  destruct (without_trailing_spaces s); simpl; [|exact Hc].
  destruct (is_space c) eqn:Ec; [discriminate | simpl; now rewrite Ec].
Qed.

Lemma without_trailing_idempotent (s : string) :
  without_trailing_spaces (without_trailing_spaces s) = without_trailing_spaces s.
Proof.
  induction s as [|c s IH]; simpl; [reflexivity|].
  destruct (without_trailing_spaces s) as [|a r] eqn:E.
  - destruct (is_space c) eqn:Ec; simpl; [reflexivity|]. now rewrite Ec.
  - simpl in *. now rewrite IH.
Qed.

Lemma trim_trimmed (s : string) : trimmed (trim s).
Proof.
  unfold trimmed, trim. rewrite trimEnd_from_the_left. split.
  - apply first_nonspace_without_trailing, first_nonspace_trimStart.
  - apply without_trailing_idempotent.
Qed.

Lemma trimmed_trim (s : string) : trimmed s -> trim s = s.
Proof.
  intros [Hfirst Hlast]. unfold trim.
  rewrite (trimStart_first_nonspace s Hfirst).
  now rewrite trimEnd_from_the_left.
Qed.

Lemma collapse_spaces_nonempty (in_run : bool) (s : string) :
  without_trailing_spaces s = s -> s <> "" -> collapse_spaces in_run s <> "".
Proof.
  revert in_run. induction s as [|c s IH]; intros in_run Hs Hne; [congruence|].
  simpl in *. destruct (is_space c) eqn:Ec.
  - destruct (without_trailing_spaces s) as [|a r] eqn:E; [discriminate|].
    injection Hs as Hs.
    assert (H1 : collapse_spaces true s <> "").
    { apply IH; [congruence | rewrite <- Hs; discriminate]. }
    destruct in_run; [exact H1 | discriminate].
  - discriminate.
Qed.

Lemma collapse_spaces_trailing (in_run : bool) (s : string) :
  without_trailing_spaces s = s ->
  without_trailing_spaces (collapse_spaces in_run s) = collapse_spaces in_run s.
Proof.
  revert in_run. induction s as [|c s IH]; intros in_run Hs; [reflexivity|].
  simpl in Hs.
  assert (Hs' : without_trailing_spaces s = s).
  { destruct (without_trailing_spaces s) as [|a r] eqn:E.
    - destruct (is_space c); [discriminate | now injection Hs as <-].
    - now injection Hs. }
  simpl. destruct (is_space c) eqn:Ec.
  - assert (Hne : s <> "").
    { intros ->. simpl in Hs. discriminate. }
    pose proof (collapse_spaces_nonempty true s Hs' Hne) as Hc.
    destruct in_run; [now apply IH|].
    simpl. rewrite (IH true Hs').
    destruct (collapse_spaces true s); [congruence | reflexivity].
  - simpl. rewrite (IH false Hs').
    destruct (collapse_spaces false s); [now rewrite Ec | reflexivity].
Qed.

Lemma collapse_spaces_trimmed (s : string) :
  trimmed s -> trimmed (collapse_spaces false s).
Proof.
  intros [Hfirst Hlast]. split; [|now apply collapse_spaces_trailing].
  destruct s as [|c s]; simpl in *; [reflexivity|].
  destruct (is_space c) eqn:Ec; [discriminate|]. simpl. now rewrite Ec.
Qed.

Lemma collapse_spaces_single_spaced (in_run : bool) (s : string) :
  single_spaced in_run (collapse_spaces in_run s) = true.
Proof.
  revert in_run. induction s as [|c s IH]; intros in_run; simpl; [reflexivity|].
  destruct (is_space c) eqn:Ec.
  - destruct in_run; [apply IH|]. simpl. apply IH.
  - simpl. rewrite Ec. apply IH.
Qed.

Lemma single_spaced_collapse (in_run : bool) (s : string) :
  single_spaced in_run s = true -> collapse_spaces in_run s = s.
Proof.
  revert in_run. induction s as [|c s IH]; intros in_run; simpl; [reflexivity|].
  destruct (is_space c) eqn:Ec.
  - intros Hs. apply andb_true_iff in Hs. destruct Hs as [Hs Htail].
    apply andb_true_iff in Hs. destruct Hs as [Hc Hrun].
    apply Ascii.eqb_eq in Hc. subst c.
    destruct in_run; [discriminate|]. now rewrite (IH true Htail).
  - intros Hs. now rewrite (IH false Hs).
Qed.

Lemma collapse_spaces_idempotent (s : string) :
  collapse_spaces false (collapse_spaces false s) = collapse_spaces false s.
Proof. apply single_spaced_collapse, collapse_spaces_single_spaced. Qed.
End NormalForm.

(** X1.  [normalizeName] is idempotent: a normalized name is its own
    normal form, so a canonical name used as a query is looked up under
    itself. *)
Theorem normalizeName_idempotent (name : string) :
  normalizeName (normalizeName name) = normalizeName name.
Proof.
  unfold normalizeName.
  rewrite toLowerCase_collapse_spaces, toLowerCase_trim, toLowerCase_idempotent.
  rewrite (trimmed_trim _ (collapse_spaces_trimmed _ (trim_trimmed _))).
  apply collapse_spaces_idempotent.
Qed.

(** ** The edit distance *)

Section EditDistance.

Lemma fill_row_length (c2 : ascii) (s1 : string) :
  forall (diag left : nat) (above : list nat),
    List.length above = String.length s1 ->
    List.length (fill_row c2 s1 diag left above) = String.length s1.
Proof.
  induction s1 as [|c1 s1 IH]; intros diag left [|up above] Hlen; simpl in *;
    try reflexivity; try discriminate.
  f_equal. apply IH. lia.
Qed.

Lemma fill_row_bounded (c2 : ascii) (i : nat) (s1 : string) :
  forall (j diag left : nat) (above : list nat),
    (diag <= Nat.max i j)%nat ->
    cells_bounded i (S j) above ->
    cells_bounded (S i) (S j) (fill_row c2 s1 diag left above).
Proof.
  induction s1 as [|c1 s1 IH]; intros j diag left [|up above] Hdiag Habove;
    simpl; try (intros [|k] x Hk; discriminate).
  assert (Hup : (up <= Nat.max i (S j))%nat).
  { specialize (Habove O up eq_refl). now rewrite Nat.add_0_r in Habove. }
  intros [|k] x Hk; simpl in Hk.
  - injection Hk as <-. destruct (Ascii.eqb c2 c1); lia.
  - specialize (IH (S j) up
                   (if Ascii.eqb c2 c1 then diag
                    else Nat.min (diag + 1) (Nat.min (left + 1) (up + 1)))
                   above Hup).
    assert (Hrest : cells_bounded i (S (S j)) above).
    { intros k' x' Hk'. specialize (Habove (S k') x' Hk'). lia. }
    specialize (IH Hrest k x Hk). lia.
Qed.

Lemma next_row_bounded (i : nat) (c2 : ascii) (s1 : string) (prev : list nat) :
  cells_bounded i 0 prev -> cells_bounded (S i) 0 (next_row (S i) c2 s1 prev).
Proof.
  intros Hprev. unfold next_row. destruct prev as [|d above].
  - intros [|[|k]] x Hk; simpl in Hk; try discriminate. injection Hk as <-. lia.
  - assert (Hd : (d <= Nat.max i 0)%nat) by (apply (Hprev O d eq_refl)).
    assert (Habove : cells_bounded i 1 above).
    { intros k x Hk. specialize (Hprev (S k) x Hk). lia. }
    pose proof (fill_row_bounded c2 i s1 0 d (S i) above Hd Habove) as Hrow.
    intros [|k] x Hk; simpl in Hk.
    + injection Hk as <-. lia.
    + specialize (Hrow k x Hk). lia.
Qed.

Lemma next_row_length (i : nat) (c2 : ascii) (s1 : string) (prev : list nat) :
  List.length prev = S (String.length s1) ->
  List.length (next_row i c2 s1 prev) = S (String.length s1).
Proof.
  intros Hlen. unfold next_row. destruct prev as [|d above]; [discriminate|].
  simpl in *. f_equal. apply fill_row_length. lia.
Qed.

Lemma matrix_rows_bounded (s2 s1 : string) :
  forall (i : nat) (prev : list nat),
    List.length prev = S (String.length s1) ->
    cells_bounded i 0 prev ->
    List.length (matrix_rows (S i) s2 s1 prev) = S (String.length s1)
    /\ cells_bounded (i + String.length s2) 0 (matrix_rows (S i) s2 s1 prev).
Proof.
  induction s2 as [|c2 s2 IH]; intros i prev Hlen Hprev; simpl.
  - rewrite Nat.add_0_r. auto.
  - replace (i + S (String.length s2))%nat with (S i + String.length s2)%nat by lia.
    apply IH; [now apply next_row_length | now apply next_row_bounded].
Qed.

Lemma last_nth_error (l : list nat) (n : nat) :
  List.length l = S n -> nth_error l n = Some (last l O).
Proof.
  revert n. induction l as [|a l IH]; intros n Hlen; [discriminate|].
  destruct l as [|b l].
  - simpl in Hlen. injection Hlen as <-. reflexivity.
  - destruct n as [|n]; [discriminate|].
    change (nth_error (b :: l) n = Some (last (b :: l) O)).
    apply IH. simpl in *. lia.
Qed.

(** The distance is at most the length of the longer string. *)
Lemma levenshteinDistance_bound (s1 s2 : string) :
  (levenshteinDistance s1 s2 <= Nat.max (String.length s1) (String.length s2))%nat.
Proof.
  unfold levenshteinDistance.
  destruct (Nat.eqb (String.length s1) 0) eqn:E1; [lia|].
  destruct (Nat.eqb (String.length s2) 0) eqn:E2; [lia|].
  destruct (matrix_rows_bounded s2 s1 0 (seq 0 (S (String.length s1))))
    as [Hlen Hb].
  - now rewrite length_seq.
  - intros k x Hk.
    assert (Hlt : (k < S (String.length s1))%nat).
    { rewrite <- (length_seq (S (String.length s1)) 0).
      apply nth_error_Some. congruence. }
    apply (nth_error_nth _ _ O) in Hk. rewrite seq_nth in Hk by exact Hlt. lia.
  - pose proof (last_nth_error _ _ Hlen) as Hlast.
    specialize (Hb _ _ Hlast). lia.
Qed.

(* the row of a string against itself holds 0 on the diagonal *)
Lemma fill_row_match (c2 : ascii) (s1 : string) :
  forall (k diag left : nat) (above : list nat),
    List.length above = String.length s1 ->
    String.get k s1 = Some c2 ->
    match k with O => diag | S k' => nth k' above 1%nat end = O ->
    nth_error (fill_row c2 s1 diag left above) k = Some O.
Proof.
  induction s1 as [|c1 s1 IH]; intros k diag left [|up above] Hlen Hget Hz;
    simpl in *; try discriminate.
  destruct k as [|k]; simpl.
  - injection Hget as ->. rewrite Ascii.eqb_refl. now rewrite Hz.
  - apply IH; [lia | exact Hget |]. destruct k as [|k]; exact Hz.
Qed.

Lemma get_append_here (pre : string) (c : ascii) (rest : string) :
  String.get (String.length pre) (pre ++ String c rest) = Some c.
Proof. induction pre as [|a pre IH]; simpl; [reflexivity | exact IH]. Qed.

Lemma length_append (a b : string) :
  String.length (a ++ b) = (String.length a + String.length b)%nat.
Proof. induction a as [|x a IH]; simpl; [reflexivity | now rewrite IH]. Qed.

Lemma matrix_rows_diagonal (rest : string) :
  forall (pre : string) (prev : list nat),
    List.length prev = S (String.length (pre ++ rest)) ->
    nth_error prev (String.length pre) = Some O ->
    last (matrix_rows (S (String.length pre)) rest (pre ++ rest) prev) O = O.
Proof.
  induction rest as [|c rest IH]; intros pre prev Hlen Hz; simpl.
  - assert (Hpre : (pre ++ "")%string = pre).
    { clear. induction pre as [|a pre IH]; simpl; [reflexivity | now rewrite IH]. }
    rewrite Hpre in Hlen.
    pose proof (last_nth_error _ _ Hlen) as Hlast. congruence.
  - assert (Happ : (pre ++ String c rest)%string
                   = ((pre ++ String c "") ++ rest)%string).
    { clear. induction pre as [|a pre IH]; simpl; [reflexivity | now rewrite IH]. }
    assert (Hlen' : String.length (pre ++ String c "") = S (String.length pre)).
    { rewrite length_append. simpl. lia. }
    specialize (IH (pre ++ String c "")%string
                   (next_row (S (String.length pre)) c (pre ++ String c rest) prev)).
    rewrite Hlen', <- Happ in IH. apply IH.
    + now apply next_row_length.
    + unfold next_row. destruct prev as [|d above]; [discriminate|].
      simpl. apply fill_row_match.
      * simpl in Hlen. lia.
      * apply get_append_here.
      * destruct (String.length pre) as [|k] eqn:Ek; simpl in Hz.
        -- now injection Hz.
        -- now apply nth_error_nth.
Qed.

(** The distance of a string to itself is 0. *)
Lemma levenshteinDistance_same (s : string) : levenshteinDistance s s = O.
Proof.
  unfold levenshteinDistance.
  destruct (Nat.eqb (String.length s) 0) eqn:E; [now apply Nat.eqb_eq|].
  apply (matrix_rows_diagonal s EmptyString).
  - simpl. now rewrite length_seq.
  - reflexivity.
Qed.
End EditDistance.

Lemma one_point_zero : (1.0 == 1)%Q.
Proof. reflexivity. Qed.

(** X2.  Over the rationals, the similarity of two strings lies between 0
    and 1: the edit distance is never more than the length of the longer
    string. *)
Theorem calculateSimilarity_between_0_and_1 (s1 s2 : string) :
  (0 <= calculateSimilarity s1 s2 /\ calculateSimilarity s1 s2 <= 1)%Q.
Proof.
  unfold calculateSimilarity.
  pose proof (levenshteinDistance_bound s1 s2) as Hb.
  set (maxLen := Nat.max (String.length s1) (String.length s2)) in *.
  destruct (Nat.eqb maxLen 0) eqn:E.
  - unfold lit. simpl. rewrite one_point_zero. split; [discriminate | apply Qle_refl].
  - apply Nat.eqb_neq in E.
    set (d := levenshteinDistance s1 s2) in *.
    unfold lit, ofZ. simpl.
    assert (Hpos : (0 < inject_Z (Z.of_nat maxLen))%Q).
    { change 0%Q with (inject_Z 0). rewrite <- Zlt_Qlt. lia. }
    assert (Hd0 : (0 <= inject_Z (Z.of_nat d))%Q).
    { change 0%Q with (inject_Z 0). rewrite <- Zle_Qle. lia. }
    assert (Hd1 : (inject_Z (Z.of_nat d) <= inject_Z (Z.of_nat maxLen))%Q).
    { rewrite <- Zle_Qle. lia. }
    assert (Hq0 : (0 <= inject_Z (Z.of_nat d) / inject_Z (Z.of_nat maxLen))%Q).
    { apply Qle_shift_div_l; [exact Hpos|]. now rewrite Qmult_0_l. }
    assert (Hq1 : (inject_Z (Z.of_nat d) / inject_Z (Z.of_nat maxLen) <= 1)%Q).
    { apply Qle_shift_div_r; [exact Hpos|]. now rewrite Qmult_1_l. }
    set (q := (inject_Z (Z.of_nat d) / inject_Z (Z.of_nat maxLen))%Q) in *.
    clearbody q. rewrite one_point_zero. split.
    + apply Qle_minus_iff in Hq1. exact Hq1.
    + apply Qle_minus_iff.
      setoid_replace (1 + - (1 - q))%Q with q by ring. exact Hq0.
Qed.

(** X3.  Over the rationals, a string has similarity 1 to itself. *)
Theorem calculateSimilarity_same (s : string) :
  (calculateSimilarity s s == 1)%Q.
Proof.
  unfold calculateSimilarity. rewrite levenshteinDistance_same.
  destruct (Nat.eqb _ 0); unfold lit, ofZ; simpl; [reflexivity|].
  unfold Qdiv. rewrite Qmult_0_l. reflexivity.
Qed.

(** ** Fuzzy matches and merge suggestions *)

Section Suggestions.
Context {num : Type} `{Number num} {O : NumberOrder (num := num)}.

(* a list sorted on a key stays sorted when the key is read off the
   elements it was paired with *)
Lemma sorted_by_paired_key (A : Type) (key : A -> num) (l : list (A * num)) :
  (forall x, In x l -> snd x = key (fst x)) ->
  StronglySorted (fun a b : A * num => (snd a <? snd b)%num = false) l ->
  StronglySorted (fun a b : A => (key a <? key b)%num = false) (map fst l).
Proof.
  intros Hkey Hs. induction Hs as [|a l Hs IH Hall]; simpl; constructor.
  - apply IH. intros x Hx. apply Hkey. now right.
  - rewrite Forall_forall in *. intros y Hy. apply in_map_iff in Hy.
    destruct Hy as (x & <- & Hx).
    rewrite <- (Hkey a) by now left. rewrite <- (Hkey x) by now right.
    now apply Hall.
Qed.

Lemma by_suggested_similarity_desc_asym (a b : EntityMergeSuggestion.t num) :
  by_suggested_similarity_desc a b = true ->
  by_suggested_similarity_desc b a = false.
Proof. unfold by_suggested_similarity_desc. apply nltb_asym. Qed.

Lemma by_suggested_similarity_desc_negtrans (a b c : EntityMergeSuggestion.t num) :
  by_suggested_similarity_desc a b = false ->
  by_suggested_similarity_desc b c = false ->
  by_suggested_similarity_desc a c = false.
Proof.
  unfold by_suggested_similarity_desc. intros Hab Hbc.
  now apply (nltb_negtrans (EntityMergeSuggestion.similarity c)
                           (EntityMergeSuggestion.similarity b)
                           (EntityMergeSuggestion.similarity a)).
Qed.

Lemma suggest_pair_In (threshold : num) (this : CortexPool num)
      (e1 e2 : Entity.t num) (s : EntityMergeSuggestion.t num) :
  In s (suggest_pair threshold this e1 e2) <->
  ngeb (pair_similarity e1 e2) threshold = true
  /\ s = EntityMergeSuggestion.mk (Entity.id e1) (Entity.id e2)
                                  (pair_similarity e1 e2)
                                  (merge_reason e1 e2 this).
Proof.
  unfold suggest_pair.
  destruct (ngeb (pair_similarity e1 e2) threshold); simpl; split.
  - intros [<-|[]]. auto.
  - intros [_ ->]. auto.
  - tauto.
  - intros [Hf _]. discriminate.
Qed.

(* the pairs the two loops visit, in a table in id order: the pairs of rows
   with the first id below the second *)
Lemma suggest_loop_In (threshold : num) (this : CortexPool num)
      (rows : list (Entity.t num)) (s : EntityMergeSuggestion.t num) :
  StronglySorted (fun a b : Entity.t num => Entity.id a < Entity.id b) rows ->
  In s (suggest_loop threshold this rows) <->
  exists e1 e2,
    In e1 rows /\ In e2 rows /\ Entity.id e1 < Entity.id e2
    /\ ngeb (pair_similarity e1 e2) threshold = true
    /\ s = EntityMergeSuggestion.mk (Entity.id e1) (Entity.id e2)
                                    (pair_similarity e1 e2)
                                    (merge_reason e1 e2 this).
Proof.
  induction 1 as [|a rows Hs IH Hall]; simpl.
  - split; [tauto | intros (e1 & e2 & [] & _)].
  - rewrite Forall_forall in Hall. rewrite in_app_iff, in_flat_map. split.
    + intros [(e2 & He2 & Hin)|Hin].
      * apply suggest_pair_In in Hin. destruct Hin as [Hsim ->].
        exists a, e2. repeat split; auto.
      * apply IH in Hin. destruct Hin as (e1 & e2 & H1 & H2 & Hrest).
        exists e1, e2. repeat split; auto; tauto.
    + intros (e1 & e2 & H1 & H2 & Hlt & Hsim & ->).
      destruct H1 as [<-|H1].
      * left. destruct H2 as [<-|H2]; [lia|].
        exists e2. split; [exact H2|]. apply suggest_pair_In. auto.
      * right. apply IH. destruct H2 as [<-|H2].
        -- specialize (Hall e1 H1). simpl in Hall. lia.
        -- exists e1, e2. auto.
Qed.
End Suggestions.

(** X4.  [findFuzzyMatches] returns the entities whose similarity to the
    normalized query is at least the threshold (0.7 when none is given),
    each as often as the table holds it, in descending order of
    similarity. *)
Theorem findFuzzyMatches_ranked
        (num : Type) (N : Number num) (O : @NumberOrder num N)
        (query : string) (threshold : option num) (this : CortexPool num) :
  let sim := maxSimilarity (normalizeName query) in
  Permutation (findFuzzyMatches query threshold this)
              (filter (fun e => ngeb (sim e) (or_default (lit 0.7) threshold))
                      (entities (db this)))
  /\ StronglySorted (fun a b => (sim a <? sim b)%num = false)
                    (findFuzzyMatches query threshold this).
Proof.
  intros sim. unfold findFuzzyMatches. cbv zeta.
  rewrite fuzzy_candidates_filter. fold sim.
  set (cands := filter _ (entities (db this))).
  split.
  - rewrite (stable_sort_perm _ by_similarity_desc).
    rewrite map_map. simpl. now rewrite map_id.
  - apply sorted_by_paired_key.
    + intros x Hx.
      apply (Permutation_in _ (stable_sort_perm _ by_similarity_desc _)) in Hx.
      apply in_map_iff in Hx. destruct Hx as (e & <- & _). reflexivity.
    + apply (stable_sort_sorted _ _ by_similarity_desc_asym
                                by_similarity_desc_negtrans).
Qed.

(** X5.  With the entities table in id order, [suggestEntityMerges] lists
    exactly the pairs of distinct entity rows whose similarity (over
    canonical names and pairs of aliases) is at least the threshold (0.8
    when none is given), each pair once with the lower id first, in
    descending order of similarity. *)
Theorem suggestEntityMerges_pairs
        (num : Type) (N : Number num) (O : @NumberOrder num N)
        (similarityThreshold : option num) (this : CortexPool num) :
  entities_in_id_order this ->
  (forall s,
      In s (suggestEntityMerges similarityThreshold this) <->
      exists e1 e2,
        In e1 (entities (db this)) /\ In e2 (entities (db this))
        /\ Entity.id e1 < Entity.id e2
        /\ ngeb (pair_similarity e1 e2) (or_default (lit 0.8) similarityThreshold)
           = true
        /\ s = EntityMergeSuggestion.mk (Entity.id e1) (Entity.id e2)
                                        (pair_similarity e1 e2)
                                        (merge_reason e1 e2 this))
  /\ StronglySorted
       (fun a b => (EntityMergeSuggestion.similarity a
                    <? EntityMergeSuggestion.similarity b)%num = false)
       (suggestEntityMerges similarityThreshold this).
Proof.
  intros Hsorted. unfold suggestEntityMerges. cbv zeta. split.
  - intros s. rewrite <- (suggest_loop_In _ this _ s Hsorted). split.
    + apply Permutation_in, stable_sort_perm.
    + apply Permutation_in, Permutation_sym, stable_sort_perm.
  - apply (stable_sort_sorted _ _ by_suggested_similarity_desc_asym
                              by_suggested_similarity_desc_negtrans).
Qed.

(** ** Tables under UPDATE, INSERT and DELETE *)

Section Tables.
Variable Row : Type.

Lemma sql_get_update_stable (p q : Row -> bool) (set : Row -> Row) (t : list Row) :
  (forall r, p (set r) = p r) ->
  sql_get p (sql_update q set t)
  = option_map (fun r => if q r then set r else r) (sql_get p t).
Proof.
  intros Hp. unfold sql_get, sql_update.
  induction t as [|r t IH]; simpl; [reflexivity|].
  destruct (q r) eqn:Eq.
  - rewrite Hp. destruct (p r); simpl; [now rewrite Eq | exact IH].
  - destruct (p r); simpl; [now rewrite Eq | exact IH].
Qed.

Lemma sql_get_insert (p : Row -> bool) (r : Row) (t : list Row) :
  sql_get p (sql_insert r t)
  = match sql_get p t with
    | Some x => Some x
    | None => if p r then Some r else None
    end.
Proof.
  unfold sql_get, sql_insert. induction t as [|x t IH]; simpl.
  - now destruct (p r).
  - destruct (p x); [reflexivity | exact IH].
Qed.

Lemma sql_update_In (q : Row -> bool) (set : Row -> Row) (t : list Row) (x : Row) :
  In x (sql_update q set t) ->
  exists r, In r t /\ x = if q r then set r else r.
Proof.
  unfold sql_update. intros Hin. apply in_map_iff in Hin.
  destruct Hin as (r & <- & Hr). eauto.
Qed.

Lemma sql_delete_In (q : Row -> bool) (t : list Row) (x : Row) :
  In x (sql_delete q t) <-> In x t /\ q x = false.
Proof.
  unfold sql_delete. rewrite filter_In. now rewrite negb_true_iff.
Qed.

Variable key : Row -> Z.

Lemma sql_update_keys (q : Row -> bool) (set : Row -> Row) (t : list Row) :
  (forall r, key (set r) = key r) ->
  map key (sql_update q set t) = map key t.
Proof.
  intros Hk. unfold sql_update. rewrite map_map. apply map_ext.
  intros r. now destruct (q r).
Qed.

Lemma sorted_keys (l : list Row) :
  StronglySorted (fun a b => key a < key b) l
  <-> StronglySorted Z.lt (map key l).
Proof.
  induction l as [|a l IH]; simpl.
  - split; constructor.
  - split; intros Hs; apply StronglySorted_inv in Hs; destruct Hs as [Hs Hall];
      constructor; try (now apply IH); rewrite Forall_forall in *.
    + intros k Hk. apply in_map_iff in Hk. destruct Hk as (x & <- & Hx).
      now apply Hall.
    + intros x Hx. apply Hall. now apply in_map.
Qed.

Lemma sorted_same_keys (l l' : list Row) :
  map key l' = map key l ->
  StronglySorted (fun a b => key a < key b) l ->
  StronglySorted (fun a b => key a < key b) l'.
Proof. intros Hk Hs. apply sorted_keys. rewrite Hk. now apply sorted_keys. Qed.

Lemma sorted_insert (seq : Z) (r : Row) (t : list Row) :
  StronglySorted (fun a b => key a < key b) t ->
  key r = next_rowid seq (map key t) ->
  StronglySorted (fun a b => key a < key b) (sql_insert r t).
Proof.
  intros Hs Hr. unfold sql_insert.
  assert (Hfresh : forall x, In x t -> key x < key r).
  { intros x Hx. rewrite Hr. apply next_rowid_fresh. now apply in_map. }
  clear Hr. induction Hs as [|a t Hs IH Hall]; simpl.
  - repeat constructor.
  - constructor.
    + apply IH. intros x Hx. apply Hfresh. now right.
    + rewrite Forall_forall in *. intros x Hx. apply in_app_or in Hx.
      destruct Hx as [Hx|[<-|[]]]; [now apply Hall | apply Hfresh; now left].
Qed.

Lemma sorted_delete (q : Row -> bool) (t : list Row) :
  StronglySorted (fun a b => key a < key b) t ->
  StronglySorted (fun a b => key a < key b) (sql_delete q t).
Proof. apply sorted_filter. Qed.

(* a key finds a row exactly when the table holds the key *)
Lemma sql_get_key (k : Z) (t : list Row) :
  sql_get (fun r => key r =? k) t <> None <-> In k (map key t).
Proof.
  unfold sql_get. split.
  - intros Hf. destruct (find _ t) as [r|] eqn:E; [|congruence].
    apply find_some in E. destruct E as [Hin Hk]. apply Z.eqb_eq in Hk.
    rewrite <- Hk. now apply in_map.
  - intros Hin Hf. apply in_map_iff in Hin. destruct Hin as (r & Hk & Hr).
    apply (find_none _ _ Hf) in Hr. apply Z.eqb_neq in Hr. congruence.
Qed.

End Tables.

(** ** Entities: [addEntity] and [resolveEntity] *)

Section EntityStore.
Context {num : Type} `{Number num}.

Local Abbreviation canonical c := (fun e : Entity.t num => String.eqb (Entity.canonicalName e) c).
Local Abbreviation with_id i := (fun e : Entity.t num => Entity.id e =? i).

(** The entities table after [addEntity], and what else the call touches. *)
Lemma addEntity_entities (name : string) (type : option EntityType)
      (confidence : option num) (this : CortexPool num) :
  let after := snd (addEntity name type confidence this) in
  let t := entities (db this) in
  facts (db after) = facts (db this)
  /\ facts_seq (db after) = facts_seq (db this)
  /\ match sql_get (canonical (normalizeName name)) t with
     | Some existing =>
         fst (addEntity name type confidence this) = Entity.id existing
         /\ exists newConfidence t',
             entities (db after)
             = sql_update (with_id (Entity.id existing))
                          (entity_set_confidence newConfidence) t'
             /\ ((t' = t /\ In name (Entity.aliases existing))
                 \/ t' = sql_update (with_id (Entity.id existing))
                                    (entity_set_aliases
                                       (Entity.aliases existing ++ [name])) t)
     | None =>
         fst (addEntity name type confidence this)
         = next_rowid (entities_seq (db this)) (map (@Entity.id num) t)
         /\ exists row,
             entities (db after) = sql_insert row t
             /\ Entity.id row = fst (addEntity name type confidence this)
             /\ Entity.canonicalName row = normalizeName name
             /\ Entity.aliases row = [name]
     end.
Proof.
  unfold addEntity. cbv zeta.
  destruct (sql_get (canonical (normalizeName name)) (entities (db this)))
    as [existing|] eqn:E.
  - destruct (array_includes (Entity.aliases existing) name) eqn:Ea; simpl.
    + split; [reflexivity|]. split; [reflexivity|]. split; [reflexivity|].
      eexists. eexists. split; [reflexivity|]. left. split; [reflexivity|].
      unfold array_includes in Ea. apply existsb_exists in Ea.
      destruct Ea as (x & Hx & Heq). apply String.eqb_eq in Heq. now subst.
    + split; [reflexivity|]. split; [reflexivity|]. split; [reflexivity|].
      eexists. eexists. split; [reflexivity|]. now right.
  - simpl. split; [reflexivity|]. split; [reflexivity|]. split; [reflexivity|].
    eexists. split; [reflexivity|]. simpl. auto.
Qed.

(* the two UPDATEs of addEntity leave a column alone that the setters do
   not write *)
Lemma entity_updates_keep (A : Type) (column : Entity.t num -> A)
      (i : Z) (aliases : list string) (c : num) (t t' : list (Entity.t num)) :
  (forall a e, column (entity_set_aliases a e) = column e) ->
  (forall c e, column (entity_set_confidence c e) = column e) ->
  t' = t \/ t' = sql_update (with_id i) (entity_set_aliases aliases) t ->
  map column (sql_update (with_id i) (entity_set_confidence c) t') = map column t.
Proof.
  intros Ha Hc Ht. unfold sql_update in *. rewrite map_map.
  destruct Ht as [->| ->]; [|rewrite map_map]; apply map_ext; intros e;
    destruct (Entity.id e =? i) eqn:Ei; simpl; rewrite ?Ei;
    now rewrite ?Hc, ?Ha.
Qed.

(** The ids of the entities after [addEntity]: the ids before, and the
    returned id when the call added a row. *)
Lemma addEntity_ids (name : string) (type : option EntityType)
      (confidence : option num) (this : CortexPool num) :
  let after := snd (addEntity name type confidence this) in
  let ids := map (@Entity.id num) (entities (db this)) in
  (map (@Entity.id num) (entities (db after)) = ids
   \/ map (@Entity.id num) (entities (db after))
      = ids ++ [fst (addEntity name type confidence this)])
  /\ In (fst (addEntity name type confidence this))
        (map (@Entity.id num) (entities (db after))).
Proof.
  cbv zeta.
  destruct (addEntity_entities name type confidence this) as (_ & _ & Hcase).
  destruct (sql_get _ (entities (db this))) as [existing|] eqn:E.
  - destruct Hcase as (-> & c & t' & -> & Ht').
    rewrite (entity_updates_keep _ (@Entity.id num) _
               (Entity.aliases existing ++ [name]) _ (entities (db this)))
      by (reflexivity || tauto).
    split; [now left|].
    apply find_some in E. destruct E as [Hin _]. now apply in_map.
  - destruct Hcase as (Hid & row & -> & Hrow & _).
    unfold sql_insert. rewrite map_app. simpl. rewrite Hrow.
    split; [now right|]. apply in_or_app. right. now left.
Qed.

Lemma addEntity_in_id_order (name : string) (type : option EntityType)
      (confidence : option num) (this : CortexPool num) :
  entities_in_id_order this ->
  entities_in_id_order (snd (addEntity name type confidence this)).
Proof.
  unfold entities_in_id_order. intros Hs.
  destruct (addEntity_entities name type confidence this) as (_ & _ & Hcase).
  destruct (sql_get _ (entities (db this))) as [existing|] eqn:E.
  - destruct Hcase as (_ & c & t' & -> & Ht').
    apply (sorted_same_keys _ (@Entity.id num) (entities (db this))); [|exact Hs].
    apply (entity_updates_keep _ (@Entity.id num) _
             (Entity.aliases existing ++ [name])); (reflexivity || tauto).
  - destruct Hcase as (Hid & row & -> & Hrow & _).
    apply (sorted_insert _ (@Entity.id num) (entities_seq (db this))); [exact Hs|].
    congruence.
Qed.

Lemma addEntity_canonical_names_unique (name : string) (type : option EntityType)
      (confidence : option num) (this : CortexPool num) :
  canonical_names_unique this ->
  canonical_names_unique (snd (addEntity name type confidence this)).
Proof.
  unfold canonical_names_unique. intros Hu.
  destruct (addEntity_entities name type confidence this) as (_ & _ & Hcase).
  destruct (sql_get _ (entities (db this))) as [existing|] eqn:E.
  - destruct Hcase as (_ & c & t' & -> & Ht').
    rewrite (entity_updates_keep _ (@Entity.canonicalName num) _
               (Entity.aliases existing ++ [name]) _ (entities (db this)))
      by (reflexivity || tauto).
    exact Hu.
  - destruct Hcase as (_ & row & -> & _ & Hcanon & _).
    unfold sql_insert. rewrite map_app. simpl.
    apply NoDup_app; [exact Hu | repeat constructor; intros [] |].
    intros c Hc [<-|[]]. apply in_map_iff in Hc. destruct Hc as (e & Hce & He).
    apply (find_none _ _ E) in He. simpl in He.
    apply String.eqb_neq in He. congruence.
Qed.

(** A look-up by canonical name finds a row of the same id after
    [addEntity], whatever name was added. *)
Lemma addEntity_keeps_canonical (name : string) (type : option EntityType)
      (confidence : option num) (this : CortexPool num)
      (c : string) (e : Entity.t num) :
  sql_get (canonical c) (entities (db this)) = Some e ->
  exists e',
    sql_get (canonical c)
            (entities (db (snd (addEntity name type confidence this)))) = Some e'
    /\ Entity.id e' = Entity.id e.
Proof.
  intros Hget.
  destruct (addEntity_entities name type confidence this) as (_ & _ & Hcase).
  destruct (sql_get (canonical (normalizeName name)) (entities (db this)))
    as [existing|] eqn:E.
  - destruct Hcase as (_ & conf & t' & -> & [[-> _]| ->]);
      rewrite !sql_get_update_stable by reflexivity; rewrite Hget; simpl;
      (eexists; split; [reflexivity|]);
      destruct (Entity.id e =? Entity.id existing); simpl;
      try destruct (_ =? _); reflexivity.
  - destruct Hcase as (_ & row & -> & _).
    rewrite sql_get_insert, Hget. eauto.
Qed.

Lemma getEntity_stored (i : Z) (this : CortexPool num) :
  getEntity i this <> None <-> In i (map (@Entity.id num) (entities (db this))).
Proof. unfold getEntity. apply (sql_get_key _ (@Entity.id num)). Qed.

Lemma addEntity_keeps_ids (name : string) (type : option EntityType)
      (confidence : option num) (this : CortexPool num) (i : Z) :
  getEntity i this <> None ->
  getEntity i (snd (addEntity name type confidence this)) <> None.
Proof.
  rewrite !getEntity_stored. intros Hi.
  destruct (addEntity_ids name type confidence this) as [[->| ->] _];
    [exact Hi | apply in_or_app; now left].
Qed.

Lemma addEntity_returns_stored_id (name : string) (type : option EntityType)
      (confidence : option num) (this : CortexPool num) :
  getEntity (fst (addEntity name type confidence this))
            (snd (addEntity name type confidence this)) <> None.
Proof. rewrite getEntity_stored. apply addEntity_ids. Qed.

(** After [addEntity](name), the look-up by the normalized name finds the
    entity of the returned id, with the name among its aliases. *)
Lemma addEntity_canonical_lookup (name : string) (type : option EntityType)
      (confidence : option num) (this : CortexPool num) :
  exists e,
    sql_get (canonical (normalizeName name))
            (entities (db (snd (addEntity name type confidence this)))) = Some e
    /\ Entity.id e = fst (addEntity name type confidence this)
    /\ Entity.canonicalName e = normalizeName name
    /\ In name (Entity.aliases e).
Proof.
  destruct (addEntity_entities name type confidence this) as (_ & _ & Hcase).
  destruct (sql_get _ (entities (db this))) as [existing|] eqn:E.
  - pose proof E as Hfound. apply find_some in Hfound.
    destruct Hfound as [_ Hc]. apply String.eqb_eq in Hc.
    destruct Hcase as (-> & conf & t' & -> & [[-> Hin]| ->]);
      rewrite !sql_get_update_stable by reflexivity; rewrite E; simpl;
      rewrite ?Z.eqb_refl; simpl; rewrite ?Z.eqb_refl;
      (eexists; split; [reflexivity|]); simpl; auto.
    split; [reflexivity|]. split; [exact Hc|]. apply in_or_app. right. now left.
  - destruct Hcase as (_ & row & -> & Hid & Hcanon & Haliases).
    rewrite sql_get_insert, E. rewrite Hcanon, String.eqb_refl.
    exists row. rewrite Haliases. simpl. auto.
Qed.

(* resolveEntity returns what the look-up by canonical name finds *)
Lemma resolveEntity_canonical (query : string) (this : CortexPool num)
      (e : Entity.t num) :
  sql_get (canonical (normalizeName query)) (entities (db this)) = Some e ->
  resolveEntity query this = Some e.
Proof. intros Hget. unfold resolveEntity. cbv zeta. now rewrite Hget. Qed.
End EntityStore.

(** X6.  After [addEntity](name), [resolveEntity](name) returns an entity:
    the one whose id the call returned; its canonical name is the normalized
    name, and the name is among its aliases. *)
Theorem addEntity_then_resolveEntity
        (num : Type) (N : Number num)
        (name : string) (type : option EntityType) (confidence : option num)
        (this : CortexPool num) :
  exists e,
    resolveEntity name (snd (addEntity name type confidence this)) = Some e
    /\ Entity.id e = fst (addEntity name type confidence this)
    /\ Entity.canonicalName e = normalizeName name
    /\ In name (Entity.aliases e).
Proof.
  destruct (addEntity_canonical_lookup name type confidence this)
    as (e & Hget & Hrest).
  exists e. split; [now apply resolveEntity_canonical | exact Hrest].
Qed.

(** X7.  [addEntity] keeps what the schema declares of the entities table:
    rows in the order of their ids, and no canonical name on two rows.  It
    drops no entity id, and it leaves the facts table alone. *)
Theorem addEntity_keeps_entities_table
        (num : Type) (N : Number num)
        (name : string) (type : option EntityType) (confidence : option num)
        (this : CortexPool num) :
  entities_in_id_order this -> canonical_names_unique this ->
  let after := snd (addEntity name type confidence this) in
  entities_in_id_order after
  /\ canonical_names_unique after
  /\ (forall i, getEntity i this <> None -> getEntity i after <> None)
  /\ getEntity (fst (addEntity name type confidence this)) after <> None
  /\ facts (db after) = facts (db this).
Proof.
  intros Hs Hu after. subst after.
  split; [now apply addEntity_in_id_order|].
  split; [now apply addEntity_canonical_names_unique|].
  split; [intros i; apply addEntity_keeps_ids|].
  split; [apply addEntity_returns_stored_id|].
  now destruct (addEntity_entities name type confidence this) as (Hf & _).
Qed.

(** ** Facts: [addFact], [bulkAdd], [useFact], [cleanupExpiredEpisodic] *)

Section FactsTable.
Context {num : Type} `{Number num}.

Lemma addFact_object_facts (params : AddFactParams.t num) (this : CortexPool num) :
  facts (db (snd (addFact_object params this))) = facts (db this)
  /\ facts_seq (db (snd (addFact_object params this))) = facts_seq (db this).
Proof.
  unfold addFact_object, addFact_subject.
  destruct (addEntity_entities
              (AddFactParams.subject params)
              (Some (inferType (AddFactParams.predicate params)))
              (Some (or_default (lit 0.7) (AddFactParams.confidence params))) this)
    as (Hf & Hs & _).
  destruct (AddFactParams.object params) as [o|]; [|auto].
  destruct (Nat.eqb (String.length o) 0); [auto|]. simpl.
  match goal with
  | |- context [addEntity o ?t ?c ?s] =>
      destruct (addEntity_entities o t c s) as (Hf' & Hs' & _)
  end.
  split; congruence.
Qed.

(** What [addFact] does: one row appended to the facts table, under a
    fresh id, which is returned; the entities are those the two calls of
    [addEntity] leave. *)
Lemma addFact_effect (params : AddFactParams.t num) (this : CortexPool num) :
  let after := snd (addFact params this) in
  let tier := or_default semantic (AddFactParams.tier params) in
  exists lastUsed createdAt ttl,
    let fact :=
      Fact.mk (next_rowid (facts_seq (db this))
                          (map (@Fact.id num) (facts (db this))))
              (fst (addFact_subject params this))
              (AddFactParams.predicate params)
              (fst (addFact_object params this))
              (AddFactParams.content params) tier
              (baseImportance (TIER_CONFIG tier))
              (or_default (lit 0.7) (AddFactParams.confidence params))
              (or_default "conversation"%string (AddFactParams.source params))
              lastUsed 0 createdAt ttl in
    facts (db after) = sql_insert fact (facts (db this))
    /\ fst (addFact params this) = Fact.id fact
    /\ entities (db after) = entities (db (snd (addFact_object params this))).
Proof.
  cbv zeta.
  destruct (addFact_object_facts params this) as [Hf Hs].
  unfold addFact. fold (addFact_subject params this).
  unfold addFact_object in *.
  destruct (addFact_subject params this) as [subjectId this1]. cbn [fst snd] in *.
  destruct (AddFactParams.object params) as [o|].
  - destruct (Nat.eqb (String.length o) 0).
    + cbn [fst snd] in *. unfold Date_now. simpl. rewrite Hf, Hs.
      eexists. eexists. eexists. split; [reflexivity|]. split; reflexivity.
    + destruct (addEntity o _ _ this1) as [objectId this2].
      cbn [fst snd] in *. unfold Date_now. simpl. rewrite Hf, Hs.
      eexists. eexists. eexists. split; [reflexivity|]. split; reflexivity.
  - cbn [fst snd] in *. unfold Date_now. simpl. rewrite Hf, Hs.
    eexists. eexists. eexists. split; [reflexivity|]. split; reflexivity.
Qed.

Lemma addFact_object_keeps_ids (params : AddFactParams.t num)
      (this : CortexPool num) (i : Z) :
  getEntity i this <> None ->
  getEntity i (snd (addFact_object params this)) <> None.
Proof.
  intros Hi. unfold addFact_object.
  assert (H1 : getEntity i (snd (addFact_subject params this)) <> None)
    by now apply addEntity_keeps_ids.
  destruct (AddFactParams.object params) as [o|]; [|exact H1].
  destruct (Nat.eqb (String.length o) 0); [exact H1|].
  now apply addEntity_keeps_ids.
Qed.

Lemma addFact_object_subject_stored (params : AddFactParams.t num)
      (this : CortexPool num) :
  getEntity (fst (addFact_subject params this))
            (snd (addFact_object params this)) <> None.
Proof.
  unfold addFact_object.
  pose proof (addEntity_returns_stored_id
                (AddFactParams.subject params)
                (Some (inferType (AddFactParams.predicate params)))
                (Some (or_default (lit 0.7) (AddFactParams.confidence params)))
                this) as H1.
  fold (addFact_subject params this) in H1.
  destruct (AddFactParams.object params) as [o|]; [|exact H1].
  destruct (Nat.eqb (String.length o) 0); [exact H1|].
  now apply addEntity_keeps_ids.
Qed.

Lemma addFact_object_stored (params : AddFactParams.t num)
      (this : CortexPool num) (o : Z) :
  fst (addFact_object params this) = Some o ->
  getEntity o (snd (addFact_object params this)) <> None.
Proof.
  unfold addFact_object.
  destruct (AddFactParams.object params) as [name|]; [|discriminate].
  destruct (Nat.eqb (String.length name) 0); [discriminate|].
  cbn [fst snd]. intros [= <-]. apply addEntity_returns_stored_id.
Qed.

Lemma addFact_object_in_id_order (params : AddFactParams.t num)
      (this : CortexPool num) :
  entities_in_id_order this ->
  entities_in_id_order (snd (addFact_object params this)).
Proof.
  intros Hs. unfold addFact_object.
  assert (H1 : entities_in_id_order (snd (addFact_subject params this)))
    by now apply addEntity_in_id_order.
  destruct (AddFactParams.object params) as [o|]; [|exact H1].
  destruct (Nat.eqb (String.length o) 0); [exact H1|].
  now apply addEntity_in_id_order.
Qed.

Lemma addFact_object_canonical_names_unique (params : AddFactParams.t num)
      (this : CortexPool num) :
  canonical_names_unique this ->
  canonical_names_unique (snd (addFact_object params this)).
Proof.
  intros Hs. unfold addFact_object.
  assert (H1 : canonical_names_unique (snd (addFact_subject params this)))
    by now apply addEntity_canonical_names_unique.
  destruct (AddFactParams.object params) as [o|]; [|exact H1].
  destruct (Nat.eqb (String.length o) 0); [exact H1|].
  now apply addEntity_canonical_names_unique.
Qed.

Lemma getEntity_same_entities (i : Z) (this this' : CortexPool num) :
  entities (db this') = entities (db this) -> getEntity i this' = getEntity i this.
Proof. intros He. unfold getEntity. now rewrite He. Qed.

Lemma addFact_consistent (params : AddFactParams.t num) (this : CortexPool num) :
  store_consistent this -> store_consistent (snd (addFact params this)).
Proof.
  intros (He & Hf & Hu & Hr).
  destruct (addFact_effect params this) as (lastUsed & createdAt & ttl & Hfacts & Hid & Hents).
  cbv zeta in *. unfold store_consistent.
  split; [|split; [|split]].
  - unfold entities_in_id_order. rewrite Hents.
    now apply addFact_object_in_id_order.
  - unfold facts_in_id_order. rewrite Hfacts.
    apply (sorted_insert _ (@Fact.id num) (facts_seq (db this))); [exact Hf|].
    reflexivity.
  - unfold canonical_names_unique. rewrite Hents.
    now apply addFact_object_canonical_names_unique.
  - intros f Hin. rewrite Hfacts in Hin. unfold sql_insert in Hin.
    rewrite !(getEntity_same_entities _ _ _ Hents).
    apply in_app_or in Hin. destruct Hin as [Hin|[<-|[]]].
    + destruct (Hr f Hin) as [Hsub Hobj]. split.
      * now apply addFact_object_keeps_ids.
      * intros o Ho. rewrite (getEntity_same_entities _ _ _ Hents).
        apply addFact_object_keeps_ids. now apply Hobj.
    + simpl. split; [apply addFact_object_subject_stored|].
      intros o Ho. rewrite (getEntity_same_entities _ _ _ Hents).
      now apply addFact_object_stored.
Qed.


(* in a table without repeated keys, two rows of the same key are one *)
Lemma same_key_same_row (Row : Type) (key : Row -> Z) (t : list Row) (a b : Row) :
  NoDup (map key t) -> In a t -> In b t -> key a = key b -> a = b.
Proof.
  intros Hnd Ha Hb Hk.
  pose proof (find_unique _ key a t Hnd Ha) as H1.
  pose proof (find_unique _ key b t Hnd Hb) as H2.
  rewrite Hk in H1. congruence.
Qed.
End FactsTable.

(** X8.  [addFact] appends one row to the facts table and returns its id,
    which is above every id the table held.  The row carries the given
    predicate and content, the base importance of its tier, the given
    confidence (0.7 by default) and use count 0; its subject is the entity
    the subject name resolves to afterwards, and so is its object when an
    object name that is not empty was given (it is null otherwise). *)
Theorem addFact_appends_row
        (num : Type) (N : Number num)
        (params : AddFactParams.t num) (this : CortexPool num) :
  let after := snd (addFact params this) in
  exists fact,
    facts (db after) = facts (db this) ++ [fact]
    /\ Fact.id fact = fst (addFact params this)
    /\ (forall f, In f (facts (db this)) -> Fact.id f < Fact.id fact)
    /\ Fact.predicate fact = AddFactParams.predicate params
    /\ Fact.content fact = AddFactParams.content params
    /\ Fact.importance fact
       = baseImportance (TIER_CONFIG (or_default semantic (AddFactParams.tier params)))
    /\ Fact.confidence fact = or_default (lit 0.7) (AddFactParams.confidence params)
    /\ Fact.useCount fact = 0
    /\ option_map (@Entity.id num) (resolveEntity (AddFactParams.subject params) after)
       = Some (Fact.subjectId fact)
    /\ match AddFactParams.object params with
       | Some o =>
           if Nat.eqb (String.length o) 0 then Fact.objectId fact = None
           else option_map (@Entity.id num) (resolveEntity o after)
                = Fact.objectId fact
       | None => Fact.objectId fact = None
       end.
Proof.
  cbv zeta.
  destruct (addFact_effect params this)
    as (lastUsed & createdAt & ttl & Hfacts & Hid & Hents).
  cbv zeta in *. eexists. split; [exact Hfacts|].
  split; [now rewrite Hid|].
  split.
  { intros f Hf. simpl. apply next_rowid_fresh. now apply in_map. }
  do 5 (split; [reflexivity|]). simpl.
  assert (Hres : forall q e, sql_get (fun e => String.eqb (Entity.canonicalName e)
                                                          (normalizeName q))
                                     (entities (db (snd (addFact_object params this))))
                             = Some e ->
                             resolveEntity q (snd (addFact params this)) = Some e).
  { intros q e Hq. unfold resolveEntity. cbv zeta. rewrite Hents. now rewrite Hq. }
  destruct (addEntity_canonical_lookup
              (AddFactParams.subject params)
              (Some (inferType (AddFactParams.predicate params)))
              (Some (or_default (lit 0.7) (AddFactParams.confidence params))) this)
    as (e & Hget & He & _).
  fold (addFact_subject params this) in Hget, He.
  unfold addFact_object in *.
  destruct (AddFactParams.object params) as [o|].
  - destruct (Nat.eqb (String.length o) 0).
    + cbn [fst snd] in *. rewrite (Hres _ e Hget). simpl. now rewrite He.
    + cbn [fst snd] in *. split.
      * destruct (addEntity_keeps_canonical
                    o (Some other)
                    (Some (or_default (lit 0.7) (AddFactParams.confidence params)))
                    (snd (addFact_subject params this)) _ e Hget)
          as (e' & Hget' & He').
        rewrite (Hres _ e' Hget'). simpl. congruence.
      * destruct (addEntity_canonical_lookup
                    o (Some other)
                    (Some (or_default (lit 0.7) (AddFactParams.confidence params)))
                    (snd (addFact_subject params this)))
          as (eo & Hgeto & Heo & _).
        rewrite (Hres _ eo Hgeto). simpl. now rewrite Heo.
  - cbn [fst snd] in *. rewrite (Hres _ e Hget). simpl. now rewrite He.
Qed.

(** X9.  [bulkAdd] keeps what the schema declares: starting from a store
    with both tables in id order, canonical names unique and every subject
    and object of a fact present among the entities, the store it leaves
    has the same properties, whatever facts are added. *)
Theorem bulkAdd_keeps_store_consistent
        (num : Type) (N : Number num)
        (facts : list (AddFactParams.t num)) (this : CortexPool num) :
  store_consistent this -> store_consistent (bulkAdd facts this).
Proof.
  unfold bulkAdd. revert this.
  induction facts as [|fact facts IH]; intros this Hc; simpl; [exact Hc|].
  apply IH. now apply addFact_consistent.
Qed.

Section Usage.
Context {num : Type} `{Number num}.

Lemma Math_min_at_most (O : NumberOrder (num := num)) (a b : num) :
  (a <? Math_min a b)%num = false.
Proof.
  unfold Math_min. destruct (b <? a)%num eqn:E.
  - now apply nltb_asym.
  - destruct (a <? a)%num eqn:Ea; [|reflexivity].
    pose proof (nltb_asym a a Ea). congruence.
Qed.

End Usage.

(** X10.  Fact ids being unique, [useFact] on a stored fact stores it with
    its importance raised by 0.1 and capped at 1.0 (the new importance is
    never above 1.0), its use count raised by one and lastUsed set to the
    time of the call; no other fact and no entity changes. *)
Theorem useFact_stored_fact
        (num : Type) (N : Number num) (O : @NumberOrder num N)
        (this : CortexPool num) (fact : Fact.t num) :
  NoDup (map (@Fact.id num) (facts (db this))) ->
  In fact (facts (db this)) ->
  let after := useFact (Fact.id fact) this in
  let now := reading (clock this) (elapsed (clock this)) in
  let newImportance := Math_min (lit 1.0) (Fact.importance fact + lit 0.1)%num in
  getFact (Fact.id fact) after
  = Some (fact_set_useCount (Fact.useCount fact + 1)
            (fact_set_lastUsed now (fact_set_importance newImportance fact)))
  /\ (lit 1.0 <? newImportance)%num = false
  /\ (forall k, k <> Fact.id fact -> getFact k after = getFact k this)
  /\ entities (db after) = entities (db this).
Proof.
  intros Hnd Hin after now newImportance. subst after.
  unfold useFact, getFact.
  rewrite (find_unique _ (@Fact.id num) fact _ Hnd Hin).
  unfold Date_now. simpl.
  split; [|split; [|split]].
  - rewrite (find_update_same _ (@Fact.id num)) by reflexivity.
    now rewrite (find_unique _ (@Fact.id num) fact _ Hnd Hin).
  - apply Math_min_at_most. exact O.
  - intros k Hk. now apply (find_update_other _ (@Fact.id num)).
  - reflexivity.
Qed.


(** ** Topics and activation *)

Section MapLaws.
Variable V : Type.

Lemma map_get_map_set (k k' : Z) (v : V) (m : list (Z * V)) :
  map_get k (map_set k' v m) = if k' =? k then Some v else map_get k m.
Proof.
  induction m as [|[k0 v0] m IH]; simpl; [reflexivity|].
  destruct (k0 =? k') eqn:E0; simpl.
  - apply Z.eqb_eq in E0. subst k0. now destruct (k' =? k).
  - rewrite IH. destruct (k0 =? k) eqn:Ek; [|reflexivity].
    apply Z.eqb_eq in Ek. subst k0. now rewrite Z.eqb_sym, E0.
Qed.

Lemma map_get_map_delete (k k' : Z) (m : list (Z * V)) :
  map_get k (map_delete k' m) = if k' =? k then None else map_get k m.
Proof.
  unfold map_delete. induction m as [|[k0 v0] m IH]; simpl.
  - now destruct (k' =? k).
  - destruct (k0 =? k') eqn:E0; simpl.
    + rewrite IH. apply Z.eqb_eq in E0. subst k0.
      now destruct (k' =? k).
    + rewrite IH. destruct (k0 =? k) eqn:Ek; [|reflexivity].
      apply Z.eqb_eq in Ek. subst k0. now rewrite Z.eqb_sym, E0.
Qed.

Lemma map_get_In (k : Z) (v : V) (m : list (Z * V)) :
  NoDup (map fst m) -> In (k, v) m -> map_get k m = Some v.
Proof.
  induction m as [|[k0 v0] m IH]; simpl; intros Hnd Hin; [destruct Hin|].
  inversion Hnd as [|? ? Hx Hnd']; subst.
  destruct Hin as [[= -> ->]|Hin]; [now rewrite Z.eqb_refl|].
  destruct (k0 =? k) eqn:E; [|now apply IH].
  apply Z.eqb_eq in E. subst k0. exfalso. apply Hx.
  now apply (in_map fst) in Hin.
Qed.

Lemma map_get_absent (k : Z) (m : list (Z * V)) :
  ~ In k (map fst m) -> map_get k m = None.
Proof.
  induction m as [|[k0 v0] m IH]; simpl; intros Hn; [reflexivity|].
  destruct (k0 =? k) eqn:E; [|apply IH; tauto].
  apply Z.eqb_eq in E. tauto.
Qed.
End MapLaws.

Section TopicsAndActivation.
Context {num : Type} `{Number num}.

Lemma resolveEntity_same_entities (query : string) (this this' : CortexPool num) :
  entities (db this') = entities (db this) ->
  resolveEntity query this' = resolveEntity query this.
Proof.
  intros He. unfold resolveEntity, findFuzzyMatches. cbv zeta. now rewrite He.
Qed.

Lemma setTopics_step_frame (now : Z) (this : CortexPool num) (topic : string) :
  entities (db (setTopics_step now this topic)) = entities (db this)
  /\ facts (db (setTopics_step now this topic)) = facts (db this)
  /\ currentTopics (setTopics_step now this topic) = currentTopics this
  /\ topics_table (setTopics_step now this topic)
     = upsert_topic topic now (topics_table this)
  /\ activationLevels (setTopics_step now this topic)
     = match resolveEntity topic this with
       | Some entity => map_set (Entity.id entity) (lit 1.0) (activationLevels this)
       | None => activationLevels this
       end.
Proof.
  unfold setTopics_step. cbv zeta.
  rewrite (resolveEntity_same_entities topic this) by reflexivity.
  destruct (resolveEntity topic this); simpl; auto.
Qed.

Lemma setTopics_fold (now : Z) (topics : list string) :
  forall (this0 this : CortexPool num) (id : Z),
    entities (db this) = entities (db this0) ->
    let after := fold_left (setTopics_step now) topics this in
    entities (db after) = entities (db this0)
    /\ currentTopics after = currentTopics this
    /\ map_get id (activationLevels after)
       = if existsb (fun topic =>
                       match resolveEntity topic this0 with
                       | Some entity => Entity.id entity =? id
                       | None => false
                       end) topics
         then Some (lit 1.0)
         else map_get id (activationLevels this).
Proof.
  induction topics as [|topic topics IH]; intros this0 this id He; simpl; [auto|].
  destruct (setTopics_step_frame now this topic) as (Hents & _ & Htopics & _ & Hlevels).
  destruct (IH this0 (setTopics_step now this topic) id) as (IH1 & IH2 & IH3);
    [congruence|].
  split; [exact IH1|]. split; [congruence|].
  rewrite IH3, Hlevels.
  rewrite (resolveEntity_same_entities topic this0 this He).
  destruct (existsb _ topics); [now rewrite orb_true_r|]. rewrite orb_false_r.
  destruct (resolveEntity topic this0) as [entity|]; [|reflexivity].
  apply map_get_map_set.
Qed.

Lemma upsert_topic_names (topic : string) (now : Z) (table : list (Topic.t num)) :
  map (@Topic.topic num) (upsert_topic topic now table)
  = if existsb (fun r => String.eqb (Topic.topic r) topic) table
    then map (@Topic.topic num) table
    else map (@Topic.topic num) table ++ [topic].
Proof.
  unfold upsert_topic. destruct (existsb _ table).
  - unfold sql_update. rewrite map_map. apply map_ext. intros r.
    now destruct (String.eqb (Topic.topic r) topic).
  - unfold sql_insert. now rewrite map_app.
Qed.

Lemma upsert_topic_seen (topic : string) (now : Z) (table : list (Topic.t num)) :
  seen_at now topic (upsert_topic topic now table).
Proof.
  unfold upsert_topic, seen_at.
  destruct (existsb _ table) eqn:E.
  - apply existsb_exists in E. destruct E as (r & Hr & Ht).
    exists (Topic.mk (Topic.topic r) (Topic.canonicalTopic r)
                     (Topic.weight r * lit 0.9 + lit 1.0)%num now).
    split; [|apply String.eqb_eq in Ht; auto].
    unfold sql_update. apply in_map_iff. exists r. now rewrite Ht.
  - eexists. split; [apply in_or_app; right; now left|]. auto.
Qed.

Lemma upsert_topic_keeps_seen (topic topic' : string) (now : Z)
      (table : list (Topic.t num)) :
  seen_at now topic table -> seen_at now topic (upsert_topic topic' now table).
Proof.
  intros (r & Hr & Ht & Hn). unfold upsert_topic, seen_at.
  destruct (existsb _ table).
  - destruct (String.eqb (Topic.topic r) topic') eqn:E.
    + exists (Topic.mk (Topic.topic r) (Topic.canonicalTopic r)
                       (Topic.weight r * lit 0.9 + lit 1.0)%num now).
      split; [|auto]. unfold sql_update. apply in_map_iff. exists r. now rewrite E.
    + exists r. split; [|auto]. unfold sql_update. apply in_map_iff.
      exists r. now rewrite E.
  - exists r. split; [apply in_or_app; now left | auto].
Qed.

Lemma upsert_topic_keeps_others (topic' : string) (now : Z)
      (table : list (Topic.t num)) (r : Topic.t num) :
  In r table -> Topic.topic r <> topic' -> In r (upsert_topic topic' now table).
Proof.
  intros Hr Hne. unfold upsert_topic. destruct (existsb _ table).
  - unfold sql_update. apply in_map_iff. exists r.
    apply String.eqb_neq in Hne. now rewrite Hne.
  - apply in_or_app. now left.
Qed.

Lemma upsert_topic_unique (topic : string) (now : Z) (table : list (Topic.t num)) :
  NoDup (map (@Topic.topic num) table) ->
  NoDup (map (@Topic.topic num) (upsert_topic topic now table)).
Proof.
  intros Hnd. rewrite upsert_topic_names.
  destruct (existsb _ table) eqn:E; [exact Hnd|].
  apply NoDup_app; [exact Hnd | repeat constructor; intros [] |].
  intros t Ht [<-|[]]. apply in_map_iff in Ht. destruct Ht as (r & Hrt & Hr).
  assert (Hex : existsb (fun r => String.eqb (Topic.topic r) topic) table = true).
  { apply existsb_exists. exists r. split; [exact Hr|].
    rewrite Hrt. apply String.eqb_refl. }
  congruence.
Qed.

Lemma setTopics_table_fold (now : Z) (topics : list string) :
  forall this : CortexPool num,
    let after := fold_left (setTopics_step now) topics this in
    (forall topic, In topic topics \/ seen_at now topic (topics_table this) ->
                   seen_at now topic (topics_table after))
    /\ (forall r, In r (topics_table this) -> ~ In (Topic.topic r) topics ->
                  In r (topics_table after))
    /\ (NoDup (map (@Topic.topic num) (topics_table this)) ->
        NoDup (map (@Topic.topic num) (topics_table after))).
Proof.
  induction topics as [|topic topics IH]; intros this; simpl.
  - split; [intros t [[]|Ht]; exact Ht|]. auto.
  - destruct (setTopics_step_frame now this topic) as (_ & _ & _ & Htable & _).
    destruct (IH (setTopics_step now this topic)) as (IH1 & IH2 & IH3).
    rewrite Htable in IH1, IH2, IH3.
    split; [|split].
    + intros t [[<-|Ht]|Ht].
      * apply IH1. right. apply upsert_topic_seen.
      * apply IH1. now left.
      * apply IH1. right. now apply upsert_topic_keeps_seen.
    + intros r Hr Hn. simpl in Hn. apply IH2; [|tauto].
      apply upsert_topic_keeps_others; [exact Hr|].
      intros E. apply Hn. left. now symmetry.
    + intros Hnd. apply IH3. now apply upsert_topic_unique.
Qed.

Lemma setTopics_unfold (topics : list string) (this : CortexPool num) :
  setTopics topics this
  = fold_left (setTopics_step (reading (clock this) (elapsed (clock this))))
              topics
              (snd (Date_now (set_activationLevels [] (set_currentTopics topics this)))).
Proof. reflexivity. Qed.
End TopicsAndActivation.

(** X12.  After [setTopics](topics) the current topics are the given ones,
    and the activation levels are exactly these: level 1.0 for every entity
    that one of the topics resolves to, and no level for any other id.  The
    entities and the facts are untouched. *)
Theorem setTopics_activates_resolved_entities
        (num : Type) (N : Number num)
        (topics : list string) (this : CortexPool num) (id : Z) :
  let after := setTopics topics this in
  currentTopics after = topics
  /\ map_get id (activationLevels after)
     = (if existsb (fun topic =>
                      match resolveEntity topic this with
                      | Some entity => Entity.id entity =? id
                      | None => false
                      end) topics
        then Some (lit 1.0) else None)
  /\ entities (db after) = entities (db this)
  /\ facts (db after) = facts (db this).
Proof.
  cbv zeta. rewrite setTopics_unfold.
  destruct (setTopics_fold (reading (clock this) (elapsed (clock this))) topics this
              (snd (Date_now (set_activationLevels [] (set_currentTopics topics this))))
              id eq_refl) as (He & Ht & Hl).
  split; [exact Ht|]. split; [exact Hl|]. split; [exact He|].
  rewrite <- setTopics_unfold. apply setTopics_facts.
Qed.

(** X13.  After [setTopics](topics) every given topic has a row in the
    topics table with lastSeen the time of the call; the rows of the topics
    not given are as they were; and when no topic had two rows before, none
    has two after. *)
Theorem setTopics_records_topics
        (num : Type) (N : Number num)
        (topics : list string) (this : CortexPool num) :
  let after := setTopics topics this in
  let now := reading (clock this) (elapsed (clock this)) in
  (forall topic, In topic topics ->
                 exists r, In r (topics_table after)
                           /\ Topic.topic r = topic /\ Topic.lastSeen r = now)
  /\ (forall r, In r (topics_table this) -> ~ In (Topic.topic r) topics ->
                In r (topics_table after))
  /\ (NoDup (map (@Topic.topic num) (topics_table this)) ->
      NoDup (map (@Topic.topic num) (topics_table after))).
Proof.
  cbv zeta. rewrite setTopics_unfold.
  destruct (setTopics_table_fold (reading (clock this) (elapsed (clock this))) topics
              (snd (Date_now (set_activationLevels [] (set_currentTopics topics this)))))
    as (H1 & H2 & H3).
  split; [|split].
  - intros topic Ht. apply H1. now left.
  - exact H2.
  - exact H3.
Qed.

Section ActivationHistory.
Context {num : Type} `{Number num}.

Lemma slice_last_length (A : Type) (n : Z) (l : list A) :
  List.length (slice_last n l) = Nat.min (Z.to_nat n) (List.length l).
Proof. unfold slice_last. rewrite length_skipn. lia. Qed.

Lemma slice_last_keeps_tail (A : Type) (n : Z) (l1 l2 : list A) (x : A) :
  Z.of_nat (List.length l2) <= n -> In x l2 -> In x (slice_last n (l1 ++ l2)).
Proof.
  intros Hn Hx. unfold slice_last.
  rewrite length_app, skipn_app. apply in_or_app. right.
  replace (List.length l1 + List.length l2 - Z.to_nat n - List.length l1)%nat
    with O by lia.
  exact Hx.
Qed.

(* the in-memory history after recordActivationHistory *)
Lemma recordActivationHistory_history (this : CortexPool num) :
  let now := reading (clock this) (elapsed (clock this)) in
  let appended :=
    activationHistory this
    ++ map (fun entry : Z * num =>
              ActivationHistoryEntry.mk (fst entry) (snd entry) now "spread")
           (activationLevels this) in
  activationHistory (recordActivationHistory this)
  = (if maxActivationHistory this <? Z.of_nat (List.length appended)
     then slice_last (maxActivationHistory this) appended
     else appended)
  /\ maxActivationHistory (recordActivationHistory this) = maxActivationHistory this
  /\ activationLevels (recordActivationHistory this) = activationLevels this.
Proof.
  unfold recordActivationHistory, Date_now. simpl.
  destruct (_ <? _); simpl; auto.
Qed.

Lemma recordActivationHistory_bounded (this : CortexPool num) :
  0 < maxActivationHistory this ->
  Z.of_nat (List.length (activationHistory (recordActivationHistory this)))
  <= maxActivationHistory this.
Proof.
  intros Hmax.
  destruct (recordActivationHistory_history this) as (-> & _). cbv zeta.
  destruct (_ <? _) eqn:E.
  - rewrite slice_last_length. lia.
  - apply Z.ltb_ge in E. exact E.
Qed.

Lemma spread_layer_frame (decay : num) (this : CortexPool num) (d : nat) :
  maxActivationHistory (spread_layer decay this d) = maxActivationHistory this
  /\ activationHistory (spread_layer decay this d) = activationHistory this.
Proof.
  unfold spread_layer. split.
  - apply (fold_left_frame _ _ _ (fun s : CortexPool num => maxActivationHistory s)).
    intros s [id level]. reflexivity.
  - apply (fold_left_frame _ _ _ (fun s : CortexPool num => activationHistory s)).
    intros s [id level]. reflexivity.
Qed.

Lemma applyActivationDecay_frame (now : Z) (this : CortexPool num) :
  maxActivationHistory (applyActivationDecay now this) = maxActivationHistory this
  /\ activationHistory (applyActivationDecay now this) = activationHistory this.
Proof.
  unfold applyActivationDecay. split.
  - apply (fold_left_frame _ _ _ (fun s : CortexPool num => maxActivationHistory s)).
    intros s [entityId activation].
    destruct (Nat.eqb _ 0); [|reflexivity]. now destruct (_ <? _)%num.
  - apply (fold_left_frame _ _ _ (fun s : CortexPool num => activationHistory s)).
    intros s [entityId activation].
    destruct (Nat.eqb _ 0); [|reflexivity]. now destruct (_ <? _)%num.
Qed.

Lemma setTopics_maxActivationHistory (topics : list string) (this : CortexPool num) :
  maxActivationHistory (setTopics topics this) = maxActivationHistory this.
Proof.
  unfold setTopics, Date_now. simpl.
  rewrite (fold_left_frame _ _ _ (fun s : CortexPool num => maxActivationHistory s));
    [reflexivity|].
  intros s topic. simpl. now destruct (resolveEntity topic _).
Qed.

Lemma spreadActivation_bounded (depth : nat) (decay : num) (this : CortexPool num) :
  0 < maxActivationHistory this ->
  maxActivationHistory (spreadActivation depth decay this) = maxActivationHistory this
  /\ Z.of_nat (List.length (activationHistory (spreadActivation depth decay this)))
     <= maxActivationHistory this.
Proof.
  intros Hmax. unfold spreadActivation, Date_now. cbn [fst snd].
  set (this1 := set_clock _ this).
  set (this2 := fold_left (spread_layer decay) (seq 0 depth) this1).
  set (this3 := applyActivationDecay _ this2).
  assert (H3 : maxActivationHistory this3 = maxActivationHistory this).
  { unfold this3. rewrite (proj1 (applyActivationDecay_frame _ _)).
    unfold this2.
    rewrite (fold_left_frame _ _ _ (fun s : CortexPool num => maxActivationHistory s));
      [reflexivity|].
    intros s d. apply spread_layer_frame. }
  destruct (recordActivationHistory_history this3) as (_ & Hm & _).
  split; [congruence|].
  rewrite <- H3. apply recordActivationHistory_bounded. now rewrite H3.
Qed.

Lemma calculateRelevance_history (fact : Fact.t num) (this : CortexPool num) :
  activationHistory (snd (calculateRelevance fact this)) = activationHistory this.
Proof. unfold calculateRelevance. now destruct (getEntity _ this). Qed.

Lemma score_all_history (l : list (Fact.t num)) :
  forall this : CortexPool num,
    activationHistory (snd (score_all l this)) = activationHistory this.
Proof.
  induction l as [|fact l IH]; intros this; simpl; [reflexivity|].
  pose proof (calculateRelevance_history fact this) as Hh.
  destruct (calculateRelevance fact this) as [score this1]. simpl in Hh.
  specialize (IH this1). destruct (score_all l this1) as [scored this2].
  simpl in *. congruence.
Qed.

Lemma fill_pool_history (now : Z) (selected : list (Fact.t num * num)) :
  forall (results : list (Retrieved.t num)) (this : CortexPool num),
    activationHistory (snd (fill_pool now selected results this))
    = activationHistory this.
Proof.
  induction selected as [|[fact score] rest IH]; intros results this; simpl;
    [reflexivity|].
  destruct (hydrateEntity _); [|reflexivity]. now rewrite IH.
Qed.

Lemma retrieve_history (topics : list string) (options : RetrieveOptions.t)
      (this : CortexPool num) :
  activationHistory (snd (retrieve topics options this))
  = activationHistory (spreadActivation 2 (lit 0.5) (setTopics topics this)).
Proof.
  unfold retrieve. cbv zeta.
  generalize (spreadActivation 2 (lit 0.5) (setTopics topics this)) as this2.
  intros this2.
  pose proof (score_all_history (facts (db this2)) this2) as Hh.
  destruct (score_all (facts (db this2)) this2) as [scored this3].
  simpl in Hh. unfold Date_now. cbn [fst snd].
  rewrite fill_pool_history. exact Hh.
Qed.
End ActivationHistory.

(** X14.  The in-memory activation history is bounded: for a positive
    maxActivationHistory (it is 1000), after [retrieve], which spreads the
    activation and records it, the history holds at most
    maxActivationHistory entries, however many it held before. *)
Theorem retrieve_bounds_activation_history
        (num : Type) (N : Number num)
        (topics : list string) (options : RetrieveOptions.t)
        (this : CortexPool num) :
  0 < maxActivationHistory this ->
  Z.of_nat (List.length (activationHistory (snd (retrieve topics options this))))
  <= maxActivationHistory this.
Proof.
  intros Hmax. rewrite retrieve_history.
  rewrite <- (setTopics_maxActivationHistory topics this) in *.
  now apply spreadActivation_bounded.
Qed.

(** X15.  What [recordActivationHistory] records can be read back: when the
    activation levels are no more than maxActivationHistory, then for every
    entity with a level, [getActivationHistory] of that entity, since any
    time before the call, holds an entry with that level, the time of the
    call and the source spread. *)
Theorem recordActivationHistory_then_getActivationHistory
        (num : Type) (N : Number num)
        (this : CortexPool num) (entityId : Z) (level : num) (since : Z) :
  Z.of_nat (List.length (activationLevels this)) <= maxActivationHistory this ->
  In (entityId, level) (activationLevels this) ->
  let now := reading (clock this) (elapsed (clock this)) in
  since < now ->
  In (ActivationHistoryEntry.mk entityId level now "spread")
     (getActivationHistory entityId (Some since) (recordActivationHistory this)).
Proof.
  intros Hfit Hin now Hsince.
  unfold getActivationHistory. cbn [or_default]. apply filter_In. split.
  - destruct (recordActivationHistory_history this) as (-> & _). cbv zeta.
    fold now.
    assert (Hnew : In (ActivationHistoryEntry.mk entityId level now "spread")
                      (map (fun entry : Z * num =>
                              ActivationHistoryEntry.mk (fst entry) (snd entry)
                                                        now "spread")
                           (activationLevels this))).
    { apply in_map_iff. exists (entityId, level). auto. }
    destruct (_ <? _).
    + apply slice_last_keeps_tail; [now rewrite length_map | exact Hnew].
    + apply in_or_app. now right.
  - simpl. rewrite Z.eqb_refl. simpl. now apply Z.ltb_lt.
Qed.

Section ActivationDecay.
Context {num : Type} `{Number num}.

Lemma applyActivationDecay_unfold (now : Z) (this : CortexPool num) :
  applyActivationDecay now this
  = fold_left (decay_step now) (activationLevels this) this.
Proof.
  unfold applyActivationDecay. generalize (activationLevels this) as l.
  intros l. revert this. induction l as [|[entityId activation] l IH];
    intros this; simpl; [reflexivity|].
  rewrite <- IH. f_equal. unfold recently_active, decayed_level.
  destruct (Nat.eqb _ 0); simpl; [|reflexivity].
  now destruct (_ <? _)%num.
Qed.

Lemma decay_step_levels (now : Z) (this : CortexPool num) (k : Z) (a : num) (id : Z) :
  activationHistory (decay_step now this (k, a)) = activationHistory this
  /\ map_get id (activationLevels (decay_step now this (k, a)))
     = if k =? id
       then (if recently_active now k this then map_get id (activationLevels this)
             else decayed_level a)
       else map_get id (activationLevels this).
Proof.
  unfold decay_step.
  destruct (recently_active now k this); simpl.
  - split; [reflexivity|]. now destruct (k =? id).
  - destruct (decayed_level a) as [d|]; simpl; (split; [reflexivity|]).
    + apply map_get_map_set.
    + apply map_get_map_delete.
Qed.

Lemma recently_active_same_history (now id : Z) (this this' : CortexPool num) :
  activationHistory this' = activationHistory this ->
  recently_active now id this' = recently_active now id this.
Proof. intros Hh. unfold recently_active. now rewrite Hh. Qed.

Lemma decay_fold_levels (now : Z) (l : list (Z * num)) :
  NoDup (map fst l) ->
  forall (this0 this : CortexPool num) (id : Z),
    activationHistory this = activationHistory this0 ->
    (forall k a, In (k, a) l -> map_get k (activationLevels this) = Some a) ->
    activationHistory (fold_left (decay_step now) l this) = activationHistory this0
    /\ map_get id (activationLevels (fold_left (decay_step now) l this))
       = match map_get id l with
         | Some a => if recently_active now id this0 then Some a else decayed_level a
         | None => map_get id (activationLevels this)
         end.
Proof.
  induction l as [|[k a] l IH]; intros Hnd this0 this id Hh Hl;
    cbn [fold_left map_get]; [auto|].
  simpl in Hnd. inversion Hnd as [|? ? Hk Hnd']; subst.
  destruct (decay_step_levels now this k a id) as [Hh1 Hid].
  destruct (IH Hnd' this0 (decay_step now this (k, a)) id) as [IHh IHl].
  - congruence.
  - intros k' a' Hin.
    destruct (decay_step_levels now this k a k') as [_ ->].
    assert (Hne : (k =? k') = false).
    { apply Z.eqb_neq. intros ->. apply Hk.
      now apply (in_map fst) in Hin. }
    rewrite Hne. apply Hl. now right.
  - split; [exact IHh|]. rewrite IHl.
    destruct (k =? id) eqn:E.
    + apply Z.eqb_eq in E. subst k.
      rewrite (map_get_absent _ id l Hk). rewrite Hid.
      rewrite (recently_active_same_history now id this0 this Hh).
      destruct (recently_active now id this0); [|reflexivity].
      apply Hl. now left.
    + destruct (map_get id l); [reflexivity|]. exact Hid.
Qed.
End ActivationDecay.

(** X16.  [applyActivationDecay] keeps the level of an entity that has an
    entry in the in-memory history less than an hour before the given time;
    every other level is multiplied by 0.95, and removed when the product is
    below 0.01.  It adds no level.  (The keys of a Map are unique.) *)
Theorem applyActivationDecay_levels
        (num : Type) (N : Number num)
        (now : Z) (this : CortexPool num) (id : Z) :
  NoDup (map fst (activationLevels this)) ->
  map_get id (activationLevels (applyActivationDecay now this))
  = match map_get id (activationLevels this) with
    | Some activation =>
        if recently_active now id this then Some activation
        else decayed_level activation
    | None => None
    end.
Proof.
  intros Hnd. rewrite applyActivationDecay_unfold.
  destruct (decay_fold_levels now (activationLevels this) Hnd this this id eq_refl)
    as [_ ->].
  - intros k a Hin. now apply map_get_In.
  - now destruct (map_get id (activationLevels this)).
Qed.

(** ** What [retrieve] returns *)

Section Retrieval.
Context {num : Type} `{Number num}.

Lemma spreadActivation_entities (depth : nat) (decay : num) (this : CortexPool num) :
  entities (db (spreadActivation depth decay this)) = entities (db this).
Proof.
  unfold spreadActivation, recordActivationHistory, Date_now. simpl.
  match goal with
  | |- context [if ?c then _ else _] => destruct c
  end; simpl; rewrite applyActivationDecay_db;
    rewrite (fold_left_frame _ _ _ (fun s : CortexPool num => db s));
    try reflexivity; intros s d; apply spread_layer_db.
Qed.

Lemma setTopics_entities (topics : list string) (this : CortexPool num) :
  entities (db (setTopics topics this)) = entities (db this).
Proof.
  rewrite setTopics_unfold.
  now destruct (setTopics_fold (reading (clock this) (elapsed (clock this))) topics
                  this
                  (snd (Date_now (set_activationLevels []
                                    (set_currentTopics topics this))))
                  0 eq_refl) as (He & _).
Qed.

(** What the loop that fills the pool returns when it runs to its end: one
    result for each selected fact, in order, with the subject and the
    object as the entities table holds them. *)
Lemma fill_pool_results (now : Z) (selected : list (Fact.t num * num)) :
  forall (results : list (Retrieved.t num)) (this : CortexPool num)
         (out : list (Retrieved.t num)),
    fst (fill_pool now selected results this) = Returned out ->
    exists added,
      out = results ++ added
      /\ map scored_of added = selected
      /\ forall r, In r added ->
                   getEntity (Fact.subjectId (Retrieved.fact r)) this
                   = Some (Retrieved.subject r)
                   /\ Retrieved.object r = object_of (Retrieved.fact r) this.
Proof.
  induction selected as [|[fact score] rest IH]; intros results this out; simpl.
  - intros [= <-]. exists []. rewrite app_nil_r. simpl. tauto.
  - match goal with
    | |- context [hydrateEntity (getEntity ?i ?s)] =>
        change (getEntity i s) with (getEntity i this)
    end.
    destruct (getEntity (Fact.subjectId fact) this) as [subject|] eqn:Es; simpl;
      [|discriminate].
    intros Hout. apply IH in Hout.
    destruct Hout as (added & -> & Hsel & Hents).
    eexists (_ :: added). rewrite <- app_assoc. split; [reflexivity|].
    split; [simpl; now rewrite Hsel|].
    intros r [<-|Hr]; simpl; [split; [exact Es | reflexivity]|].
    apply (Hents r Hr).
Qed.

Lemma fill_pool_returns (now : Z) (selected : list (Fact.t num * num)) :
  forall (results : list (Retrieved.t num)) (this : CortexPool num),
    (forall fs, In fs selected ->
                getEntity (Fact.subjectId (fst fs)) this <> None) ->
    exists out, fst (fill_pool now selected results this) = Returned out.
Proof.
  induction selected as [|[fact score] rest IH]; intros results this Hsub; simpl.
  - eauto.
  - match goal with
    | |- context [hydrateEntity (getEntity ?i ?s)] =>
        change (getEntity i s) with (getEntity i this)
    end.
    destruct (getEntity (Fact.subjectId fact) this) as [subject|] eqn:Es; simpl.
    + apply IH. intros fs Hfs. apply (Hsub fs). now right.
    + exfalso. apply (Hsub (fact, score)); [now left | exact Es].
Qed.




Lemma slice_to_prefix (A : Type) (k : Z) (l : list A) :
  exists n, slice_to k l = firstn n l.
Proof. unfold slice_to. destruct (k <? 0); eauto. Qed.

(** What [retrieve] returns, and the pool it leaves, when it returns. *)
Lemma retrieve_results (topics : list string) (options : RetrieveOptions.t)
      (this : CortexPool num) (results : list (Retrieved.t num)) :
  fst (retrieve topics options this) = Returned results ->
  exists now,
    map scored_of results
    = slice_to (or_default (this_poolSize this) (RetrieveOptions.poolSize options))
               (stable_sort (@by_score_desc num _ (Fact.t num))
                            (scored_facts topics this))
    /\ pool (db (snd (retrieve topics options this)))
       = map (pool_row now) (map scored_of results)
    /\ forall r, In r results ->
                 getEntity (Fact.subjectId (Retrieved.fact r)) this
                 = Some (Retrieved.subject r)
                 /\ Retrieved.object r = object_of (Retrieved.fact r) this.
Proof.
  assert (Hents : entities (db (spreadActivation 2 (lit 0.5) (setTopics topics this)))
                  = entities (db this)).
  { now rewrite spreadActivation_entities, setTopics_entities. }
  unfold retrieve, scored_facts. cbv zeta.
  revert Hents.
  generalize (spreadActivation 2 (lit 0.5) (setTopics topics this)) as this2.
  intros this2 Hents.
  destruct (score_all_facts (facts (db this2)) this2) as [_ Hdb].
  destruct (score_all (facts (db this2)) this2) as [scored this3].
  cbn [fst snd] in *. unfold Date_now. cbn [fst snd].
  set (selected := slice_to _ _).
  match goal with
  | |- fst (fill_pool ?now selected ?res ?s) = _ -> _ =>
      intros Hret; exists now;
      destruct (fill_pool_rows now selected res s) as (n & Hn & Hpool & Hall);
      destruct (fill_pool_results now selected res s results Hret)
        as (added & Hout & Hsel & Hsub)
  end.
  simpl in Hout. subst added.
  split; [exact Hsel|]. split.
  - rewrite Hpool. simpl. rewrite (Hall results Hret).
    now rewrite firstn_all, Hsel.
  - intros r Hr. destruct (Hsub r Hr) as [Hs Ho].
    unfold getEntity, object_of, getEntity in *. simpl in *.
    rewrite Hdb, Hents in *. auto.
Qed.

Lemma retrieve_sorted (O : NumberOrder (num := num))
      (topics : list string) (options : RetrieveOptions.t)
      (this : CortexPool num) (results : list (Retrieved.t num)) :
  fst (retrieve topics options this) = Returned results ->
  StronglySorted
    (fun a b => (Retrieved.score a <? Retrieved.score b)%num = false) results.
Proof.
  intros Hret.
  destruct (retrieve_results topics options this results Hret) as (now & Hsel & _).
  destruct (slice_to_prefix _
              (or_default (this_poolSize this) (RetrieveOptions.poolSize options))
              (stable_sort (@by_score_desc num _ (Fact.t num))
                           (scored_facts topics this))) as (n & Hn).
  rewrite Hn in Hsel.
  assert (Hs : StronglySorted (@score_desc num _ (Fact.t num)) (map scored_of results)).
  { rewrite Hsel. apply sorted_firstn.
    apply (stable_sort_sorted _ _ by_score_desc_asym by_score_desc_negtrans). }
  clear - Hs. induction results as [|r results IH]; [constructor|].
  simpl in Hs. apply StronglySorted_inv in Hs. destruct Hs as [Hs Hall].
  constructor; [now apply IH|].
  rewrite Forall_forall in *. intros x Hx.
  apply (Hall (scored_of x)). now apply in_map.
Qed.

Lemma retrieve_length (topics : list string) (options : RetrieveOptions.t)
      (this : CortexPool num) (results : list (Retrieved.t num)) :
  fst (retrieve topics options this) = Returned results ->
  0 <= or_default (this_poolSize this) (RetrieveOptions.poolSize options) ->
  Z.of_nat (List.length results)
  <= or_default (this_poolSize this) (RetrieveOptions.poolSize options).
Proof.
  intros Hret Hk.
  destruct (retrieve_results topics options this results Hret) as (now & Hsel & _).
  rewrite <- (length_map scored_of), Hsel.
  rewrite slice_to_firstn by exact Hk. rewrite length_firstn. lia.
Qed.
End Retrieval.


(** X18.  [retrieve] returns, whatever the topics and the pool size, when
    the subject of every stored fact is a row of the entities table (as the
    FOREIGN KEY on subjectId declares). *)
Theorem retrieve_returns
        (num : Type) (N : Number num)
        (topics : list string) (options : RetrieveOptions.t)
        (this : CortexPool num) :
  (forall f, In f (facts (db this)) -> getEntity (Fact.subjectId f) this <> None) ->
  exists results, fst (retrieve topics options this) = Returned results.
Proof.
  intros Hsub.
  assert (Hents : entities (db (spreadActivation 2 (lit 0.5) (setTopics topics this)))
                  = entities (db this)).
  { now rewrite spreadActivation_entities, setTopics_entities. }
  assert (Hfacts : facts (db (spreadActivation 2 (lit 0.5) (setTopics topics this)))
                   = facts (db this)).
  { now rewrite spreadActivation_facts, setTopics_facts. }
  unfold retrieve. cbv zeta. revert Hents Hfacts.
  generalize (spreadActivation 2 (lit 0.5) (setTopics topics this)) as this2.
  intros this2 Hents Hfacts.
  destruct (score_all_facts (facts (db this2)) this2) as [Hscored Hdb].
  destruct (score_all (facts (db this2)) this2) as [scored this3].
  cbn [fst snd] in *. unfold Date_now. cbn [fst snd].
  apply fill_pool_returns. intros fs Hfs.
  destruct (slice_to_prefix _
              (or_default (this_poolSize this) (RetrieveOptions.poolSize options))
              (stable_sort (@by_score_desc num _ (Fact.t num)) scored)) as (n & Hn).
  rewrite Hn in Hfs.
  assert (Hfs' : In fs (stable_sort (@by_score_desc num _ (Fact.t num)) scored)).
  { rewrite <- (firstn_skipn n (stable_sort _ scored)). apply in_or_app. now left. }
  clear Hfs. rename Hfs' into Hfs.
  apply (Permutation_in _ (stable_sort_perm _ _ _)) in Hfs.
  apply (in_map fst) in Hfs. rewrite Hscored, Hfacts in Hfs.
  specialize (Hsub _ Hfs). unfold getEntity in *. simpl.
  now rewrite Hdb, Hents.
Qed.

(** ** Hybrid retrieval *)

Section Hybrid.
Context {num : Type} `{Number num} {O : NumberOrder (num := num)}.

Lemma by_retrieved_score_desc_asym (a b : Retrieved.t num) :
  by_retrieved_score_desc a b = true -> by_retrieved_score_desc b a = false.
Proof. unfold by_retrieved_score_desc. apply nltb_asym. Qed.

Lemma by_retrieved_score_desc_negtrans (a b c : Retrieved.t num) :
  by_retrieved_score_desc a b = false -> by_retrieved_score_desc b c = false ->
  by_retrieved_score_desc a c = false.
Proof.
  unfold by_retrieved_score_desc. intros Hab Hbc.
  now apply (nltb_negtrans (Retrieved.score c) (Retrieved.score b)
                           (Retrieved.score a)).
Qed.
End Hybrid.

(** X19.  When the vector backend returns no hit, as the [searchByVector]
    of the class always does, [hybridRetrieval] returns what [retrieve]
    returns for the same topics and pool size, and leaves the same state. *)
Theorem hybridRetrieval_without_vector_hits
        (num : Type) (N : Number num)
        (backend : @VectorBackend num)
        (topics : list string) (poolSize : Z) (this : CortexPool num) :
  backend (join " " topics) poolSize = Returned [] ->
  hybridRetrieval backend topics poolSize this
  = retrieve topics (RetrieveOptions.mk (Some false) (Some poolSize)) this.
Proof.
  intros Hnone. unfold hybridRetrieval.
  generalize (retrieve topics (RetrieveOptions.mk (Some false) (Some poolSize)) this).
  intros [[graphResults|failure] this1]; [|reflexivity].
  now rewrite Hnone.
Qed.

(** X20.  Whatever the vector backend returns or throws, the results of
    [hybridRetrieval], for a pool size that is not negative, are at most
    poolSize and in descending order of score. *)
Theorem hybridRetrieval_bounded_and_sorted
        (num : Type) (N : Number num) (O : @NumberOrder num N)
        (backend : @VectorBackend num)
        (topics : list string) (poolSize : Z) (this : CortexPool num)
        (results : list (Retrieved.t num)) :
  0 <= poolSize ->
  fst (hybridRetrieval backend topics poolSize this) = Returned results ->
  Z.of_nat (List.length results) <= poolSize
  /\ StronglySorted
       (fun a b => (Retrieved.score a <? Retrieved.score b)%num = false) results.
Proof.
  intros Hk. unfold hybridRetrieval.
  pose proof (retrieve_length topics (RetrieveOptions.mk (Some false) (Some poolSize))
                              this) as Hlen.
  pose proof (retrieve_sorted O topics (RetrieveOptions.mk (Some false) (Some poolSize))
                              this) as Hsorted.
  revert Hlen Hsorted.
  generalize (retrieve topics (RetrieveOptions.mk (Some false) (Some poolSize)) this).
  intros [[graphResults|failure] this1] Hlen Hsorted; cbn [fst snd] in *;
    [|discriminate].
  assert (Hgraph : Returned graphResults = Returned results ->
                   Z.of_nat (List.length results) <= poolSize
                   /\ StronglySorted
                        (fun a b => (Retrieved.score a <? Retrieved.score b)%num = false)
                        results).
  { intros [= <-]. split; [now apply Hlen | now apply Hsorted]. }
  destruct (backend (join " " topics) poolSize) as [vectorResults|]; [|exact Hgraph].
  destruct (Nat.eqb (List.length vectorResults) 0); [exact Hgraph|].
  destruct (add_vector_hits _ this1 _) as [mergedResults|]; [|exact Hgraph].
  cbn [fst]. intros [= <-]. rewrite slice_to_firstn by exact Hk. split.
  - rewrite length_firstn. lia.
  - apply sorted_firstn.
    apply (stable_sort_sorted _ by_retrieved_score_desc
                              by_retrieved_score_desc_asym
                              by_retrieved_score_desc_negtrans).
Qed.

(** ** Maintenance: what decay and contradiction detection leave *)

Section DecayLog.
Context {num : Type} `{Number num} `{Exponential num}.

Lemma decay_fold_frame (now : Z) (l : list (Fact.t num)) (s : CortexPool num) :
  let after :=
    fold_left
      (fun this fact =>
         let newImportance := decayed_importance now fact in
         if (newImportance <? lit 0.1)%num
         then on_facts (sql_delete (fun f => Fact.id f =? Fact.id fact)) this
         else on_facts (sql_update (fun f => Fact.id f =? Fact.id fact)
                                   (fact_set_importance newImportance)) this)
      l s in
  entities (db after) = entities (db s)
  /\ reflections (db after) = reflections (db s)
  /\ contradictions (db after) = contradictions (db s).
Proof.
  cbv zeta. revert s. induction l as [|fact l IH]; intros s; simpl; [auto|].
  destruct (IH (if (decayed_importance now fact <? lit 0.1)%num
                then on_facts (sql_delete (fun f => Fact.id f =? Fact.id fact)) s
                else on_facts (sql_update (fun f => Fact.id f =? Fact.id fact)
                                          (fact_set_importance
                                             (decayed_importance now fact))) s))
    as (He & Hr & Hc).
  rewrite He, Hr, Hc. now destruct (_ <? _)%num.
Qed.

Lemma applyDecay_frame (this : CortexPool num) :
  reflections (db (applyDecay this))
  = reflections (db this)
    ++ [Reflection.mk "decay"
                      (decay_details (Z.of_nat (List.length (facts (db this)))))
                      (reading (clock this) (elapsed (clock this)))]
  /\ entities (db (applyDecay this)) = entities (db this)
  /\ contradictions (db (applyDecay this)) = contradictions (db this).
Proof.
  unfold applyDecay, Date_now. cbv beta iota zeta.
  match goal with
  | |- context [fold_left ?step ?l ?s] =>
      destruct (decay_fold_frame (reading (clock this) (elapsed (clock this))) l s)
        as (He & Hr & Hc); cbv zeta in He, Hr, Hc;
      generalize dependent (fold_left step l s)
  end.
  intros after He Hr Hc. unfold insert_reflection, sql_insert. simpl.
  rewrite He, Hr, Hc. auto.
Qed.

End DecayLog.



(** X23.  The rows [detectContradictions] adds to the contradictions table
    are, each with the time of the call: one for every pair of stored facts
    with the same subject and predicate, the first of lower id, whose
    contents differ.  It removes no row, and touches neither the facts nor
    the entities. *)
Theorem detectContradictions_records_differing_pairs
        (num : Type) (N : Number num) (this : CortexPool num)
        (c : Contradiction.t) :
  let after := snd (detectContradictions this) in
  let now := reading (clock this) (elapsed (clock this)) in
  (In c (contradictions (db after)) <->
   In c (contradictions (db this))
   \/ exists f1 f2,
       In f1 (facts (db this)) /\ In f2 (facts (db this))
       /\ Fact.subjectId f1 = Fact.subjectId f2
       /\ Fact.predicate f1 = Fact.predicate f2
       /\ Fact.id f1 < Fact.id f2
       /\ Fact.content f1 <> Fact.content f2
       /\ c = Contradiction.mk (Fact.id f1) (Fact.id f2) now)
  /\ facts (db after) = facts (db this)
  /\ entities (db after) = entities (db this).
Proof.
  cbv zeta.
  destruct (detectContradictions_effect this) as (_ & Hrows & Hfacts & Hents).
  split; [|split; [exact Hfacts | exact Hents]].
  rewrite Hrows, in_app_iff, in_map_iff.
  split; (intros [Hold|Hnew]; [now left | right]).
  - destruct Hnew as (row & <- & Hrow). apply filter_In in Hrow.
    destruct Hrow as [Hrow Hdiff]. apply contradiction_candidates_In in Hrow.
    destruct Hrow as (f1 & f2 & H1 & H2 & Hs & Hp & Hlt & ->).
    exists f1, f2. repeat split; auto.
    unfold differing in Hdiff. simpl in Hdiff.
    apply negb_true_iff, String.eqb_neq in Hdiff. exact Hdiff.
  - destruct Hnew as (f1 & f2 & H1 & H2 & Hs & Hp & Hlt & Hne & ->).
    exists (FactPair.mk (Fact.id f1) (Fact.content f1) (Fact.id f2) (Fact.content f2)).
    split; [reflexivity|]. apply filter_In. split.
    + apply contradiction_candidates_In. exists f1, f2. auto 10.
    + unfold differing. simpl. now apply negb_true_iff, String.eqb_neq.
Qed.

Lemma detectContradictions_clock (num : Type) (N : Number num)
      (this : CortexPool num) :
  clock (snd (detectContradictions this))
  = mkClock (reading (clock this)) (S (elapsed (clock this))).
Proof.
  unfold detectContradictions, Date_now. cbv beta iota zeta. cbn [snd].
  now rewrite insert_contradictions_fold.
Qed.

(** X24.  [detectContradictions] does not look at what the table holds: a
    second call records the same pairs again, with the time of that call. *)
Theorem detectContradictions_twice
        (num : Type) (N : Number num) (this : CortexPool num) :
  let once := snd (detectContradictions this) in
  let twice := snd (detectContradictions once) in
  let found := filter differing (contradiction_candidates (facts (db this))) in
  let at_time := fun now row =>
                   Contradiction.mk (FactPair.f1id row) (FactPair.f2id row) now in
  contradictions (db twice)
  = contradictions (db this)
    ++ map (at_time (reading (clock this) (elapsed (clock this)))) found
    ++ map (at_time (reading (clock this) (S (elapsed (clock this))))) found.
Proof.
  cbv zeta.
  destruct (detectContradictions_effect (snd (detectContradictions this)))
    as (_ & -> & _).
  rewrite (detectContradictions_clock num N).
  destruct (detectContradictions_effect this) as (_ & -> & -> & _).
  rewrite <- app_assoc. reflexivity.
Qed.

(** ** Maintenance: the consolidation of duplicate entities *)

Section ConsolidationLoop.
Context {num : Type} `{Number num}.




Lemma filter_twice (A : Type) (f g : A -> bool) (l : list A) :
  filter f (filter g l) = filter (fun x => g x && f x) l.
Proof.
  induction l as [|x l IH]; simpl; [reflexivity|].
  destruct (g x); simpl; [|exact IH].
  destruct (f x); now rewrite IH.
Qed.









(* an id other than the deleted one is still in the table after the DELETE
   and the UPDATE of one turn *)
Lemma ids_after_turn (i c j : Z) (set : Entity.t num -> Entity.t num)
      (t : list (Entity.t num)) :
  (forall x, Entity.id (set x) = Entity.id x) ->
  In i (map (@Entity.id num) t) -> i <> j ->
  In i (map (@Entity.id num)
            (sql_update (fun x => Entity.id x =? c) set
                        (sql_delete (fun x => Entity.id x =? j) t))).
Proof.
  intros Hset Hi Hne.
  rewrite (sql_update_keys _ (@Entity.id num)) by exact Hset.
  apply in_map_iff in Hi. destruct Hi as (x & Hx & Hin).
  apply in_map_iff. exists x. split; [exact Hx|].
  apply sql_delete_In. split; [exact Hin|]. apply Z.eqb_neq. congruence.
Qed.

(* one turn of the loop *)
Lemma consolidate_entity_turn (canonicalMap : list (string * Entity.t num))
      (this : CortexPool num) (e : Entity.t num) :
  consolidate_entity (canonicalMap, this) e
  = match find (fun kv => String.eqb (fst kv) (Entity.canonicalName e))
               canonicalMap with
    | Some (_, existing) =>
        (canonicalMap,
         on_entities
           (sql_update
              (fun x => Entity.id x =? Entity.id existing)
              (fun x =>
                 entity_set_confidence
                   ((Entity.confidence existing + Entity.confidence e) / lit 2)%num
                   (entity_set_aliases
                      (dedup (Entity.aliases existing ++ Entity.aliases e)) x)))
           (on_entities
              (sql_delete (fun x => Entity.id x =? Entity.id e))
              (on_facts
                 (sql_update (fun f => Fact.subjectId f =? Entity.id e)
                             (fact_set_subjectId (Entity.id existing)))
                 this)))
    | None => (canonicalMap ++ [(Entity.canonicalName e, e)], this)
    end.
Proof.
  unfold consolidate_entity.
  destruct (find _ canonicalMap) as [[k existing]|]; reflexivity.
Qed.

(** The loop keeps the subject of every fact among the entities, when it
    was there before and the rows it runs on have unique ids. *)
Lemma consolidate_subjects (rows : list (Entity.t num)) :
  forall (canonicalMap : list (string * Entity.t num)) (this : CortexPool num),
    NoDup (map (@Entity.id num) rows) ->
    (forall f, In f (facts (db this)) ->
               In (Fact.subjectId f) (map (@Entity.id num) (entities (db this)))) ->
    (forall e, In e rows ->
               In (Entity.id e) (map (@Entity.id num) (entities (db this)))) ->
    (forall kv, In kv canonicalMap ->
                In (Entity.id (snd kv)) (map (@Entity.id num) (entities (db this)))
                /\ ~ In (Entity.id (snd kv)) (map (@Entity.id num) rows)) ->
    let after := snd (fold_left consolidate_entity rows (canonicalMap, this)) in
    forall f, In f (facts (db after)) ->
              In (Fact.subjectId f) (map (@Entity.id num) (entities (db after))).
Proof.
  induction rows as [|e rows IH]; intros canonicalMap this Hnd Hfacts Hrows Hmap;
    [exact Hfacts|].
  simpl in Hnd. inversion Hnd as [|? ? He Hnd']; subst.
  cbn [fold_left]. rewrite consolidate_entity_turn.
  destruct (find (fun kv => String.eqb (fst kv) (Entity.canonicalName e)) canonicalMap)
    as [[k existing]|] eqn:Ef.
  - apply find_some in Ef. destruct Ef as [Hin _].
    destruct (Hmap _ Hin) as [Hex Hnot]. simpl in Hex, Hnot.
    assert (Hne : Entity.id existing <> Entity.id e).
    { intros Heq. apply Hnot. left. now symmetry. }
    apply IH; clear IH; try exact Hnd';
      cbn [snd db entities facts on_entities on_facts set_db db_set_entities
               db_set_facts].
    + intros f Hf. apply sql_update_In in Hf. destruct Hf as (r & Hr & ->).
      destruct (Fact.subjectId r =? Entity.id e) eqn:Es.
      * apply ids_after_turn; [reflexivity | exact Hex | exact Hne].
      * apply ids_after_turn; [reflexivity | now apply Hfacts |].
        now apply Z.eqb_neq.
    + intros e' He'. apply ids_after_turn; [reflexivity | apply Hrows; now right |].
      intros Heq. apply He. rewrite <- Heq. now apply in_map.
    + intros kv Hkv. destruct (Hmap kv Hkv) as [H1 H2]. simpl in H2.
      split; [|tauto].
      apply ids_after_turn; [reflexivity | exact H1 |].
      intros Heq. apply H2. left. now symmetry.
  - apply IH; clear IH; try exact Hnd'; cbn [snd].
    + exact Hfacts.
    + intros e' He'. apply Hrows. now right.
    + intros kv Hkv. apply in_app_or in Hkv. destruct Hkv as [Hkv|[<-|[]]].
      * destruct (Hmap kv Hkv) as [H1 H2]. simpl in H2. split; [exact H1 | tauto].
      * simpl. split; [apply Hrows; now left | exact He].
Qed.
End ConsolidationLoop.

(** ** Maintenance: memory compression *)

Section Compression.
Context {num : Type} `{Number num}.

Lemma facts_only_refl (a : CortexPool num) : facts_only a a.
Proof.
  exists (facts (db a)), (clock a). destruct a as [[] ? ? ? ? ? ?]. reflexivity.
Qed.

Lemma facts_only_trans (a b c : CortexPool num) :
  facts_only a b -> facts_only b c -> facts_only a c.
Proof.
  intros (t1 & c1 & ->) (t2 & c2 & ->). exists t2, c2. reflexivity.
Qed.

Lemma facts_only_on_facts (f : list (Fact.t num) -> list (Fact.t num))
      (a : CortexPool num) :
  facts_only a (on_facts f a).
Proof. exists (f (facts (db a))), (clock a). reflexivity. Qed.

Lemma facts_only_Date_now (a : CortexPool num) : facts_only a (snd (Date_now a)).
Proof.
  exists (facts (db a)), (mkClock (reading (clock a)) (S (elapsed (clock a)))).
  destruct a as [[] ? ? ? ? ? ?]. reflexivity.
Qed.

Lemma facts_only_fold (X : Type) (step : Z * CortexPool num -> X -> Z * CortexPool num)
      (l : list X) :
  (forall acc x, facts_only (snd acc) (snd (step acc x))) ->
  forall acc, facts_only (snd acc) (snd (fold_left step l acc)).
Proof.
  intros Hstep. induction l as [|x l IH]; intros acc; simpl;
    [apply facts_only_refl|].
  apply (facts_only_trans _ (snd (step acc x))); [apply Hstep | apply IH].
Qed.

Lemma facts_only_frame (a b : CortexPool num) :
  facts_only a b ->
  entities (db b) = entities (db a)
  /\ currentTopics b = currentTopics a
  /\ pool (db b) = pool (db a)
  /\ reflections (db b) = reflections (db a)
  /\ contradictions (db b) = contradictions (db a)
  /\ poolSize b = poolSize a.
Proof. intros (t & c & ->). simpl. auto 10. Qed.

Lemma merge_pair_facts_only (f1 : Fact.t num) (acc : Z * CortexPool num)
      (f2 : Fact.t num) :
  facts_only (snd acc) (snd (merge_pair f1 acc f2)).
Proof.
  destruct acc as [n this]. unfold merge_pair.
  destruct (_ || _); [apply facts_only_refl|].
  destruct (ngtb _ _); [|apply facts_only_refl]. cbn [snd].
  eapply facts_only_trans; apply facts_only_on_facts.
Qed.

Lemma mergeSimilarFacts_facts_only (this : CortexPool num) :
  facts_only this (snd (mergeSimilarFacts this)).
Proof.
  unfold mergeSimilarFacts.
  generalize (sql_all (fun f => MemoryTier_eqb (Fact.tier f) semantic)
                      (facts (db this))) as l.
  intros l. change this with (snd (0, this)) at 1. generalize (0, this) as acc.
  induction l as [|f1 l IH]; intros acc; simpl; [apply facts_only_refl|].
  eapply facts_only_trans; [|apply IH].
  apply facts_only_fold. apply merge_pair_facts_only.
Qed.

Lemma prune_inner (l : list (Fact.t num)) :
  forall (pruned : Z) (this : CortexPool num),
    let after :=
      fold_left
        (fun (acc : Z * CortexPool num) duplicate =>
           let (pruned, this) := acc in
           (pruned + 1,
            on_facts (sql_delete (fun f => Fact.id f =? Fact.id duplicate)) this))
        l (pruned, this) in
    fst after = pruned + Z.of_nat (List.length l)
    /\ facts (db (snd after))
       = filter (fun f => negb (existsb (fun duplicate => Fact.id f =? Fact.id duplicate) l))
                (facts (db this))
    /\ facts_only this (snd after).
Proof.
  induction l as [|d l IH]; intros pruned this; cbn [fold_left].
  - split; [simpl; lia|]. split; [|apply facts_only_refl].
    simpl. induction (facts (db this)) as [|f t IHt]; simpl; [reflexivity|].
    now rewrite <- IHt.
  - destruct (IH (pruned + 1)
                 (on_facts (sql_delete (fun f => Fact.id f =? Fact.id d)) this))
      as (Hn & Hf & Ho).
    cbv zeta in *. split; [rewrite Hn; simpl List.length; lia|]. split.
    + rewrite Hf. cbn [facts db on_facts set_db db_set_facts].
      unfold sql_delete. rewrite filter_twice. apply filter_ext. intros f. simpl.
      now destruct (Fact.id f =? Fact.id d).
    + eapply facts_only_trans; [apply facts_only_on_facts | exact Ho].
Qed.

Lemma prune_groups (groups : list (Z * string * Z)) :
  forall (pruned : Z) (this : CortexPool num),
    let after :=
      fold_left
        (fun (acc : Z * CortexPool num) (row : Z * string * Z) =>
           let (pruned, this) := acc in
           let duplicates :=
             stable_sort by_importance_useCount_desc
               (sql_all (same_edge (fst (fst row)) (snd (fst row)) (snd row))
                        (facts (db this))) in
           fold_left
             (fun (acc : Z * CortexPool num) duplicate =>
                let (pruned, this) := acc in
                (pruned + 1,
                 on_facts (sql_delete (fun f => Fact.id f =? Fact.id duplicate)) this))
             (tl duplicates) (pruned, this))
        groups (pruned, this) in
    facts (db (snd after)) = fold_left prune_table groups (facts (db this))
    /\ facts_only this (snd after).
Proof.
  induction groups as [|row groups IH]; intros pruned this; cbn [fold_left].
  - split; [reflexivity | apply facts_only_refl].
  - cbv zeta.
    match goal with
    | |- context [fold_left ?inner (tl ?dups) (pruned, this)] =>
        destruct (prune_inner (tl dups) pruned this) as (_ & Hf & Ho);
        cbv zeta in Hf, Ho;
        destruct (fold_left inner (tl dups) (pruned, this)) as [pruned' this']
    end.
    cbn [fst snd] in *.
    destruct (IH pruned' this') as (IHf & IHo). cbv zeta in IHf, IHo.
    split.
    + rewrite IHf, Hf. reflexivity.
    + eapply facts_only_trans; [exact Ho | exact IHo].
Qed.

Lemma pruneRedundantEdges_facts (this : CortexPool num) :
  facts (db (snd (pruneRedundantEdges this)))
  = fold_left prune_table
              (edge_groups [] (facts (db this)) (facts (db this)))
              (facts (db this))
  /\ facts_only this (snd (pruneRedundantEdges this)).
Proof. unfold pruneRedundantEdges. apply prune_groups. Qed.


Lemma filter_length_perm (A : Type) (p : A -> bool) (l l' : list A) :
  Permutation l l' -> List.length (filter p l) = List.length (filter p l').
Proof.
  induction 1 as [|x l l' Hp IH|x y l|l l' l'' H1 IH1 H2 IH2]; simpl.
  - reflexivity.
  - destruct (p x); simpl; lia.
  - destruct (p x), (p y); reflexivity.
  - lia.
Qed.






End Compression.


Section Summaries.
Context {num : Type} `{Number num}.

Lemma summarize_fold (l : list (Fact.t num)) :
  forall (summarized : Z) (this : CortexPool num),
    let after :=
      fold_left
        (fun (acc : Z * CortexPool num) fact =>
           let (summarized, this) := acc in
           if (String.length (Fact.content fact) <? 50)%nat then (summarized, this)
           else
             let summary :=
               ("[Summarized: " ++ take 100 (Fact.content fact) ++ "...]")%string in
             (summarized + 1,
              on_facts (sql_update (fun f => Fact.id f =? Fact.id fact)
                                   (fact_set_content summary)) this))
        l (summarized, this) in
    fst after
    = summarized
      + Z.of_nat (List.length
                    (filter (fun f => negb (String.length (Fact.content f) <? 50)%nat) l))
    /\ facts (db (snd after)) = fold_left summarize_row l (facts (db this))
    /\ facts_only this (snd after).
Proof.
  induction l as [|fact l IH]; intros n this; cbn [fold_left].
  - split; [simpl; lia|]. split; [reflexivity | apply facts_only_refl].
  - cbv zeta. unfold summarize_row at 2.
    destruct (String.length (Fact.content fact) <? 50)%nat eqn:E.
    + destruct (IH n this) as (Hn & Hf & Ho). cbv zeta in *.
      simpl filter. rewrite E. simpl. auto.
    + destruct (IH (n + 1)
                   (on_facts (sql_update (fun f => Fact.id f =? Fact.id fact)
                                         (fact_set_content (summary_of fact))) this))
        as (Hn & Hf & Ho).
      cbv zeta in *. unfold summary_of in *. simpl filter. rewrite E. simpl negb.
      cbv iota. split; [rewrite Hn; simpl List.length; lia|].
      split; [exact Hf|].
      eapply facts_only_trans; [apply facts_only_on_facts | exact Ho].
Qed.

Lemma summarizeOldFacts_effect (this : CortexPool num) :
  let now := reading (clock this) (elapsed (clock this)) in
  let oldFacts :=
    stable_sort (fun a b : Fact.t num => Fact.createdAt a <? Fact.createdAt b)
                (filter (old_fact now) (facts (db this))) in
  fst (summarizeOldFacts this)
  = Z.of_nat (List.length (filter (summarized now) (facts (db this))))
  /\ facts (db (snd (summarizeOldFacts this)))
     = fold_left summarize_row oldFacts (facts (db this))
  /\ facts_only this (snd (summarizeOldFacts this)).
Proof.
  cbv zeta. unfold summarizeOldFacts, Date_now. cbv beta iota zeta.
  match goal with
  | |- context [fold_left ?step ?l (0, ?s)] =>
      destruct (summarize_fold l 0 s) as (Hn & Hf & Ho)
  end.
  cbv zeta in *. split; [|split].
  - rewrite Hn. unfold sql_all.
    cbn [facts db set_clock].
    rewrite (filter_length_perm _ _ _ _ (stable_sort_perm _ _ _)).
    rewrite filter_twice. reflexivity.
  - rewrite Hf. reflexivity.
  - eapply facts_only_trans; [|exact Ho].
    exists (facts (db this)), (mkClock (reading (clock this)) (S (elapsed (clock this)))).
    destruct this as [[] ? ? ? ? ? ?]. reflexivity.
Qed.

Lemma summarize_rows_columns (l : list (Fact.t num)) :
  forall t,
    map (fact_set_content EmptyString) (fold_left summarize_row l t)
    = map (fact_set_content EmptyString) t.
Proof.
  induction l as [|fact l IH]; intros t; simpl; [reflexivity|].
  rewrite IH. unfold summarize_row.
  destruct (_ <? _)%nat; [reflexivity|].
  unfold sql_update. rewrite map_map. apply map_ext. intros f.
  now destruct (Fact.id f =? Fact.id fact).
Qed.

Lemma summarize_rows_frame (k : Z) (l : list (Fact.t num)) :
  ~ In k (map (@Fact.id num) l) ->
  forall t, sql_get (fun f => Fact.id f =? k) (fold_left summarize_row l t)
            = sql_get (fun f => Fact.id f =? k) t.
Proof.
  induction l as [|a l IH]; intros Hk t; simpl; [reflexivity|].
  simpl in Hk. rewrite IH by tauto. unfold summarize_row.
  destruct (_ <? _)%nat; [reflexivity|].
  apply (find_update_other _ (@Fact.id num)); [reflexivity|].
  intros ->. tauto.
Qed.

Lemma summarize_rows_hit (fact : Fact.t num) (l : list (Fact.t num)) :
  NoDup (map (@Fact.id num) l) -> In fact l ->
  forall t,
    sql_get (fun f => Fact.id f =? Fact.id fact) (fold_left summarize_row l t)
    = if (String.length (Fact.content fact) <? 50)%nat
      then sql_get (fun f => Fact.id f =? Fact.id fact) t
      else option_map (fact_set_content (summary_of fact))
                      (sql_get (fun f => Fact.id f =? Fact.id fact) t).
Proof.
  induction l as [|a l IH]; intros Hnd Hin t; simpl; [destruct Hin|].
  simpl in Hnd. inversion Hnd as [|? ? Hx Hnd']; subst.
  destruct Hin as [->|Hin].
  - rewrite summarize_rows_frame by exact Hx. unfold summarize_row.
    destruct (_ <? _)%nat; [reflexivity|].
    apply (find_update_same _ (@Fact.id num)). reflexivity.
  - rewrite IH by assumption.
    assert (Hne : Fact.id fact <> Fact.id a).
    { intros E. apply Hx. rewrite <- E. now apply in_map. }
    assert (Hsame : sql_get (fun f => Fact.id f =? Fact.id fact) (summarize_row t a)
                    = sql_get (fun f => Fact.id f =? Fact.id fact) t).
    { unfold summarize_row. destruct (String.length (Fact.content a) <? 50)%nat;
        [reflexivity|].
      now apply (find_update_other _ (@Fact.id num)). }
    now rewrite Hsame.
Qed.
End Summaries.

(** X28.  With the facts table in id order, [summarizeOldFacts] writes
    nothing but the content column: the table keeps its rows, in place,
    with every other column as it was, and the entities are untouched.  The
    content of a fact becomes the summary of its content (bracketed, at
    most 100 characters of it) when the fact is semantic, has importance
    above 0.3, was used more than 3 times, was created more than 90 days
    before the call and has a content of 50 characters or more; the content
    of every other fact is as it was; and the call returns the number of
    facts it rewrote. *)
Theorem summarizeOldFacts_rewrites_content
        (num : Type) (N : Number num) (this : CortexPool num) :
  facts_in_id_order this ->
  let after := snd (summarizeOldFacts this) in
  let now := reading (clock this) (elapsed (clock this)) in
  map (fact_set_content EmptyString) (facts (db after))
  = map (fact_set_content EmptyString) (facts (db this))
  /\ entities (db after) = entities (db this)
  /\ fst (summarizeOldFacts this)
     = Z.of_nat (List.length (filter (summarized now) (facts (db this))))
  /\ (forall f, In f (facts (db this)) ->
                getFact (Fact.id f) after
                = Some (if summarized now f
                        then fact_set_content (summary_of f) f else f)).
Proof.
  intros Hs. cbv zeta. destruct (summarizeOldFacts_effect this) as (Hn & Hf & Ho).
  cbv zeta in *.
  split; [rewrite Hf; apply summarize_rows_columns|].
  split; [now apply facts_only_frame|].
  split; [exact Hn|].
  intros f Hin. unfold facts_in_id_order in Hs.
  pose proof (sorted_NoDup _ (@Fact.id num) _ Hs) as Hnd.
  unfold getFact. rewrite Hf.
  set (now := reading (clock this) (elapsed (clock this))) in *.
  set (oldFacts := stable_sort _ (filter (old_fact now) (facts (db this)))).
  assert (Hperm : Permutation oldFacts (filter (old_fact now) (facts (db this))))
    by apply stable_sort_perm.
  assert (Hold_nd : NoDup (map (@Fact.id num) oldFacts)).
  { apply (Permutation_NoDup (Permutation_map _ (Permutation_sym Hperm))).
    apply (sorted_NoDup _ (@Fact.id num)).
    now apply (sorted_filter _ (@Fact.id num)). }
  unfold summarized. destruct (old_fact now f) eqn:Eold; simpl.
  - assert (Hmem : In f oldFacts).
    { apply (Permutation_in _ (Permutation_sym Hperm)). apply filter_In. tauto. }
    rewrite (summarize_rows_hit f oldFacts Hold_nd Hmem).
    rewrite (find_unique _ (@Fact.id num) f _ Hnd Hin).
    now destruct (_ <? _)%nat.
  - rewrite summarize_rows_frame.
    + apply (find_unique _ (@Fact.id num) f _ Hnd Hin).
    + intros Hmem. apply in_map_iff in Hmem. destruct Hmem as (x & Hid & Hx).
      apply (Permutation_in _ Hperm) in Hx. apply filter_In in Hx.
      destruct Hx as [Hx Hxold].
      rewrite (same_key_same_row _ (@Fact.id num) _ x f Hnd Hx Hin Hid) in Hxold.
      congruence.
Qed.

(** X29.  With the facts table in id order, [mergeSimilarFacts] leaves
    every fact that is not semantic as it is; and it changes nothing but
    the facts table. *)
Theorem mergeSimilarFacts_touches_semantic_facts_only
        (num : Type) (N : Number num) (this : CortexPool num) (f : Fact.t num) :
  facts_in_id_order this ->
  In f (facts (db this)) ->
  Fact.tier f <> semantic ->
  let after := snd (mergeSimilarFacts this) in
  getFact (Fact.id f) after = Some f
  /\ entities (db after) = entities (db this).
Proof.
  intros Hs Hin Htier after. subst after. unfold facts_in_id_order in Hs.
  pose proof (sorted_NoDup _ (@Fact.id num) _ Hs) as Hnd.
  split; [|apply facts_only_frame, mergeSimilarFacts_facts_only].
  unfold getFact. rewrite mergeSimilarFacts_facts.
  rewrite merge_rows_frame.
  - apply (find_unique _ (@Fact.id num) f _ Hnd Hin).
  - intros Hmem. apply in_map_iff in Hmem. destruct Hmem as (x & Hid & Hx).
    apply filter_In in Hx. destruct Hx as [Hx Hsem].
    rewrite (same_key_same_row _ (@Fact.id num) _ x f Hnd Hx Hin Hid) in Hsem.
    destruct (Fact.tier f); simpl in Hsem; congruence.
Qed.

(** ** The reflection loop as a whole *)

Section ReflectionLoop.
Context {num : Type} `{Number num}.

Lemma subjects_within_refl (t : list (Fact.t num)) : subjects_within t t.
Proof. intros f Hf. eauto. Qed.

Lemma subjects_within_trans (a b c : list (Fact.t num)) :
  subjects_within a b -> subjects_within b c -> subjects_within a c.
Proof.
  intros Hab Hbc f Hf. destruct (Hab f Hf) as (g & Hg & E1).
  destruct (Hbc g Hg) as (h & Hh & E2). exists h. split; [exact Hh | congruence].
Qed.

Lemma subjects_within_filter (p : Fact.t num -> bool) (t : list (Fact.t num)) :
  subjects_within (filter p t) t.
Proof. intros f Hf. apply filter_In in Hf. exists f. tauto. Qed.

Lemma subjects_within_update (p : Fact.t num -> bool)
      (set : Fact.t num -> Fact.t num) (t : list (Fact.t num)) :
  (forall f, Fact.subjectId (set f) = Fact.subjectId f) ->
  subjects_within (sql_update p set t) t.
Proof.
  intros Hset f Hf. apply sql_update_In in Hf. destruct Hf as (r & Hr & ->).
  exists r. split; [exact Hr|]. destruct (p r); [apply Hset | reflexivity].
Qed.

Lemma subjects_within_fold (X : Type)
      (step : list (Fact.t num) -> X -> list (Fact.t num)) (l : list X) :
  (forall t x, subjects_within (step t x) t) ->
  forall t, subjects_within (fold_left step l t) t.
Proof.
  intros Hstep. induction l as [|x l IH]; intros t; simpl;
    [apply subjects_within_refl|].
  eapply subjects_within_trans; [apply IH | apply Hstep].
Qed.

Lemma decay_row_subjects `{Exponential num} (now : Z) (t : list (Fact.t num))
      (fact : Fact.t num) :
  subjects_within (decay_row now t fact) t.
Proof.
  unfold decay_row. destruct (_ <? _)%num.
  - apply subjects_within_filter.
  - now apply subjects_within_update.
Qed.

Lemma merge_row_subjects (f1 : Fact.t num) (t : list (Fact.t num)) (f2 : Fact.t num) :
  subjects_within (merge_row f1 t f2) t.
Proof.
  unfold merge_row. destruct (similar f1 f2); [|apply subjects_within_refl].
  eapply subjects_within_trans; [apply subjects_within_filter|].
  now apply subjects_within_update.
Qed.

Lemma merge_rows_subjects (l : list (Fact.t num)) :
  forall t, subjects_within (merge_rows l t) t.
Proof.
  induction l as [|f1 l IH]; intros t; simpl; [apply subjects_within_refl|].
  eapply subjects_within_trans; [apply IH|].
  apply subjects_within_fold. intros t' f2. apply merge_row_subjects.
Qed.

Lemma summarize_row_subjects (t : list (Fact.t num)) (fact : Fact.t num) :
  subjects_within (summarize_row t fact) t.
Proof.
  unfold summarize_row. destruct (_ <? _)%nat; [apply subjects_within_refl|].
  now apply subjects_within_update.
Qed.

Lemma prune_table_subjects (t : list (Fact.t num)) (row : Z * string * Z) :
  subjects_within (prune_table t row) t.
Proof. unfold prune_table. apply subjects_within_filter. Qed.

(** [compressMemory] changes nothing but the facts table and the clock, and
    gives no fact a subject that no fact had. *)
Lemma compressMemory_frame (this : CortexPool num) :
  facts_only this (snd (compressMemory this))
  /\ subjects_within (facts (db (snd (compressMemory this)))) (facts (db this)).
Proof.
  unfold compressMemory. cbv zeta.
  pose proof (mergeSimilarFacts_facts_only this) as Ho1.
  pose proof (mergeSimilarFacts_facts this) as Hf1.
  destruct (mergeSimilarFacts this) as [n1 this1]. cbn [snd] in *.
  destruct (pruneRedundantEdges_facts this1) as [Hf2 Ho2].
  destruct (pruneRedundantEdges this1) as [n2 this2]. cbn [snd] in *.
  destruct (summarizeOldFacts_effect this2) as (_ & Hf3 & Ho3). cbv zeta in Hf3.
  destruct (summarizeOldFacts this2) as [n3 this3]. cbn [snd] in *.
  split.
  - eapply facts_only_trans; [exact Ho1|].
    eapply facts_only_trans; [exact Ho2 | exact Ho3].
  - rewrite Hf3.
    eapply subjects_within_trans;
      [apply subjects_within_fold; apply summarize_row_subjects|].
    rewrite Hf2.
    eapply subjects_within_trans;
      [apply subjects_within_fold; apply prune_table_subjects|].
    rewrite Hf1. apply merge_rows_subjects.
Qed.

Lemma fill_pool_frame (now : Z) (selected : list (Fact.t num * num)) :
  forall (results : list (Retrieved.t num)) (this : CortexPool num),
    let after := snd (fill_pool now selected results this) in
    entities (db after) = entities (db this)
    /\ facts (db after) = facts (db this)
    /\ reflections (db after) = reflections (db this).
Proof.
  induction selected as [|[fact score] rest IH]; intros results this; simpl;
    [auto|].
  destruct (hydrateEntity _); [|simpl; auto].
  match goal with
  | |- context [fill_pool now rest ?r ?s] => destruct (IH r s) as (He & Hf & Hr)
  end.
  cbv zeta in *. rewrite He, Hf, Hr. simpl. auto.
Qed.

Lemma retrieve_frame (topics : list string) (options : RetrieveOptions.t)
      (this : CortexPool num) :
  let after := snd (retrieve topics options this) in
  entities (db after) = entities (db this)
  /\ facts (db after) = facts (db this).
Proof.
  cbv zeta.
  assert (Hents : entities (db (spreadActivation 2 (lit 0.5) (setTopics topics this)))
                  = entities (db this)).
  { now rewrite spreadActivation_entities, setTopics_entities. }
  assert (Hfacts : facts (db (spreadActivation 2 (lit 0.5) (setTopics topics this)))
                   = facts (db this)).
  { now rewrite spreadActivation_facts, setTopics_facts. }
  unfold retrieve. cbv zeta. revert Hents Hfacts.
  generalize (spreadActivation 2 (lit 0.5) (setTopics topics this)) as this2.
  intros this2 Hents Hfacts.
  destruct (score_all_facts (facts (db this2)) this2) as [_ Hdb].
  destruct (score_all (facts (db this2)) this2) as [scored this3].
  cbn [fst snd] in *. unfold Date_now. cbn [fst snd].
  match goal with
  | |- context [fill_pool ?now ?sel ?res ?s] =>
      destruct (fill_pool_frame now sel res s) as (He & Hf & _)
  end.
  cbv zeta in *. rewrite He, Hf. simpl. rewrite Hdb. auto.
Qed.

Lemma refreshPool_frame (this : CortexPool num) :
  let after := snd (refreshPool this) in
  entities (db after) = entities (db this)
  /\ facts (db after) = facts (db this).
Proof.
  cbv zeta. unfold refreshPool.
  destruct (0 <? List.length (currentTopics this))%nat; [|auto].
  pose proof (retrieve_frame (currentTopics this) (RetrieveOptions.mk None None) this)
    as Hr.
  cbv zeta in Hr.
  destruct (retrieve (currentTopics this) (RetrieveOptions.mk None None) this)
    as [[results|message] after]; exact Hr.
Qed.



Lemma before_consolidation_frame `{Exponential num} (this : CortexPool num) :
  entities (db (before_consolidation this)) = entities (db this)
  /\ subjects_within (facts (db (before_consolidation this))) (facts (db this))
  /\ currentTopics (before_consolidation this) = currentTopics this
  /\ pool (db (before_consolidation this)) = pool (db this).
Proof.
  unfold before_consolidation.
  destruct (detectContradictions_effect (applyDecay (snd (Date_now this))))
    as (_ & _ & Hf & He).
  destruct (applyDecay_frame (snd (Date_now this))) as (_ & He' & _).
  split; [rewrite He, He'; reflexivity|].
  split.
  { rewrite Hf, applyDecay_facts.
    apply (subjects_within_fold _ (decay_row _)). intros t x.
    apply decay_row_subjects. }
  unfold detectContradictions, Date_now. cbv beta iota zeta. cbn [snd].
  rewrite insert_contradictions_fold.
  unfold applyDecay, Date_now, insert_reflection. cbv beta iota zeta.
  cbn [currentTopics pool db set_db db_set_contradictions db_set_reflections set_clock
                     clock].
  split.
  - rewrite (fold_left_frame _ _ _ (fun s : CortexPool num => currentTopics s));
      [reflexivity|].
    intros s x. now destruct (_ <? _)%num.
  - rewrite (fold_left_frame _ _ _ (fun s : CortexPool num => pool (db s)));
      [reflexivity|].
    intros s x. now destruct (_ <? _)%num.
Qed.

(** The state [reflect] leaves: the entities are those the consolidation
    leaves, and every subject of a fact is the subject of a fact the
    consolidation left. *)
Lemma reflect_frame `{Exponential num} (this : CortexPool num) :
  entities (db (snd (reflect this))) = entities (db (after_consolidation this))
  /\ subjects_within (facts (db (snd (reflect this))))
                     (facts (db (after_consolidation this))).
Proof.
  unfold after_consolidation, before_consolidation, reflect.
  destruct (Date_now this) as [now this0]. cbn [snd].
  destruct (detectContradictions (applyDecay this0)) as [contradictions this2].
  cbn [snd].
  generalize (consolidateEntities (entities (db this2)) this2) as this3.
  intros this3.
  destruct (compressMemory_frame this3) as [Ho Hs].
  destruct (compressMemory this3) as [compressed this4]. cbn [snd] in *.
  destruct (refreshPool_frame this4) as [He Hf]. cbv zeta in He, Hf.
  destruct (facts_only_frame _ _ Ho) as (He4 & _).
  destruct (refreshPool this4) as [[u|message] this5]; cbn [snd] in *.
  - unfold insert_reflection. simpl. rewrite He, Hf, He4. auto.
  - rewrite He, Hf, He4. auto.
Qed.
End ReflectionLoop.


(** X26.  [reflect] keeps the subjects of the facts among the entities:
    with unique entity ids (the table in id order) and every subject of a
    fact a row of the entities table before the call, every subject of a
    fact is a row of the entities table after it, whether it returns or
    throws. *)
Theorem reflect_keeps_subjects_among_entities
        (num : Type) (N : Number num) (E : Exponential num)
        (this : CortexPool num) :
  entities_in_id_order this ->
  (forall f, In f (facts (db this)) -> getEntity (Fact.subjectId f) this <> None) ->
  forall f, In f (facts (db (snd (reflect this)))) ->
            getEntity (Fact.subjectId f) (snd (reflect this)) <> None.
Proof.
  intros Hs Hsub f Hf.
  destruct (reflect_frame this) as [He Hw].
  destruct (before_consolidation_frame this) as (Hbe & Hbw & _).
  apply getEntity_stored. rewrite He.
  destruct (Hw f Hf) as (g & Hg & ->).
  unfold after_consolidation, consolidateEntities in *.
  apply (consolidate_subjects (entities (db (before_consolidation this))) []
                              (before_consolidation this)).
  - rewrite Hbe. apply (sorted_NoDup _ (@Entity.id num)). exact Hs.
  - intros f' Hf'. destruct (Hbw f' Hf') as (g' & Hg' & ->).
    rewrite Hbe. apply getEntity_stored. exact (Hsub g' Hg').
  - intros e He'. apply in_map. exact He'.
  - intros kv [].
  - exact Hg.
Qed.


(** ** The further properties at sample stores *)

Lemma findFuzzyMatches_ranked_witness :
  Permutation
    (findFuzzyMatches "Wiliam" None seeded)
    (filter (fun e : Entity.t Q =>
               ngeb (maxSimilarity (normalizeName "Wiliam") e)
                    (or_default (lit 0.7) None))
            (entities (db seeded))).
Proof.
  destruct (findFuzzyMatches_ranked Q Number_Q NumberOrder_Q "Wiliam" None seeded)
    as [Hmatches _].
  exact Hmatches.
Defined.

Lemma suggestEntityMerges_pairs_witness :
  StronglySorted
    (fun a b : EntityMergeSuggestion.t Q =>
       (EntityMergeSuggestion.similarity a
        <? EntityMergeSuggestion.similarity b)%num = false)
    (suggestEntityMerges None seeded).
Proof.
  apply (suggestEntityMerges_pairs Q Number_Q NumberOrder_Q None seeded).
  unfold entities_in_id_order. vm_compute. repeat constructor.
Defined.

Lemma addEntity_keeps_entities_table_witness :
  entities_in_id_order (snd (addEntity "openliam" None None seeded))
  /\ canonical_names_unique (snd (addEntity "openliam" None None seeded)).
Proof.
  assert (Hordered : entities_in_id_order seeded).
  { unfold entities_in_id_order. vm_compute. repeat constructor. }
  assert (Hunique : canonical_names_unique seeded).
  { unfold canonical_names_unique. vm_compute.
    repeat (constructor; [simpl; intuition discriminate|]). constructor. }
  destruct (addEntity_keeps_entities_table Q Number_Q "openliam" None None seeded
              Hordered Hunique) as (Ho & Hu & _).
  split; [exact Ho | exact Hu].
Defined.

Lemma bulkAdd_keeps_store_consistent_witness :
  store_consistent
    (bulkAdd [sample_params "William" "prefers" (Some "tabs"%string)
                            "William prefers tabs over spaces" None None;
              sample_params "William" "created" (Some "OpenLiam"%string)
                            "William created OpenLiam" (Some structural) None]
             fresh).
Proof.
  apply (bulkAdd_keeps_store_consistent Q Number_Q).
  unfold store_consistent, entities_in_id_order, facts_in_id_order,
    canonical_names_unique, facts_reference_entities.
  split; [vm_compute; constructor|].
  split; [vm_compute; constructor|].
  split; [vm_compute; constructor|].
  vm_compute. intros f [].
Defined.

Lemma useFact_stored_fact_witness :
  getFact (Fact.id aged_caregiver) (useFact (Fact.id aged_caregiver) aged)
  = Some (fact_set_useCount
            (Fact.useCount aged_caregiver + 1)
            (fact_set_lastUsed
               (reading (clock aged) (elapsed (clock aged)))
               (fact_set_importance
                  (Math_min (lit 1.0) (Fact.importance aged_caregiver + lit 0.1)%num)
                  aged_caregiver))).
Proof.
  assert (Hids : NoDup (map (@Fact.id Q) (facts (db aged)))).
  { simpl. repeat (constructor; [simpl; intuition discriminate|]). constructor. }
  assert (Hin : In aged_caregiver (facts (db aged))).
  { simpl. auto. }
  destruct (useFact_stored_fact Q Number_Q NumberOrder_Q aged aged_caregiver
              Hids Hin) as [Hget _].
  exact Hget.
Defined.


Lemma retrieve_bounds_activation_history_witness :
  Z.of_nat (List.length
              (activationHistory
                 (snd (retrieve ["OpenLiam"%string] (RetrieveOptions.mk None None)
                                seeded))))
  <= 1000.
Proof.
  apply (retrieve_bounds_activation_history
           Q Number_Q ["OpenLiam"%string] (RetrieveOptions.mk None None) seeded).
  reflexivity.
Defined.

Lemma recordActivationHistory_then_getActivationHistory_witness :
  In (ActivationHistoryEntry.mk 1 (lit 1.0)
                                (reading (clock attentive) (elapsed (clock attentive)))
                                "spread")
     (getActivationHistory 1 (Some 0) (recordActivationHistory attentive)).
Proof.
  apply (recordActivationHistory_then_getActivationHistory
           Q Number_Q attentive 1 (lit 1.0) 0).
  - vm_compute. discriminate.
  - vm_compute. left. reflexivity.
  - vm_compute. reflexivity.
Defined.

Lemma applyActivationDecay_levels_witness :
  map_get 1 (activationLevels (applyActivationDecay 1700000003600 attentive))
  = match map_get 1 (activationLevels attentive) with
    | Some activation =>
        if recently_active 1700000003600 1 attentive then Some activation
        else decayed_level activation
    | None => None
    end.
Proof.
  apply (applyActivationDecay_levels Q Number_Q 1700000003600 attentive 1).
  vm_compute. repeat (constructor; [simpl; intuition discriminate|]). constructor.
Defined.


Lemma retrieve_returns_witness :
  exists results,
    fst (retrieve ["OpenLiam"%string] (RetrieveOptions.mk None (Some 5)) seeded)
    = Returned results.
Proof.
  apply (retrieve_returns Q Number_Q ["OpenLiam"%string]
                          (RetrieveOptions.mk None (Some 5)) seeded).
  apply Forall_forall. vm_compute. constructor; [discriminate | constructor].
Defined.

Lemma hybridRetrieval_without_vector_hits_witness :
  hybridRetrieval searchByVector ["OpenLiam"%string] 5 seeded
  = retrieve ["OpenLiam"%string] (RetrieveOptions.mk (Some false) (Some 5)) seeded.
Proof.
  apply (hybridRetrieval_without_vector_hits
           Q Number_Q searchByVector ["OpenLiam"%string] 5 seeded).
  reflexivity.
Defined.

Lemma hybridRetrieval_bounded_and_sorted_witness :
  exists results,
    fst (hybridRetrieval failing_backend ["OpenLiam"%string] 5 seeded)
    = Returned results
    /\ Z.of_nat (List.length results) <= 5.
Proof.
  destruct (fst (hybridRetrieval failing_backend ["OpenLiam"%string] 5 seeded))
    as [results|message] eqn:Hret.
  - exists results. split; [reflexivity|].
    destruct (hybridRetrieval_bounded_and_sorted
                Q Number_Q NumberOrder_Q failing_backend ["OpenLiam"%string] 5
                seeded results) as [Hlen _];
      [discriminate | exact Hret | exact Hlen].
  - vm_compute in Hret. discriminate.
Defined.


Lemma reflect_keeps_subjects_among_entities_witness :
  Forall (fun f : Fact.t R =>
            getEntity (Fact.subjectId f) (snd (reflect twins)) <> None)
         (facts (db (snd (reflect twins)))).
Proof.
  apply Forall_forall.
  apply (reflect_keeps_subjects_among_entities R Number_R Exponential_R twins).
  - unfold entities_in_id_order. simpl. repeat constructor.
  - intros f [<-|[<-|[]]]; unfold getEntity; simpl; discriminate.
Defined.

Lemma summarizeOldFacts_rewrites_content_witness :
  fst (summarizeOldFacts aged) = 1
  /\ entities (db (snd (summarizeOldFacts aged))) = entities (db aged).
Proof.
  assert (Hordered : facts_in_id_order aged).
  { unfold facts_in_id_order. simpl. repeat constructor. }
  destruct (summarizeOldFacts_rewrites_content Q Number_Q aged Hordered)
    as (_ & Hents & Hcount & _).
  split; [rewrite Hcount; reflexivity | exact Hents].
Defined.

Lemma mergeSimilarFacts_touches_semantic_facts_only_witness :
  getFact (Fact.id aged_greeting) (snd (mergeSimilarFacts aged))
  = Some aged_greeting.
Proof.
  assert (Hordered : facts_in_id_order aged).
  { unfold facts_in_id_order. simpl. repeat constructor. }
  assert (Hin : In aged_greeting (facts (db aged))).
  { simpl. auto. }
  assert (Htier : Fact.tier aged_greeting <> semantic).
  { discriminate. }
  destruct (mergeSimilarFacts_touches_semantic_facts_only
              Q Number_Q aged aged_greeting Hordered Hin Htier) as [Hget _].
  exact Hget.
Defined.

